(** * Data Innovation Showcase: computer vision notebooks

    A verification development for the two workshop notebooks
    [DataInnovationShowcase_ComputerVision.ipynb] (the published notebook)
    and its near-duplicate draft.  The notebooks train a small fully
    connected network on FashionMNIST with PyTorch.

    Modelling conventions.
    - Python exceptions: every fallible operation returns a [result],
      [Ok v] or [Raise e]; sequencing is the bind of that monad.
    - Python [int]: [Z].  Integer tensors (labels, class indices): [list Z].
    - Python [float] values computed from integers (the accuracy
      percentages): module [Binary64] evaluates [accuracy_fn] in IEEE
      binary64, the arithmetic of Python's floats, with the kernel's
      primitive floats.  Module [Accuracy] evaluates it over the exact
      rationals [Q]; the two are compared on the label tensors a batch
      of the notebook can hold, and the metrics the testing loop
      accumulates are stated over the rationals.
    - Floating-point tensors: a shape together with row-major data over
      the real numbers [R]; rounding to float32 is not modelled.
    - PyTorch and torchvision are external libraries: the few operations
      the notebooks call are modelled after the libraries' documentation
      (broadcasting [torch.eq], [DataLoader] batching with
      [drop_last=False], [nn.Flatten], [nn.Linear], [softmax], ...).
    - Order of operations and exception propagation: the code cells are
      programs in a monad of library calls ([Cells], [Code]), run against
      an arbitrary library.

    Part I holds the embedding, Part II the properties. *)

From Stdlib Require Import String.
From Stdlib Require Import Floats.
From Stdlib Require Import List ZArith QArith Qabs Qfield Lia Lqa Bool Arith.
From Stdlib Require Import Reals Lra Permutation.
Import ListNotations.

Set Implicit Arguments.

(* ------------------------------------------------------------------ *)
(** * Python exceptions as a result monad *)

Module Py.

Inductive exn : Type :=
  | ZeroDivisionError
  | IndexError
  | RuntimeError
  | ValueError
  | ConnectionError
  | OutOfMemoryError
  | OtherError (name : String.string).

Inductive result (A : Type) : Type :=
  | Ok (a : A)
  | Raise (e : exn).

Arguments Ok {A} a.
Arguments Raise {A} e.

Definition bind {A B} (m : result A) (k : A -> result B) : result B :=
  match m with
  | Ok a => k a
  | Raise e => Raise e
  end.

Definition is_ok {A} (m : result A) : bool :=
  match m with Ok _ => true | Raise _ => false end.

(** Python's [len] on a list-like object. *)
Definition len {A} (l : list A) : Z := Z.of_nat (length l).

End Py.

Import Py.

Declare Scope py_scope.
Delimit Scope py_scope with py.
Notation "x <- m ;; k" := (Py.bind m (fun x => k))
  (at level 61, m at next level, right associativity) : py_scope.
Local Open Scope py_scope.

(* ------------------------------------------------------------------ *)
(** * The accuracy metric *)

Module Accuracy.

Local Open Scope Z_scope.

(** Elementwise equality of two label tensors. *)
Fixpoint zip_eq (a b : list Z) : list bool :=
  match a, b with
  | x :: a', y :: b' => Z.eqb x y :: zip_eq a' b'
  | _, _ => []
  end.

(** [torch.eq] on two 1-D integer tensors, with PyTorch's broadcasting:
    sizes must agree, or one of them must be 1. *)
Definition torch_eq (a b : list Z) : result (list bool) :=
  if Nat.eqb (length a) (length b) then Ok (zip_eq a b)
  else match a, b with
       | [x], _ => Ok (map (fun y => Z.eqb x y) b)
       | _, [y] => Ok (map (fun x => Z.eqb x y) a)
       | _, _ => Raise RuntimeError
       end.

(** [t.sum().item()] on a boolean tensor: the number of [True] entries. *)
Fixpoint sum_item (t : list bool) : Z :=
  match t with
  | [] => 0
  | b :: t' => (if b then 1 else 0) + sum_item t'
  end.

(** Python's true division of two integers. *)
Definition truediv (a b : Z) : result Q :=
  if Z.eqb b 0 then Raise ZeroDivisionError
  else Ok (inject_Z a / inject_Z b)%Q.

(** [[
    def accuracy_fn(y_true, y_pred):
        correct = torch.eq(y_true, y_pred).sum().item()
        acc = (correct / len(y_pred)) * 100
        return acc
    ]] *)
Definition accuracy_fn (y_true y_pred : list Z) : result Q :=
  eqs <- torch_eq y_true y_pred ;;
  let correct := sum_item eqs in
  ratio <- truediv correct (len y_pred) ;;
  Ok (ratio * 100)%Q.

(** The specification's count: the number of indices [i] below
    [len(y_pred)] at which the two tensors hold the same label. *)
Definition matching_indices (y_true y_pred : list Z) : Z :=
  len (filter (fun i => Z.eqb (nth i y_true 0) (nth i y_pred 0))
              (seq 0 (length y_pred))).

End Accuracy.

(* ------------------------------------------------------------------ *)
(** * The accuracy metric in binary64 *)

Module Binary64.

Import Accuracy.

(** A Python integer as a float; exact below [2^53]. *)
Definition of_int (z : Z) : float := PrimFloat.of_uint63 (Uint63.of_Z z).

(** Python's true division of two integers: the correctly rounded
    quotient, which for operands below [2^53] is the binary64 quotient of
    the two converted operands. *)
Definition truediv (a b : Z) : result float :=
  if Z.eqb b 0 then Raise ZeroDivisionError
  else Ok (PrimFloat.div (of_int a) (of_int b)).

(** [accuracy_fn] with its two floating-point operations. *)
Definition accuracy_fn_binary64 (y_true y_pred : list Z) : result float :=
  eqs <- torch_eq y_true y_pred ;;
  let correct := sum_item eqs in
  ratio <- truediv correct (len y_pred) ;;
  Ok (PrimFloat.mul ratio (of_int 100)).

(** The rational number a finite float stands for. *)
Definition value (x : float) : option Q :=
  match Prim2SF x with
  | S754_zero _ => Some 0%Q
  | S754_finite s m e =>
      let q := if (0 <=? e)%Z then inject_Z (Zpos m * 2 ^ e)
               else (Zpos m # Z.to_pos (2 ^ (- e))) in
      Some (if s then (- q)%Q else q)
  | _ => None
  end.

(** The distance allowed between the binary64 result and the exact
    percentage: [2^-45]. *)
Definition tolerance : Q := 1 # (2 ^ 45).

(** The binary64 result for [correct] matches out of [n] labels agrees
    with the exact percentage [a]. *)
Definition agrees (correct n : Z) : bool :=
  match truediv correct n with
  | Ok ratio =>
      match value (PrimFloat.mul ratio (of_int 100)) with
      | Some v =>
          let a := (inject_Z correct / inject_Z n * 100)%Q in
          Qle_bool (Qabs (v - a)) tolerance
          && Qle_bool 0 v && Qle_bool v 100
          && (negb (Z.eqb correct n) || Qeq_bool v 100)
          && (negb (Z.eqb correct 0) || Qeq_bool v 0)
      | None => false
      end
  | Raise _ => false
  end.

(** A shift record of the rounding of binary64 ([shr_record], the
    mantissa and the round and sticky bits) stands for the exact
    mantissa [N / D]: its integer part, whether the fraction is at least
    one half, and whether the fraction is neither zero nor one half. *)
Definition represents (rec : shr_record) (N D : Z) : Prop :=
  let R := (N - shr_m rec * D)%Z in
  (0 <= shr_m rec)%Z /\ (0 <= R < D)%Z /\
  shr_r rec = (D <=? 2 * R)%Z /\
  shr_s rec = negb ((R =? 0)%Z || (2 * R =? D)%Z).

(** The counts a batch can produce: [n] labels, [1 <= n <= N], of which
    [0 <= correct <= n] match. *)
Definition batch_counts (N : nat) : list (Z * Z) :=
  flat_map (fun n => map (fun c => (Z.of_nat c, Z.of_nat n)) (seq 0 (S n)))
           (seq 1 N).

End Binary64.


(* ------------------------------------------------------------------ *)
(** * The PyTorch operations the notebooks use *)

Module Torch.

Local Open Scope R_scope.

(** A floating-point tensor: its shape and its elements in row-major
    order. *)
Record tensor : Type := mk_tensor { shape : list nat; data : list R }.

Definition numel (s : list nat) : nat := fold_right Nat.mul 1%nat s.

Definition wf (t : tensor) : Prop := length (data t) = numel (shape t).

Definition shape_eqb (s1 s2 : list nat) : bool :=
  if list_eq_dec Nat.eq_dec s1 s2 then true else false.

(** [rows n k l]: the first [k] consecutive rows of length [n] of [l]. *)
Fixpoint rows (n k : nat) (l : list R) : list (list R) :=
  match k with
  | O => []
  | S k' => firstn n l :: rows n k' (skipn n l)
  end.

Fixpoint sum (l : list R) : R :=
  match l with
  | [] => 0
  | x :: l' => x + sum l'
  end.

Fixpoint dot (a b : list R) : R :=
  match a, b with
  | x :: a', y :: b' => x * y + dot a' b'
  | _, _ => 0
  end.

Fixpoint vadd (a b : list R) : list R :=
  match a, b with
  | x :: a', y :: b' => (x + y) :: vadd a' b'
  | _, _ => []
  end.

Fixpoint vdiv (a b : list R) : list R :=
  match a, b with
  | x :: a', y :: b' => (x / y) :: vdiv a' b'
  | _, _ => []
  end.

Definition scale (c : R) (a : list R) : list R := map (Rmult c) a.

(** [torch.unsqueeze(t, dim=0)] *)
Definition unsqueeze0 (t : tensor) : tensor :=
  mk_tensor (1%nat :: shape t) (data t).

(** [t.squeeze()]: drops every dimension of size 1. *)
Definition squeeze (t : tensor) : tensor :=
  mk_tensor (filter (fun d => negb (Nat.eqb d 1)) (shape t)) (data t).

(** [nn.Flatten()] (start_dim=1, end_dim=-1): keeps the first dimension
    and merges the others; a tensor without a dimension 1 is refused. *)
Definition Flatten (t : tensor) : result tensor :=
  match shape t with
  | d0 :: (_ :: _) as rest => Ok (mk_tensor [d0; numel rest] (data t))
  | _ => Raise IndexError
  end.

(** [nn.Linear(in_features, out_features)]: [weight] has [out_features]
    rows of [in_features] entries, [bias] has [out_features] entries. *)
Record Linear : Type := mk_Linear
  { in_features : nat; out_features : nat;
    weight : list (list R); bias : list R }.

(** The constructor [nn.Linear(in_features=..., out_features=...)].  The
    initial parameter values are drawn at random by the library; [w] and
    [b] stand for the values drawn. *)
Definition nn_Linear (inf outf : nat) (w : nat -> nat -> R) (b : nat -> R) : Linear :=
  mk_Linear inf outf
    (map (fun i => map (fun j => w i j) (seq 0 inf)) (seq 0 outf))
    (map b (seq 0 outf)).

(** The shapes of a layer's parameters agree with its declared
    numbers of features. *)
Definition Linear_wf (L : Linear) : Prop :=
  Forall (fun r => length r = in_features L) (weight L) /\
  length (weight L) = out_features L /\
  length (bias L) = out_features L.

(** [x @ W^T + b] on one row [x]. *)
Fixpoint affine (W : list (list R)) (b : list R) (x : list R) : list R :=
  match W, b with
  | r :: W', bi :: b' => (dot r x + bi) :: affine W' b' x
  | _, _ => []
  end.

(** The forward pass of a linear layer: the affine map is applied to
    every row along the last dimension, whose size must be
    [in_features]. *)
Definition Linear_forward (L : Linear) (t : tensor) : result tensor :=
  match rev (shape t) with
  | last :: lead =>
      if Nat.eqb last (in_features L) then
        Ok (mk_tensor (rev lead ++ [out_features L])
              (concat (map (affine (weight L) (bias L))
                           (rows (in_features L) (numel lead) (data t)))))
      else Raise RuntimeError
  | [] => Raise RuntimeError
  end.

(** The linear combination [sum_j c_j * W_j] of the rows of [W], a
    vector of [n] entries. *)
Fixpoint lincomb (n : nat) (c : list R) (W : list (list R)) : list R :=
  match c, W with
  | cj :: c', r :: W' => vadd (scale cj r) (lincomb n c' W')
  | _, _ => repeat 0 n
  end.

(** The single linear layer that computes [L2] after [L1]: weight
    [W2 W1] and bias [W2 b1 + b2]. *)
Definition compose_Linear (L2 L1 : Linear) : Linear :=
  mk_Linear (in_features L1) (out_features L2)
    (map (fun r2 => lincomb (in_features L1) r2 (weight L1)) (weight L2))
    (affine (weight L2) (bias L2) (bias L1)).

(** [nn.ReLU()], the library's usual activation: [max(0, x)] on every
    entry. *)
Definition ReLU (t : tensor) : tensor :=
  mk_tensor (shape t) (map (Rmax 0) (data t)).

(** The [torch.nn] modules a layer stack can be built from. *)
Inductive layer : Type :=
  | nn_Flatten
  | nn_Linear_layer (L : Linear)
  | nn_ReLU.

(** Calling a module on a tensor. *)
Definition layer_forward (l : layer) (x : tensor) : result tensor :=
  match l with
  | nn_Flatten => Flatten x
  | nn_Linear_layer L => Linear_forward L x
  | nn_ReLU => Ok (ReLU x)
  end.

(** [nn.Sequential(m1, ..., mk)]: the modules are applied in order. *)
Fixpoint Sequential (ms : list layer) (x : tensor) : result tensor :=
  match ms with
  | [] => Ok x
  | m :: ms' => y <- layer_forward m x ;; Sequential ms' y
  end.

(** The softmax of a vector of logits. *)
Definition softmax (l : list R) : list R :=
  map (fun x => exp x / sum (map exp l)) l.

(** [torch.softmax(t, dim=0)]: along the first dimension, each entry is
    its exponential divided by the sum of the exponentials of its
    column; on a 0-dimensional tensor the result is 1. *)
Definition softmax_dim0 (t : tensor) : tensor :=
  match shape t with
  | [] => mk_tensor [] (map (fun _ => 1) (data t))
  | d0 :: rest =>
      let m := numel rest in
      let e := map (map exp) (rows m d0 (data t)) in
      let den := fold_right vadd (repeat 0 m) e in
      mk_tensor (shape t) (concat (map (fun r => vdiv r den) e))
  end.

(** [torch.stack(ts)] (dim=0): a non-empty list of tensors of one shape. *)
Definition stack (ts : list tensor) : result tensor :=
  match ts with
  | [] => Raise RuntimeError
  | t :: rest =>
      if forallb (fun u => shape_eqb (shape u) (shape t)) rest
      then Ok (mk_tensor (length ts :: shape t) (concat (map data ts)))
      else Raise RuntimeError
  end.

(** The index of the first maximal entry of a row, scanning from index
    [i] with the best entry [best] seen so far at index [besti]. *)
Fixpoint argmax_from (best : R) (besti i : Z) (l : list R) : Z :=
  match l with
  | [] => besti
  | x :: l' =>
      if Rlt_dec best x then argmax_from x i (i + 1)%Z l'
      else argmax_from best besti (i + 1)%Z l'
  end.

Definition argmax_row (l : list R) : Z :=
  match l with
  | [] => 0%Z
  | x :: l' => argmax_from x 0%Z 1%Z l'
  end.

(** [t.argmax(dim=1)] on a 2-dimensional tensor [[B, C]]: the class
    index of the largest entry of each of the [B] rows, a 1-D integer
    tensor.  Tensors of other ranks are outside this model of label
    tensors and are refused, as is an empty class dimension. *)
Definition argmax_dim1 (t : tensor) : result (list Z) :=
  match shape t with
  | [B; C] =>
      if Nat.eqb C 0 then Raise IndexError
      else Ok (map argmax_row (rows C B (data t)))
  | _ => Raise IndexError
  end.

(** Pairs each row of logits with its target and computes
    [-log(softmax(row)[target])]; a target outside [[0, C)] raises.  The
    targets are class indices: the library's [ignore_index] (-100 by
    default), which marks a sample to be left out of the mean, is not a
    class index and is outside this model. *)
Fixpoint nll_rows (C : nat) (rws : list (list R)) (y : list Z) : result (list R) :=
  match rws, y with
  | row :: rws', t :: y' =>
      if ((0 <=? t) && (t <? Z.of_nat C))%Z then
        ls <- nll_rows C rws' y' ;;
        Ok ((ln (sum (map exp row)) - nth (Z.to_nat t) row 0) :: ls)
      else Raise IndexError
  | _, _ => Ok []
  end.

(** [nn.CrossEntropyLoss()] (mean reduction) on logits of shape
    [[B, C]] and a 1-D tensor of [B] class indices; a number of targets
    other than the batch size of the logits raises [ValueError].  Logits
    of other ranks are outside this model and are refused. *)
Definition CrossEntropyLoss (logits : tensor) (y : list Z) : result R :=
  match shape logits with
  | [B; C] =>
      if Nat.eqb B (length y) then
        ls <- nll_rows C (rows C B (data logits)) y ;;
        Ok (sum ls / INR B)
      else Raise ValueError
  | _ => Raise RuntimeError
  end.

(** [t.item()] on an integer tensor: defined for exactly one element. *)
Definition item (t : list Z) : result Z :=
  match t with
  | [x] => Ok x
  | _ => Raise RuntimeError
  end.

(** [t[i]] with an integer index: the [i]-th slice along the first
    dimension.  Negative indices count from the end; a 0-dimensional
    tensor, and an index outside the first dimension, raise
    [IndexError]. *)
Definition select0 (t : tensor) (i : Z) : result tensor :=
  match shape t with
  | [] => Raise IndexError
  | d0 :: rest =>
      let j := if (i <? 0)%Z then (Z.of_nat d0 + i)%Z else i in
      if ((0 <=? j) && (j <? Z.of_nat d0))%Z then
        Ok (mk_tensor rest
              (firstn (numel rest) (skipn (Z.to_nat j * numel rest) (data t))))
      else Raise IndexError
  end.

End Torch.


(* ------------------------------------------------------------------ *)
(** * Datasets, data loaders and the random index *)

Module Data.

Import Torch.

(** Python's [range(n)]. *)
Definition range (n : nat) : list Z := map Z.of_nat (seq 0 n).

(** Indexing a sequence with a Python integer: indices [0 .. n-1]
    address the elements, [-n .. -1] count from the end, every other
    index raises [IndexError]. *)
Definition getitem {A} (l : list A) (i : Z) : result A :=
  let n := len l in
  let j := if (i <? 0)%Z then (n + i)%Z else i in
  if ((0 <=? j) && (j <? n))%Z then
    match nth_error l (Z.to_nat j) with
    | Some x => Ok x
    | None => Raise IndexError
    end
  else Raise IndexError.

Fixpoint mapM {A B} (f : A -> result B) (l : list A) : result (list B) :=
  match l with
  | [] => Ok []
  | x :: l' => y <- f x ;; ys <- mapM f l' ;; Ok (y :: ys)
  end.

(** A grayscale image as stored in the dataset files: rows of pixel
    bytes. *)
Definition raw_image : Type := list (list Z).

(** [torchvision.transforms.ToTensor()] on a grayscale image of height
    [H] and width [W]: a tensor of shape [[1, H, W]] with the pixel
    values scaled to [[0, 1]]. *)
Definition ToTensor (img : raw_image) : tensor :=
  mk_tensor [1%nat; length img; length (hd [] img)]
            (map (fun p => (IZR p / 255)%R) (concat img)).

(** [datasets.FashionMNIST(..., transform=ToTensor())]: the images and
    targets read from the downloaded files. *)
Record FashionMNIST : Type := mk_FashionMNIST
  { images : list raw_image;
    targets : list Z;
    transform : raw_image -> tensor }.

(** [FashionMNIST.classes] *)
Section Classes.
Local Open Scope string_scope.
Definition classes : list String.string :=
  ["T-shirt/top"; "Trouser"; "Pullover"; "Dress"; "Coat";
   "Sandal"; "Shirt"; "Sneaker"; "Bag"; "Ankle boot"].
End Classes.

(** [len(dataset)] *)
Definition FashionMNIST_len (ds : FashionMNIST) : Z := len (images ds).

(** [dataset[index]]: the transformed image and its target. *)
Definition FashionMNIST_getitem (ds : FashionMNIST) (index : Z) : result (tensor * Z) :=
  img <- getitem (images ds) index ;;
  target <- getitem (targets ds) index ;;
  Ok (transform ds img, target).

(** The file format of FashionMNIST, as the notebook describes the data:
    every example is a 28x28 grayscale image with a label from 10
    classes. *)
Definition image_28x28 (img : raw_image) : Prop :=
  length img = 28%nat /\ Forall (fun row => length row = 28%nat) img.

Definition FashionMNIST_format (ds : FashionMNIST) : Prop :=
  length (images ds) = length (targets ds) /\
  Forall image_28x28 (images ds) /\
  Forall (fun t => (0 <= t <= 9)%Z) (targets ds).

(** [torch.utils.data.BatchSampler.__iter__]:
    [[
    batch = []
    for idx in self.sampler:
        batch.append(idx)
        if len(batch) == self.batch_size:
            yield batch
            batch = []
    if len(batch) > 0 and not self.drop_last:
        yield batch
    ]] *)
Fixpoint batch_sampler_from {A} (batch_size : nat) (drop_last : bool)
    (batch : list A) (sampler : list A) : list (list A) :=
  match sampler with
  | [] =>
      if (Nat.ltb 0 (length batch) && negb drop_last)%bool then [batch] else []
  | idx :: sampler' =>
      let batch' := batch ++ [idx] in
      if Nat.eqb (length batch') batch_size
      then batch' :: batch_sampler_from batch_size drop_last [] sampler'
      else batch_sampler_from batch_size drop_last batch' sampler'
  end.

Definition batch_sampler {A} (batch_size : nat) (drop_last : bool)
    (sampler : list A) : list (list A) :=
  batch_sampler_from batch_size drop_last [] sampler.

(** A batch is full, or shorter but not empty. *)
Definition full_or_short {A} (batch_size : nat) (b : list A) : Prop :=
  (1 <= length b <= batch_size)%nat.

(** The number of samples in a list of batches. *)
Fixpoint total_length {A} (l : list (list A)) : nat :=
  match l with
  | [] => 0
  | b :: l' => length b + total_length l'
  end.

(** [DataLoader(dataset, batch_size=..., shuffle=...)], with the
    library's default [drop_last=False]; the library accepts only a
    positive [batch_size]. *)
Record DataLoader : Type := mk_DataLoader
  { dataset : FashionMNIST; batch_size : nat; shuffle : bool }.

(** The order in which an epoch visits the indices: [range(len(dataset))]
    without shuffling, otherwise the permutation [perm] the random
    sampler drew for the epoch. *)
Definition sampler (dl : DataLoader) (perm : list Z) : list Z :=
  if shuffle dl then perm else range (length (images (dataset dl))).

Definition index_batches (dl : DataLoader) (perm : list Z) : list (list Z) :=
  batch_sampler (batch_size dl) false (sampler dl perm).

(** [default_collate]: the images are stacked, the labels form a 1-D
    integer tensor. *)
Definition default_collate (samples : list (tensor * Z)) : result (tensor * list Z) :=
  X <- stack (map fst samples) ;;
  Ok (X, map snd samples).

Definition fetch (dl : DataLoader) (idxs : list Z) : result (tensor * list Z) :=
  samples <- mapM (FashionMNIST_getitem (dataset dl)) idxs ;;
  default_collate samples.

(** All the batches of one epoch, in order. *)
Definition batches (dl : DataLoader) (perm : list Z) : result (list (tensor * list Z)) :=
  mapM (fetch dl) (index_batches dl perm).

(** [len(dataloader)] with [drop_last=False]: the number of batches,
    [ceil(len(dataset) / batch_size)]. *)
Definition DataLoader_len (dl : DataLoader) : Z :=
  ((FashionMNIST_len (dataset dl) + Z.of_nat (batch_size dl) - 1)
     / Z.of_nat (batch_size dl))%Z.

(** [random.randint(a, b)]: an integer [N] with [a <= N <= b], both end
    points included ([randrange(a, b+1)]).  [r] is the number drawn by
    the generator. *)
Definition randint (a b : Z) (r : Z) : Z := (a + r mod (b + 1 - a))%Z.

(** The pixels of a stored grayscale image are bytes. *)
Definition pixel_bytes (img : raw_image) : Prop :=
  Forall (Forall (fun p => (0 <= p <= 255)%Z)) img.

End Data.


(* ------------------------------------------------------------------ *)
(** * The notebook: model, testing loop and predictions *)

Module Notebook.

Import Torch Data Accuracy.

Definition BATCH_SIZE : nat := 32.

(** [DataLoader(train_data, batch_size=BATCH_SIZE, shuffle=True)].  The
    library builds a random sampler for it, which it refuses to build
    over a dataset without samples; the training split of the notebook
    is not empty. *)
Definition train_dataloader (train_data : FashionMNIST) : DataLoader :=
  mk_DataLoader train_data BATCH_SIZE true.

Definition test_dataloader (test_data : FashionMNIST) : DataLoader :=
  mk_DataLoader test_data BATCH_SIZE false.

(** The current values of the model's parameters: weight and bias of
    the two linear layers, by index. *)
Record parameters : Type := mk_parameters
  { w1 : nat -> nat -> R; b1 : nat -> R;
    w2 : nat -> nat -> R; b2 : nat -> R }.

(** [[
    class FashionMNISTBaselineModel(nn.Module):
        def __init__(self, input_shape, hidden_units, output_shape):
            self.layer_stack = nn.Sequential(
                nn.Flatten(),
                nn.Linear(in_features=input_shape, out_features=hidden_units),
                nn.Linear(in_features=hidden_units, out_features=output_shape))
        def forward(self, x):
            return self.layer_stack(x)
    ]] *)
Record FashionMNISTBaselineModel : Type := mk_model { layer_stack : list layer }.

Definition FashionMNISTBaselineModel_init
    (input_shape hidden_units output_shape : nat) (p : parameters)
  : FashionMNISTBaselineModel :=
  mk_model
    [ nn_Flatten;
      nn_Linear_layer (nn_Linear input_shape hidden_units (w1 p) (b1 p));
      nn_Linear_layer (nn_Linear hidden_units output_shape (w2 p) (b2 p)) ].

Definition forward (self : FashionMNISTBaselineModel) (x : tensor) : result tensor :=
  Sequential (layer_stack self) x.

(** [class_names = train_data.classes] *)
Definition class_names : list String.string := classes.

(** [[
    model_0 = FashionMNISTBaselineModel(
        input_shape=784, hidden_units=10, output_shape=len(class_names))
    ]] *)
Definition model_0 (p : parameters) : FashionMNISTBaselineModel :=
  FashionMNISTBaselineModel_init 784 10 (length class_names) p.

(** The datasets of the notebook: FashionMNIST files loaded with
    [transform=ToTensor()]. *)
Definition notebook_dataset (ds : FashionMNIST) : Prop :=
  transform ds = ToTensor /\ FashionMNIST_format ds.

(** A sample of the data model: a single-channel 28x28 image tensor and
    a label in [[0, 9]]. *)
Definition sample_ok (s : tensor * Z) : Prop :=
  shape (fst s) = [1; 28; 28]%nat /\ wf (fst s) /\ (0 <= snd s <= 9)%Z.

(** A model with 10 output classes: on a batch of [B] single-channel
    28x28 images it returns [B] rows of 10 logits. *)
Definition ten_class_model (model : tensor -> result tensor) : Prop :=
  forall (X : tensor) (B : nat),
  shape X = [B; 1; 28; 28]%nat -> wf X ->
  exists logits, model X = Ok logits /\ shape logits = [B; 10]%nat /\ wf logits.

(** The number of samples in a batch [(X, y)]. *)
Definition batch_len (b : tensor * list Z) : nat := length (snd b).

Definition loss_fn : tensor -> list Z -> result R := CrossEntropyLoss.

(** One pass of the body of the testing loop:
    [[
    test_pred = model_0(X)
    test_loss += loss_fn(test_pred, y)
    test_acc += accuracy_fn(y_true=y, y_pred=test_pred.argmax(dim=1))
    ]] *)
Definition test_step (model : tensor -> result tensor)
    (st : R * Q) (b : tensor * list Z) : result (R * Q) :=
  let '(test_loss, test_acc) := st in
  let '(X, y) := b in
  test_pred <- model X ;;
  l <- loss_fn test_pred y ;;
  pred <- argmax_dim1 test_pred ;;
  a <- accuracy_fn y pred ;;
  Ok ((test_loss + l)%R, (test_acc + a)%Q).

(** [for X, y in test_dataloader: ...]: every batch is fetched, then
    processed, before the next one is fetched. *)
Fixpoint test_batches (model : tensor -> result tensor) (dl : DataLoader)
    (st : R * Q) (ibs : list (list Z)) : result (R * Q) :=
  match ibs with
  | [] => Ok st
  | ib :: ibs' =>
      b <- fetch dl ib ;;
      st' <- test_step model st b ;;
      test_batches model dl st' ibs'
  end.

(** The testing loop of one epoch, with the two final divisions by
    [len(test_dataloader)]; it returns [(test_loss, test_acc)]. *)
Definition testing_loop (model : tensor -> result tensor) (dl : DataLoader)
    (perm : list Z) : result (R * Q) :=
  st <- test_batches model dl (0%R, 0%Q) (index_batches dl perm) ;;
  let '(test_loss, test_acc) := st in
  let n := DataLoader_len dl in
  if Z.eqb n 0 then Raise ZeroDivisionError
  else Ok ((test_loss / IZR n)%R, (test_acc / inject_Z n)%Q).

(** The true labels and the predicted classes (argmax of the model's
    output) of all the samples of an epoch, batch after batch. *)
Fixpoint epoch_predictions (model : tensor -> result tensor) (dl : DataLoader)
    (ibs : list (list Z)) : result (list (list Z * list Z)) :=
  match ibs with
  | [] => Ok []
  | ib :: ibs' =>
      b <- fetch dl ib ;;
      test_pred <- model (fst b) ;;
      pred <- argmax_dim1 test_pred ;;
      rest <- epoch_predictions model dl ibs' ;;
      Ok ((snd b, pred) :: rest)
  end.

(** The percentage of all the samples of the epoch whose predicted
    class matches the true label. *)
Definition overall_accuracy (lp : list (list Z * list Z)) : Q :=
  let y_true := concat (map fst lp) in
  let y_pred := concat (map snd lp) in
  (100 * inject_Z (matching_indices y_true y_pred) / inject_Z (len y_pred))%Q.

(** A batch of indices the loader can fetch: not empty, every index
    within the dataset. *)
Definition index_batch_ok (dl : DataLoader) (ib : list Z) : Prop :=
  ib <> [] /\ Forall (fun i => (0 <= i < FashionMNIST_len (dataset dl))%Z) ib.

(** A recorded batch: as many predictions as labels, and at least one. *)
Definition batch_recorded (yp : list Z * list Z) : Prop :=
  length (fst yp) = length (snd yp) /\ snd yp <> [].

(** A recorded batch of [k] samples. *)
Definition batch_of_size (k : nat) (yp : list Z * list Z) : Prop :=
  batch_recorded yp /\ length (snd yp) = k.

(** The number of correct predictions of an epoch, batch by batch. *)
Fixpoint total_matching (lp : list (list Z * list Z)) : Z :=
  match lp with
  | [] => 0
  | yp :: lp' => (matching_indices (fst yp) (snd yp) + total_matching lp')%Z
  end.

(** The percentage of the samples of one batch whose predicted class
    matches the true label. *)
Definition batch_percentage (yp : list Z * list Z) : Q :=
  (100 * inject_Z (matching_indices (fst yp) (snd yp)) / inject_Z (len (snd yp)))%Q.

Fixpoint Qsum (l : list Q) : Q :=
  match l with
  | [] => 0
  | x :: l' => x + Qsum l'
  end.

(** The mean over the batches of the per-batch percentages. *)
Definition mean_batch_accuracy (lp : list (list Z * list Z)) : Q :=
  (Qsum (map batch_percentage lp) / inject_Z (len lp))%Q.

(** [[
    def make_predictions(model, img, device=device):
        pred_probs = []
        model.eval()
        with torch.inference_mode():
            img = torch.unsqueeze(img, dim=0)
            pred_logit = model(img)
            pred_prob = torch.softmax(pred_logit.squeeze(), dim=0)
            pred_probs.append(pred_prob.cpu())
        return torch.stack(pred_probs)
    ]]
    Device placement ([.to(device)], [.cpu()]) does not change a
    tensor's shape or values. *)
Definition make_predictions (model : tensor -> result tensor) (img : tensor)
  : result tensor :=
  let img := unsqueeze0 img in
  pred_logit <- model img ;;
  let pred_prob := softmax_dim0 (squeeze pred_logit) in
  stack [pred_prob].

(** [random_garment_idx = random.randint(0, len(test_data))]; the draft
    notebook draws from [train_data] in the same way. *)
Definition random_garment_idx (data : FashionMNIST) (r : Z) : Z :=
  randint 0 (FashionMNIST_len data) r.

(** The prediction cell:
    [[
    random_garment_idx = random.randint(0, len(test_data))
    sample_image, ground_truth_label = test_data[random_garment_idx]
    pred_probs = make_predictions(model=model_0, img=sample_image)
    pred_class = pred_probs.argmax(dim=1)
    print(pred_class.item(), class_names[pred_class.item()])
    ]]
    It returns the printed class, its name and the ground-truth label. *)
Definition prediction_cell (model : tensor -> result tensor)
    (data : FashionMNIST) (r : Z) : result (Z * String.string * Z) :=
  let idx := random_garment_idx data r in
  sample <- FashionMNIST_getitem data idx ;;
  let '(sample_image, ground_truth_label) := sample in
  pred_probs <- make_predictions model sample_image ;;
  pred_class <- argmax_dim1 pred_probs ;;
  c <- item pred_class ;;
  name <- getitem class_names c ;;
  Ok (c, name, ground_truth_label).

(** [next(iter(dataloader))]: the first batch of a fresh epoch; an
    epoch without batches raises [StopIteration]. *)
Definition first_batch (dl : DataLoader) (perm : list Z) : result (tensor * list Z) :=
  match index_batches dl perm with
  | [] => Raise (OtherError "StopIteration")
  | ib :: _ => fetch dl ib
  end.

(** The flatten cell:
    [[
    flatten_model = nn.Flatten()
    x = train_features_batch[0]
    output = flatten_model(x)
    ]]
    It returns the sample [x] and the flattened [output], whose shapes
    the cell prints. *)
Definition flatten_cell (train_features_batch : tensor) : result (tensor * tensor) :=
  x <- select0 train_features_batch 0 ;;
  output <- Flatten x ;;
  Ok (x, output).

(** The class the prediction cell prints for an image:
    [make_predictions(model, img).argmax(dim=1).item()]. *)
Definition predicted_class (model : tensor -> result tensor) (img : tensor)
  : result Z :=
  pred_probs <- make_predictions model img ;;
  pred_class <- argmax_dim1 pred_probs ;;
  item pred_class.

(** The cells that show a sample:
    [[
    image, label = data[index]
    plt.imshow(image.squeeze(), cmap="gray")
    title = plt.title(class_names[label])
    ]]
    It returns the image handed to [imshow] and the title. *)
Definition visualise_sample (data : FashionMNIST) (index : Z)
  : result (tensor * String.string) :=
  s <- FashionMNIST_getitem data index ;;
  let '(image, label) := s in
  name <- getitem class_names label ;;
  Ok (squeeze image, name).

End Notebook.


(* ------------------------------------------------------------------ *)
(** * The cells as programs over library calls

    For the order of operations and for exception propagation the cells
    are programs in a monad of library calls.  A call names the operation
    and its arguments and continues with the value the library returns;
    the library is an arbitrary, possibly stateful, possibly failing
    oracle.  Python's [with] and [try/except] are constructs of the
    monad. *)

Module Cells.

Import Data Notebook.

(** Python objects, as far as the cells look into them. *)
Inductive value : Type :=
  | VNone
  | VBool (b : bool)
  | VInt (z : Z)
  | VStr (s : String.string)
  | VObj (id : nat)
  | VPair (a b : value).

(** The operations a cell asks of the interpreter's builtins and of the
    libraries. *)
Inductive op : Type :=
  | Import (module_name : String.string)
  | Construct (class_name : String.string)
  | GetAttr (name : String.string)
  | GetItem
  | Builtin (name : String.string)
  | Func (name : String.string)
  | Method (name : String.string)
  | Arith (name : String.string)
  | DataLoaderNext
  | ForwardPass
  | LossComputation
  | ZeroGrad
  | BackwardPass
  | OptimizerStep
  | CtxEnter
  | CtxExit.

Inductive py : Type :=
  | Ret (v : value)
  | Call (o : op) (args : list value) (k : value -> py)
  | With (cm : value) (body : py) (k : value -> py)
  | TryExcept (body : py) (handler : exn -> py) (k : value -> py).

Fixpoint py_bind (p : py) (f : value -> py) : py :=
  match p with
  | Ret v => f v
  | Call o args k => Call o args (fun x => py_bind (k x) f)
  | With cm body k => With cm body (fun x => py_bind (k x) f)
  | TryExcept body handler k => TryExcept body handler (fun x => py_bind (k x) f)
  end.

Definition call (o : op) (args : list value) : py := Call o args Ret.

(** [for x in l: body], threading the variables the body reassigns.  The
    items come from the library one request at a time, made by the body;
    the last, exhausted request belongs to the iteration protocol of the
    [for] statement and is not a call of the cell. *)
Fixpoint for_each {A} (l : list A) (acc : value) (body : A -> value -> py) : py :=
  match l with
  | [] => Ret acc
  | x :: l' => py_bind (body x acc) (fun acc' => for_each l' acc' body)
  end.

Definition fst_of (v : value) : value :=
  match v with VPair a _ => a | _ => VNone end.

Definition snd_of (v : value) : value :=
  match v with VPair _ b => b | _ => VNone end.

(** One recorded call: the operation, its arguments, what the library
    answered. *)
Definition event : Type := op * list value * result value.

(** The library: its answer to a call may depend on every call made so
    far. *)
Definition library : Type := list event -> op -> list value -> result value.

(** Running a program against a library, from the history [h]: the
    outcome and the history extended with the calls made.  A context
    manager is entered, and left again however the body ends; the one the
    notebooks use, [torch.inference_mode()], never suppresses an exception.
    [try/except] runs the handler on the exception of its body. *)
Fixpoint run (lib : library) (h : list event) (p : py) : result value * list event :=
  match p with
  | Ret v => (Ok v, h)
  | Call o args k =>
    let r := lib h o args in
    let h' := h ++ [(o, args, r)] in
    match r with
    | Ok v => run lib h' (k v)
    | Raise e => (Raise e, h')
    end
  | With cm body k =>
    let r0 := lib h CtxEnter [cm] in
    let h0 := h ++ [(CtxEnter, [cm], r0)] in
    match r0 with
    | Raise e => (Raise e, h0)
    | Ok _ =>
        let '(rb, h1) := run lib h0 body in
        let rx := lib h1 CtxExit [cm] in
        let h2 := h1 ++ [(CtxExit, [cm], rx)] in
        match rx, rb with
        | Raise e', _ => (Raise e', h2)
        | Ok _, Raise e => (Raise e, h2)
        | Ok _, Ok v => run lib h2 (k v)
        end
    end
  | TryExcept body handler k =>
    match run lib h body with
    | (Ok v, h1) => run lib h1 (k v)
    | (Raise e, h1) =>
        match run lib h1 (handler e) with
        | (Ok v, h2) => run lib h2 (k v)
        | (Raise e', h2) => (Raise e', h2)
        end
    end
  end.

(** A program without [try/except]. *)
Inductive handler_free : py -> Prop :=
  | hf_Ret v : handler_free (Ret v)
  | hf_Call o args k :
    (forall v, handler_free (k v)) -> handler_free (Call o args k)
  | hf_With cm body k :
    handler_free body -> (forall v, handler_free (k v)) ->
    handler_free (With cm body k).

Definition ok_event (ev : event) : Prop :=
  match snd ev with Ok _ => True | Raise _ => False end.

Definition exit_event (ev : event) : Prop :=
  match fst (fst ev) with CtxExit => True | _ => False end.

(** The exception in flight after [post], when [e0] was raised before it:
    the last one raised. *)
Fixpoint last_raised (e0 : exn) (post : list event) : exn :=
  match post with
  | [] => e0
  | (_, _, Raise e) :: post' => last_raised e post'
  | (_, _, Ok _) :: post' => last_raised e0 post'
  end.

(** Every recorded answer is the library's answer at that point. *)
Fixpoint genuine (lib : library) (h : list event) (evs : list event) : Prop :=
  match evs with
  | [] => True
  | (o, args, r) :: evs' => lib h o args = r /\ genuine lib (h ++ [(o, args, r)]) evs'
  end.

(** An outcome [r] reached through the calls [evs] propagates exceptions:
    either no call failed and the program returned, or the calls up to
    the first failing one succeeded, nothing but the exits of the open
    context managers was called after it, and the program aborted with
    the exception in flight, which is the failing call's own exception
    unless an exit raised in turn. *)
Definition propagated (r : result value) (evs : list event) : Prop :=
  match r with
  | Ok _ => Forall ok_event evs
  | Raise e =>
    exists pre o args e0 post,
      evs = pre ++ (o, args, Raise e0) :: post /\
      Forall ok_event pre /\ Forall exit_event post /\
      e = last_raised e0 post /\
      (Forall ok_event post -> e = e0)
  end.

Definition propagates (lib : library) (h : list event) (p : py) : Prop :=
  exists evs,
  snd (run lib h p) = h ++ evs /\ genuine lib h evs /\
  propagated (fst (run lib h p)) evs.

End Cells.

(* ------------------------------------------------------------------ *)
(** * The code cells of the two notebooks *)

Module Code.

Import Data Cells.
Local Open Scope string_scope.

Notation "x <~ p ;; k" := (py_bind p (fun x => k))
  (at level 61, p at next level, right associativity).

(** The global variables the cells share. *)
Record globals : Type := mk_globals
  { g_train_data : value; g_test_data : value; g_class_names : value;
  g_train_dataloader : value; g_test_dataloader : value;
  g_train_features_batch : value; g_device : value;
  g_model_0 : value; g_loss_fn : value; g_optimizer : value;
  g_random_garment_idx : value; g_ground_truth_label : value }.

(** The number of samples of the two splits fixes how often the loops
    over the data loaders iterate. *)
Record sizes : Type := mk_sizes { n_train : nat; n_test : nat }.

Definition loader_batches (n : nat) : list (list Z) :=
  batch_sampler Notebook.BATCH_SIZE false (range n).

(** Cell 1: the imports. *)
Definition cell_imports : py :=
  _ <~ call (Import "torch") [] ;;
  _ <~ call (Import "torch.nn") [] ;;
  _ <~ call (Import "torchvision") [] ;;
  _ <~ call (Import "torchvision.datasets") [] ;;
  _ <~ call (Import "torchvision.transforms.ToTensor") [] ;;
  _ <~ call (Import "matplotlib.pyplot") [] ;;
  _ <~ call (Import "tqdm.auto.tqdm") [] ;;
  call (Import "random") [].

(** Cell 2: [train_data = datasets.FashionMNIST(...)],
    [test_data = datasets.FashionMNIST(...)]. *)
Definition cell_datasets : py :=
  t1 <~ call (Construct "ToTensor") [] ;;
  train_data <~ call (Construct "datasets.FashionMNIST")
                   [VStr "data"; VBool true; VBool true; t1; VNone] ;;
  t2 <~ call (Construct "ToTensor") [] ;;
  test_data <~ call (Construct "datasets.FashionMNIST")
                  [VStr "data"; VBool false; VBool true; t2] ;;
  Ret (VPair train_data test_data).

(** Cell 3: the four lengths. *)
Definition cell_lengths (g : globals) : py :=
  d1 <~ call (GetAttr "data") [g_train_data g] ;;
  n1 <~ call (Builtin "len") [d1] ;;
  d2 <~ call (GetAttr "targets") [g_train_data g] ;;
  n2 <~ call (Builtin "len") [d2] ;;
  d3 <~ call (GetAttr "data") [g_test_data g] ;;
  n3 <~ call (Builtin "len") [d3] ;;
  d4 <~ call (GetAttr "targets") [g_test_data g] ;;
  n4 <~ call (Builtin "len") [d4] ;;
  Ret (VPair (VPair n1 n2) (VPair n3 n4)).

(** Cell 4: [print(type(train_data))], [print(type(test_data))]. *)
Definition cell_types (g : globals) : py :=
  t1 <~ call (Builtin "type") [g_train_data g] ;;
  _ <~ call (Builtin "print") [t1] ;;
  t2 <~ call (Builtin "type") [g_test_data g] ;;
  call (Builtin "print") [t2].

(** Cell 5: [class_names = train_data.classes]. *)
Definition cell_class_names (g : globals) : py :=
  call (GetAttr "classes") [g_train_data g].

(** Cell 6: a first sample, printed. *)
Definition cell_sample (g : globals) : py :=
  s <~ call GetItem [g_train_data g; VInt 0] ;;
  t <~ call (Builtin "type") [fst_of s] ;;
  _ <~ call (Builtin "print") [VStr "The type of the image is a tensor:"; t] ;;
  _ <~ call (Builtin "print") [fst_of s] ;;
  _ <~ call (Builtin "print") [snd_of s] ;;
  sh <~ call (GetAttr "shape") [fst_of s] ;;
  call (Builtin "print") [sh].

(** Cells 7 and 21: an image of [data] shown with its class name. *)
Definition show_image (g : globals) (data index : value) : py :=
  s <~ call GetItem [data; index] ;;
  sq <~ call (Method "squeeze") [fst_of s] ;;
  _ <~ call (Func "plt.imshow") [sq; VStr "gray"] ;;
  name <~ call GetItem [g_class_names g; snd_of s] ;;
  call (Func "plt.title") [name].

Definition cell_show_train (g : globals) : py :=
  show_image g (g_train_data g) (VInt 3).

(** Cell 8: the two data loaders. *)
Definition cell_dataloaders (g : globals) : py :=
  _ <~ call (Import "torch.utils.data.DataLoader") [] ;;
  tr <~ call (Construct "DataLoader") [g_train_data g; VInt 32; VBool true] ;;
  te <~ call (Construct "DataLoader") [g_test_data g; VInt 32; VBool false] ;;
  Ret (VPair tr te).

(** Cell 9: the loaders and their lengths, printed. *)
Definition cell_print_loaders (g : globals) : py :=
  s1 <~ call (Builtin "format") [g_train_dataloader g; g_test_dataloader g] ;;
  _ <~ call (Builtin "print") [s1] ;;
  n1 <~ call (Builtin "len") [g_train_dataloader g] ;;
  s2 <~ call (Builtin "format") [n1; VInt 32] ;;
  _ <~ call (Builtin "print") [s2] ;;
  n2 <~ call (Builtin "len") [g_test_dataloader g] ;;
  s3 <~ call (Builtin "format") [n2; VInt 32] ;;
  call (Builtin "print") [s3].

(** Cell 10: [next(iter(train_dataloader))] and the two shapes. *)
Definition cell_first_batch (g : globals) : py :=
  it <~ call (Builtin "iter") [g_train_dataloader g] ;;
  b <~ call (Builtin "next") [it] ;;
  s1 <~ call (GetAttr "shape") [fst_of b] ;;
  s2 <~ call (GetAttr "shape") [snd_of b] ;;
  Ret b.

(** Cell 11: [device = "cuda" if torch.cuda.is_available() else "cpu"]. *)
Definition cell_device : py :=
  _ <~ call (Import "torch") [] ;;
  c <~ call (Func "torch.cuda.is_available") [] ;;
  Ret (match c with VBool true => VStr "cuda" | _ => VStr "cpu" end).

(** Cell 12: the flatten layer on one sample. *)
Definition cell_flatten (g : globals) : py :=
  flatten_model <~ call (Construct "nn.Flatten") [] ;;
  x <~ call GetItem [g_train_features_batch g; VInt 0] ;;
  output <~ call ForwardPass [flatten_model; x] ;;
  s1 <~ call (GetAttr "shape") [x] ;;
  f1 <~ call (Builtin "format") [s1] ;;
  _ <~ call (Builtin "print") [f1] ;;
  s2 <~ call (GetAttr "shape") [output] ;;
  f2 <~ call (Builtin "format") [s2] ;;
  call (Builtin "print") [f2].

(** Cell 13: the class statement. *)
Definition cell_model_class : py :=
  _ <~ call (Import "torch.nn") [] ;;
  call (Builtin "build_class") [VStr "FashionMNISTBaselineModel"].

(** [FashionMNISTBaselineModel.__init__]. *)
Definition model_init (input_shape hidden_units output_shape : value) : py :=
  _ <~ call (Method "super().__init__") [] ;;
  f <~ call (Construct "nn.Flatten") [] ;;
  l1 <~ call (Construct "nn.Linear") [input_shape; hidden_units] ;;
  l2 <~ call (Construct "nn.Linear") [hidden_units; output_shape] ;;
  call (Construct "nn.Sequential") [f; VPair l1 l2].

(** Cell 14: [model_0 = FashionMNISTBaselineModel(784, 10, len(class_names))]. *)
Definition cell_model_0 (g : globals) : py :=
  n <~ call (Builtin "len") [g_class_names g] ;;
  model_init (VInt 784) (VInt 10) n.

(** Cell 15: the loss function and the optimizer. *)
Definition cell_loss_optimizer (g : globals) : py :=
  lf <~ call (Construct "nn.CrossEntropyLoss") [] ;;
  ps <~ call (Method "parameters") [g_model_0 g] ;;
  opt <~ call (Construct "torch.optim.SGD") [ps; VStr "lr=0.1"] ;;
  Ret (VPair lf opt).

(** Cells 16 and 18 only define functions. *)
Definition cell_def : py := Ret VNone.

(** The body of [accuracy_fn]. *)
Definition py_accuracy_fn (y_true y_pred : value) : py :=
  eqs <~ call (Func "torch.eq") [y_true; y_pred] ;;
  s <~ call (Method "sum") [eqs] ;;
  correct <~ call (Method "item") [s] ;;
  n <~ call (Builtin "len") [y_pred] ;;
  ratio <~ call (Arith "/") [correct; n] ;;
  call (Arith "*") [ratio; VInt 100].

(** [x.to(device)] in the published notebook; the draft leaves the
    tensors where they are. *)
Definition to_device (published : bool) (g : globals) (x : value) : py :=
  if published then call (Method "to") [x; g_device g] else Ret x.

(** One iteration of the inner training loop:
    [[
    for X, y in train_dataloader:
        X, y = X.to(device), y.to(device)      # published notebook only
        model_0.train()
        y_pred = model_0(X)                    # 1. forward pass
        y_pred.to(device)                      # published notebook only
        loss = loss_fn(y_pred, y)              # 2. loss
        train_loss += loss
        optimizer.zero_grad()                  # 3. zero gradients
        loss.backward()                        # 4. backward pass
        optimizer.step()                       # 5. optimizer step
    ]] *)
Definition training_step (published : bool) (g : globals)
  (ib : list Z) (train_loss : value) : py :=
  batch <~ call DataLoaderNext [g_train_dataloader g] ;;
  X <~ to_device published g (fst_of batch) ;;
  y <~ to_device published g (snd_of batch) ;;
  _ <~ call (Method "train") [g_model_0 g] ;;
  y_pred <~ call ForwardPass [g_model_0 g; X] ;;
  _ <~ to_device published g y_pred ;;
  loss <~ call LossComputation [g_loss_fn g; y_pred; y] ;;
  train_loss' <~ call (Arith "+=") [train_loss; loss] ;;
  _ <~ call ZeroGrad [g_optimizer g] ;;
  _ <~ call BackwardPass [loss] ;;
  _ <~ call OptimizerStep [g_optimizer g] ;;
  Ret train_loss'.

Definition training_loop (published : bool) (g : globals) (sz : sizes) : py :=
  for_each (loader_batches (n_train sz)) (VInt 0) (training_step published g).

(** One iteration of the testing loop. *)
Definition testing_step (published : bool) (g : globals)
  (ib : list Z) (st : value) : py :=
  batch <~ call DataLoaderNext [g_test_dataloader g] ;;
  X <~ to_device published g (fst_of batch) ;;
  y <~ to_device published g (snd_of batch) ;;
  test_pred <~ call ForwardPass [g_model_0 g; X] ;;
  _ <~ to_device published g test_pred ;;
  l <~ call LossComputation [g_loss_fn g; test_pred; y] ;;
  test_loss <~ call (Arith "+=") [fst_of st; l] ;;
  pred <~ call (Method "argmax") [test_pred; VInt 1] ;;
  a <~ py_accuracy_fn y pred ;;
  test_acc <~ call (Arith "+=") [snd_of st; a] ;;
  Ret (VPair test_loss test_acc).

(** One epoch: training loop, testing loop inside
    [with torch.inference_mode():], and the report. *)
Definition epoch_body (published : bool) (g : globals) (sz : sizes)
  (epoch : Z) (_ : value) : py :=
  f0 <~ call (Builtin "format") [VInt epoch] ;;
  _ <~ call (Builtin "print") [f0] ;;
  train_loss <~ training_loop published g sz ;;
  n <~ call (Builtin "len") [g_train_dataloader g] ;;
  train_loss <~ call (Arith "/=") [train_loss; n] ;;
  _ <~ call (Method "eval") [g_model_0 g] ;;
  cm <~ call (Func "torch.inference_mode") [] ;;
  With cm
    (st <~ for_each (loader_batches (n_test sz)) (VPair (VInt 0) (VInt 0))
                    (testing_step published g) ;;
     n1 <~ call (Builtin "len") [g_test_dataloader g] ;;
     test_loss <~ call (Arith "/=") [fst_of st; n1] ;;
     n2 <~ call (Builtin "len") [g_test_dataloader g] ;;
     test_acc <~ call (Arith "/=") [snd_of st; n2] ;;
     Ret (VPair test_loss test_acc))
    (fun st =>
       f <~ call (Builtin "format") [train_loss; fst_of st; snd_of st] ;;
       call (Builtin "print") [f]).

(** Cell 17: [epochs = 3] and the training and testing loop. *)
Definition cell_train_test (published : bool) (g : globals) (sz : sizes) : py :=
  _ <~ (if published then call (Method "to") [g_model_0 g; g_device g] else Ret VNone) ;;
  r <~ call (Builtin "range") [VInt 3] ;;
  bar <~ call (Func "tqdm") [r] ;;
  for_each (range 3) VNone
    (fun epoch acc => _ <~ call (Builtin "next") [bar] ;;
                      epoch_body published g sz epoch acc).

(** The body of [make_predictions]; the draft moves the image to the
    device inside the function.  [VObj 0] is the list [pred_probs]. *)
Definition py_make_predictions (published : bool) (g : globals) (model img : value) : py :=
  let pred_probs := VObj 0 in
  _ <~ call (Method "eval") [model] ;;
  cm <~ call (Func "torch.inference_mode") [] ;;
  With cm
    (img1 <~ call (Func "torch.unsqueeze") [img; VInt 0] ;;
     img2 <~ to_device (negb published) g img1 ;;
     pred_logit <~ call ForwardPass [model; img2] ;;
     sq <~ call (Method "squeeze") [pred_logit] ;;
     pred_prob <~ call (Func "torch.softmax") [sq; VInt 0] ;;
     c <~ call (Method "cpu") [pred_prob] ;;
     call (Method "append") [pred_probs; c])
    (fun _ => call (Func "torch.stack") [pred_probs]).

(** Cell 19: the prediction for a random sample, of [test_data] in the
    published notebook and of [train_data] in the draft. *)
Definition cell_predict (published : bool) (g : globals) : py :=
  let data := if published then g_test_data g else g_train_data g in
  n <~ call (Builtin "len") [data] ;;
  idx <~ call (Func "random.randint") [VInt 0; n] ;;
  s <~ call GetItem [data; idx] ;;
  m <~ to_device published g (g_model_0 g) ;;
  img <~ to_device published g (fst_of s) ;;
  pred_probs <~ py_make_predictions published g m img ;;
  pred_class <~ call (Method "argmax") [pred_probs; VInt 1] ;;
  c1 <~ call (Method "item") [pred_class] ;;
  c2 <~ call (Method "item") [pred_class] ;;
  name <~ call GetItem [g_class_names g; c2] ;;
  f <~ call (Builtin "format") [c1; name] ;;
  call (Builtin "print") [f].

(** Cell 20: the ground truth, printed. *)
Definition cell_actual (g : globals) : py :=
  name <~ call GetItem [g_class_names g; g_ground_truth_label g] ;;
  f <~ call (Builtin "format") [g_ground_truth_label g; name] ;;
  call (Builtin "print") [f].

(** Cell 21 (published notebook only): the test image, shown. *)
Definition cell_show_test (g : globals) : py :=
  show_image g (g_test_data g) (g_random_garment_idx g).

(** The code cells of the published notebook, in order. *)
Definition published_cells (g : globals) (sz : sizes) : list py :=
  [ cell_imports; cell_datasets; cell_lengths g; cell_types g;
    cell_class_names g; cell_sample g; cell_show_train g;
    cell_dataloaders g; cell_print_loaders g; cell_first_batch g;
    cell_device; cell_flatten g; cell_model_class; cell_model_0 g;
    cell_loss_optimizer g; cell_def; cell_train_test true g sz; cell_def;
    cell_predict true g; cell_actual g; cell_show_test g ].

(** The code cells of the draft notebook, in order. *)
Definition draft_cells (g : globals) (sz : sizes) : list py :=
  [ cell_imports; cell_datasets; cell_lengths g; cell_types g;
    cell_class_names g; cell_sample g; cell_show_train g;
    cell_dataloaders g; cell_print_loaders g; cell_first_batch g;
    cell_device; cell_flatten g; cell_model_class; cell_model_0 g;
    cell_loss_optimizer g; cell_def; cell_train_test false g sz; cell_def;
    cell_predict false g; cell_actual g ].

(** The five operations of a training step, among all the calls. *)
Definition training_op (o : op) : bool :=
  match o with
  | ForwardPass | LossComputation | ZeroGrad | BackwardPass | OptimizerStep => true
  | _ => false
  end.

Definition training_ops (evs : list event) : list op :=
  filter training_op (map (fun ev => fst (fst ev)) evs).

(** The order the code performs them in, and the order the
    specification lists. *)
Definition code_order : list op :=
  [ForwardPass; LossComputation; ZeroGrad; BackwardPass; OptimizerStep].

Definition documented_order : list op :=
  [ZeroGrad; ForwardPass; LossComputation; BackwardPass; OptimizerStep].

(** A program performs the operations [full]: on every run the training
    operations it has performed are an initial part of [full], and all of
    [full] when the run returns. *)
Definition performs (full : list op) (p : py) : Prop :=
  forall (lib : library) (h : list event),
  exists evs,
    snd (run lib h p) = (h ++ evs)%list /\
    (exists rest, full = (training_ops evs ++ rest)%list) /\
    (is_ok (fst (run lib h p)) = true -> training_ops evs = full).

(** Globals that hold nothing yet. *)
Definition no_globals : globals :=
  mk_globals VNone VNone VNone VNone VNone VNone VNone VNone VNone VNone VNone VNone.

(** A program that catches the failure of a download and tries again:
    not one of the notebook's. *)
Definition retry_download : py :=
  TryExcept (call (Construct "datasets.FashionMNIST") [])
          (fun _ => call (Construct "datasets.FashionMNIST") [])
          Ret.

(** A library in which every call succeeds. *)
Definition lib_ok : library := fun _ _ _ => Ok VNone.

(** A library whose first download fails. *)
Definition lib_flaky : library :=
  fun h _ _ => match h with [] => Raise ConnectionError | _ => Ok VNone end.

(** The two of the five operations a testing step performs. *)
Definition evaluation_order : list op := [ForwardPass; LossComputation].

(** The operations of one epoch: a training step per training batch,
    then a testing step per test batch. *)
Definition epoch_order (sz : sizes) : list op :=
  (concat (repeat code_order (length (loader_batches (n_train sz))))
   ++ concat (repeat evaluation_order (length (loader_batches (n_test sz)))))%list.

End Code.

(* ------------------------------------------------------------------ *)
(** * Concrete data used to evaluate the notebook *)

Module Examples.

Import Torch Data Notebook.

(** An all-black 28x28 image. *)
Definition blank_image : raw_image := repeat (repeat 0%Z 28) 28.

(** A dataset of [n] blank images with the given targets, loaded as in
    the notebook. *)
Definition blank_dataset (tgts : list Z) : FashionMNIST :=
  mk_FashionMNIST (repeat blank_image (length tgts)) tgts ToTensor.

(** Two blank samples, labelled 3 (Dress) and 7 (Sneaker). *)
Definition two_samples : FashionMNIST := blank_dataset [3%Z; 7%Z].

(** All parameters zero, apart from the bias of the first output
    class: this model predicts class 0 for every image. *)
Definition class0_parameters : parameters :=
  mk_parameters (fun _ _ => 0%R) (fun _ => 0%R)
                (fun _ _ => 0%R) (fun i => if Nat.eqb i 0 then 1%R else 0%R).

(** The labels a batch of indices selects from a list of targets. *)
Definition labels_at (tgts : list Z) (ib : list Z) : list Z :=
  map (fun i => nth (Z.to_nat i) tgts 0%Z) ib.

(** What an epoch records for a model that predicts class 0 for every
    sample. *)
Definition class0_record (tgts : list Z) (ibs : list (list Z))
  : list (list Z * list Z) :=
  map (fun ib => (labels_at tgts ib, repeat 0%Z (length ib))) ibs.

(** 48 test samples, a full batch and a half: the first 32 of class 0,
    the last 16 of class 1. *)
Definition skewed_targets : list Z := repeat 0%Z 32 ++ repeat 1%Z 16.

Definition skewed_test_split : FashionMNIST := blank_dataset skewed_targets.

(** A test split of the size of FashionMNIST's: 10,000 samples. *)
Definition test_split_10000 : FashionMNIST :=
  blank_dataset (repeat 0%Z (Z.to_nat 10000)).

(** 64 test samples, two full batches: the first 32 of class 0, the
    last 32 of class 1. *)
Definition balanced_targets : list Z := repeat 0%Z 32 ++ repeat 1%Z 32.

Definition balanced_test_split : FashionMNIST := blank_dataset balanced_targets.

(** A uniformly grey 28x28 image of pixel value [v]. *)
Definition grey_image (v : Z) : raw_image := repeat (repeat v 28) 28.

(** Five samples of different shades, which batches of two and batches
    of three split differently. *)
Definition grey_samples : FashionMNIST :=
  mk_FashionMNIST (map grey_image [0%Z; 50%Z; 100%Z; 200%Z; 255%Z])
                  [3%Z; 7%Z; 0%Z; 9%Z; 1%Z] ToTensor.

(** A batch of two images, one black and one white. *)
Definition two_images : tensor :=
  mk_tensor [2; 1; 28; 28]%nat
    (data (ToTensor (grey_image 0)) ++ data (ToTensor (grey_image 255))).

(** Parameters that differ from one index to the next. *)
Definition ramp_parameters : parameters :=
  mk_parameters (fun k i => INR (k + i)) (fun k => INR k)
                (fun j k => (INR j - INR k)%R) (fun j => INR j).

End Examples.

(* ================================================================== *)
(** * Part II: properties *)

Import Accuracy.

Section AccuracyFacts.

Local Open Scope Z_scope.

Lemma torch_eq_same_length (a b : list Z) :
  length a = length b -> torch_eq a b = Ok (zip_eq a b).
Proof.
  intros H. unfold torch_eq. rewrite H, Nat.eqb_refl. reflexivity.
Qed.

Lemma filter_map_length {A B} (f : B -> bool) (g : A -> B) (l : list A) :
  length (filter f (map g l)) = length (filter (fun x => f (g x)) l).
Proof.
  induction l as [|x l IH]; simpl; [reflexivity|].
  destruct (f (g x)); simpl; now rewrite IH.
Qed.

Lemma matching_indices_cons (x y : Z) (a b : list Z) :
  matching_indices (x :: a) (y :: b)
  = (if Z.eqb x y then 1 else 0) + matching_indices a b.
Proof.
  unfold matching_indices, len. simpl length at 2.
  rewrite <- cons_seq, <- seq_shift. simpl filter.
  destruct (Z.eqb x y); simpl length;
    rewrite filter_map_length; simpl nth; lia.
Qed.

Lemma sum_item_matching (a b : list Z) :
  length a = length b -> sum_item (zip_eq a b) = matching_indices a b.
Proof.
  revert b; induction a as [|x a IH]; intros [|y b] H; simpl in H; try discriminate.
  - reflexivity.
  - rewrite matching_indices_cons. simpl. rewrite IH by lia. reflexivity.
Qed.

Lemma sum_item_bounds (t : list bool) : 0 <= sum_item t <= len t.
Proof.
  unfold len. induction t as [|b t IH]; simpl length; simpl sum_item; [lia|].
  destruct b; lia.
Qed.

Lemma zip_eq_length (a b : list Z) :
  length a = length b -> length (zip_eq a b) = length b.
Proof.
  revert b; induction a as [|x a IH]; intros [|y b] H; simpl in *; try discriminate; auto.
Qed.

Lemma sum_item_refl (a : list Z) : sum_item (zip_eq a a) = len a.
Proof.
  unfold len. induction a as [|x a IH]; [reflexivity|].
  simpl zip_eq. simpl sum_item. rewrite Z.eqb_refl, IH. simpl length. lia.
Qed.

Lemma sum_item_all_differ (a b : list Z) :
  length a = length b ->
  (forall i, (i < length b)%nat -> nth i a 0 <> nth i b 0) ->
  sum_item (zip_eq a b) = 0.
Proof.
  revert b; induction a as [|x a IH]; intros [|y b] H D; simpl in H; try discriminate.
  - reflexivity.
  - simpl. assert (x <> y) as Hxy by (apply (D 0%nat); simpl; lia).
    apply Z.eqb_neq in Hxy. rewrite Hxy. rewrite IH; [reflexivity|lia|].
    intros i Hi. apply (D (S i)). simpl; lia.
Qed.

Lemma len_pos_of_nonempty {A} (l : list A) : l <> [] -> 0 < len l.
Proof. destruct l; [congruence|]. unfold len; simpl length; lia. Qed.

(** The value computed by [accuracy_fn] on tensors of equal, non-zero
    length. *)
Lemma accuracy_fn_value (y_true y_pred : list Z) :
  length y_true = length y_pred -> y_pred <> [] ->
  accuracy_fn y_true y_pred
  = Ok (inject_Z (sum_item (zip_eq y_true y_pred)) / inject_Z (len y_pred) * 100)%Q.
Proof.
  intros Hlen Hne. unfold accuracy_fn.
  rewrite torch_eq_same_length by assumption. simpl bind.
  unfold truediv.
  pose proof (len_pos_of_nonempty Hne) as Hpos.
  destruct (Z.eqb_spec (len y_pred) 0) as [E|_]; [lia|]. reflexivity.
Qed.

End AccuracyFacts.

(** C9.  On equal-length, non-empty tensors the division inside
    [accuracy_fn] is defined ([len(y_pred)] is not zero, no
    [ZeroDivisionError]) and the returned value lies in [[0, 100]]. *)
Theorem accuracy_fn_in_range (y_true y_pred : list Z)
    (Hlen : length y_true = length y_pred) (Hne : y_pred <> []) :
  len y_pred <> 0%Z /\
  truediv (sum_item (zip_eq y_true y_pred)) (len y_pred)
    = Ok (inject_Z (sum_item (zip_eq y_true y_pred)) / inject_Z (len y_pred))%Q /\
  exists acc : Q,
    accuracy_fn y_true y_pred = Ok acc /\ (0 <= acc /\ acc <= 100)%Q.
Proof.
  pose proof (len_pos_of_nonempty Hne) as Hpos.
  split; [lia|]. split.
  { unfold truediv. destruct (Z.eqb_spec (len y_pred) 0) as [E|_]; [lia|reflexivity]. }
  eexists. split; [apply accuracy_fn_value; assumption|].
  pose proof (sum_item_bounds (zip_eq y_true y_pred)) as [Hlo Hhi].
  unfold len in Hhi. rewrite zip_eq_length in Hhi by assumption. fold (len y_pred) in Hhi.
  set (c := sum_item (zip_eq y_true y_pred)) in *.
  assert (Hq : (0 < inject_Z (len y_pred))%Q).
  { change 0%Q with (inject_Z 0). rewrite <- Zlt_Qlt. exact Hpos. }
  assert (Hc0 : (0 <= inject_Z c)%Q).
  { change 0%Q with (inject_Z 0). rewrite <- Zle_Qle. exact Hlo. }
  assert (Hcn : (inject_Z c <= inject_Z (len y_pred))%Q).
  { rewrite <- Zle_Qle. exact Hhi. }
  assert (Hr0 : (0 <= inject_Z c / inject_Z (len y_pred))%Q).
  { apply Qle_shift_div_l; [exact Hq|]. rewrite Qmult_0_l. exact Hc0. }
  assert (Hr1 : (inject_Z c / inject_Z (len y_pred) <= 1)%Q).
  { apply Qle_shift_div_r; [exact Hq|]. rewrite Qmult_1_l. exact Hcn. }
  generalize dependent (inject_Z c / inject_Z (len y_pred))%Q.
  intros r Hr0 Hr1. split; Lqa.lra.
Qed.

Lemma accuracy_fn_in_range_witness :
  length [1; 2; 3]%Z = length [1; 5; 3]%Z /\ [1; 5; 3]%Z <> [] /\
  len [1; 5; 3]%Z <> 0%Z /\
  truediv (sum_item (zip_eq [1; 2; 3]%Z [1; 5; 3]%Z)) (len [1; 5; 3]%Z)
    = Ok (inject_Z (sum_item (zip_eq [1; 2; 3]%Z [1; 5; 3]%Z))
          / inject_Z (len [1; 5; 3]%Z))%Q /\
  exists acc : Q,
    accuracy_fn [1; 2; 3]%Z [1; 5; 3]%Z = Ok acc /\ (0 <= acc /\ acc <= 100)%Q.
Proof.
  split; [reflexivity|]. split; [discriminate|].
  apply (@accuracy_fn_in_range [1; 2; 3]%Z [1; 5; 3]%Z).
  - reflexivity.
  - discriminate.
Defined.

(** Evaluations: two thirds right; an empty prediction divides by zero;
    a single prediction broadcast against three labels exceeds 100. *)
Example accuracy_fn_two_of_three :
  accuracy_fn [1; 2; 3]%Z [1; 5; 3]%Z = Ok (inject_Z 2 / inject_Z 3 * 100)%Q.
Proof. reflexivity. Qed.

Example accuracy_fn_empty : accuracy_fn [] [] = Raise ZeroDivisionError.
Proof. reflexivity. Qed.

Example accuracy_fn_broadcast :
  accuracy_fn [1; 1; 1]%Z [1]%Z = Ok (inject_Z 3 / inject_Z 1 * 100)%Q.
Proof. reflexivity. Qed.

(* ------------------------------------------------------------------ *)
(** ** Exact and binary64 accuracy *)

Section Binary64Facts.

Import Binary64.

(** For every count a batch of at most 32 labels can produce, the
    binary64 result is within [2^-45] of the exact percentage, lies in
    [[0, 100]], and is exactly 100 or 0 at the two extremes. *)
Lemma agrees_batch_counts :
  forallb (fun p => agrees (fst p) (snd p)) (batch_counts 32) = true.
Proof. vm_compute. reflexivity. Qed.

Lemma In_batch_counts (N c n : nat) :
  (1 <= n <= N)%nat -> (c <= n)%nat ->
  In (Z.of_nat c, Z.of_nat n) (batch_counts N).
Proof.
  intros Hn Hc. unfold batch_counts. apply in_flat_map. exists n. split.
  - apply in_seq. lia.
  - apply (in_map (fun c => (Z.of_nat c, Z.of_nat n))). apply in_seq. lia.
Qed.

(** X5.  In IEEE binary64, the arithmetic of Python's floats, the value
    [accuracy_fn] returns for label tensors of one length between 1 and
    32 (a batch of the notebook) is within [2^-45] of the exact
    percentage, lies in [[0, 100]], and is exactly 100 when every
    prediction is right and exactly 0 when every prediction is wrong. *)
Lemma accuracy_fn_binary64_agrees (y_true y_pred : list Z) :
  length y_true = length y_pred -> (1 <= length y_pred <= 32)%nat ->
  exists (x : float) (v a : Q),
    accuracy_fn_binary64 y_true y_pred = Ok x /\ value x = Some v /\
    accuracy_fn y_true y_pred = Ok a /\
    (Qabs (v - a) <= tolerance)%Q /\ (0 <= v)%Q /\ (v <= 100)%Q /\
    (y_pred = y_true -> v == 100)%Q /\
    ((forall i, (i < length y_pred)%nat -> nth i y_true 0%Z <> nth i y_pred 0%Z) ->
     v == 0)%Q.
Proof.
  intros Hlen Hn.
  assert (Hne : y_pred <> []) by (intros ->; simpl in Hn; lia).
  pose proof (sum_item_bounds (zip_eq y_true y_pred)) as [Hlo Hhi].
  unfold len in Hhi. rewrite zip_eq_length in Hhi by assumption.
  set (c := sum_item (zip_eq y_true y_pred)) in *.
  pose proof agrees_batch_counts as Hall. rewrite forallb_forall in Hall.
  assert (Hin : In (c, len y_pred) (batch_counts 32)).
  { rewrite <- (Z2Nat.id c) by exact Hlo. unfold len.
    apply In_batch_counts; lia. }
  specialize (Hall _ Hin). cbn [fst snd] in Hall. unfold agrees in Hall.
  unfold accuracy_fn_binary64. rewrite (torch_eq_same_length _ _ Hlen).
  cbn [bind]. fold c.
  destruct (truediv c (len y_pred)) as [ratio|]; [|discriminate]. cbn [bind].
  destruct (value (PrimFloat.mul ratio (of_int 100))) as [v|] eqn:Ev; [|discriminate].
  rewrite !andb_true_iff in Hall.
  destruct Hall as ((((Hclose & H0) & H100) & Hfull) & Hnone).
  apply Qle_bool_iff in Hclose, H0, H100.
  exists (PrimFloat.mul ratio (of_int 100)), v,
         (inject_Z c / inject_Z (len y_pred) * 100)%Q.
  split; [reflexivity|]. split; [exact Ev|].
  split; [now apply accuracy_fn_value|].
  split; [exact Hclose|]. split; [exact H0|]. split; [exact H100|]. split.
  - intros ->. unfold c in Hfull. rewrite sum_item_refl, Z.eqb_refl in Hfull.
    cbn [negb orb] in Hfull. now apply Qeq_bool_iff.
  - intros Hd. unfold c in Hnone.
    rewrite (sum_item_all_differ _ _ Hlen Hd) in Hnone.
    cbn [Z.eqb negb orb] in Hnone. now apply Qeq_bool_iff.
Qed.

End Binary64Facts.

(* ------------------------------------------------------------------ *)
(** ** The binary64 operations of [accuracy_fn] *)

(** Division and multiplication of primitive floats are specified by
    [SFdiv] and [SFmul] of [SpecFloat], which round an exact mantissa
    with [binary_round_aux]: the mantissa is shifted right, one digit at
    a time, down to 53 digits, a round bit and a sticky bit recording
    what was shifted out, and is then rounded to nearest, ties to even.
    The lemmas below follow that computation: a shift record keeps
    standing for the exact mantissa ([represents]), so the rounded
    mantissa is within one half of it, and the result within [2^-53] of
    the exact value in relative terms. *)

Section Binary64Arithmetic.

Import Binary64.

Local Open Scope Z_scope.

(** The number of binary digits of a positive number. *)
Lemma digits2_pos_bounds (p : positive) :
  2 ^ (Zpos (digits2_pos p) - 1) <= Zpos p < 2 ^ Zpos (digits2_pos p).
Proof.
  induction p as [p IH|p IH|]; cbn [digits2_pos].
  - rewrite Pos2Z.inj_succ.
    replace (Z.succ (Z.pos (digits2_pos p)) - 1) with (Z.pos (digits2_pos p) - 1 + 1)
      by lia.
    rewrite Z.pow_succ_r by lia. rewrite Z.pow_add_r by lia. lia.
  - rewrite Pos2Z.inj_succ.
    replace (Z.succ (Z.pos (digits2_pos p)) - 1) with (Z.pos (digits2_pos p) - 1 + 1)
      by lia.
    rewrite Z.pow_succ_r by lia. rewrite Z.pow_add_r by lia. lia.
  - simpl. lia.
Qed.

Lemma digits2_pos_unique (p : positive) (d : Z) :
  2 ^ (d - 1) <= Zpos p < 2 ^ d -> Zpos (digits2_pos p) = d.
Proof.
  intros [Hlo Hhi]. pose proof (digits2_pos_bounds p) as [Hlo' Hhi'].
  set (d0 := Zpos (digits2_pos p)) in *.
  assert (Hd0 : 0 < d0) by (unfold d0; lia).
  assert (Hd : 0 < d).
  { destruct (Z.lt_ge_cases 0 d) as [H|H]; [exact H|exfalso].
    destruct (Z.eq_dec d 0) as [->|Hn]; [simpl in Hhi; lia|].
    rewrite Z.pow_neg_r in Hhi by lia. lia. }
  destruct (Z.lt_trichotomy d0 d) as [H|[H|H]]; [exfalso|exact H|exfalso].
  - assert (2 ^ d0 <= 2 ^ (d - 1)) by (apply Z.pow_le_mono_r; lia). lia.
  - assert (2 ^ d <= 2 ^ (d0 - 1)) by (apply Z.pow_le_mono_r; lia). lia.
Qed.

Lemma shr_1_nonneg (m : Z) (r s : bool) :
  0 <= m ->
  shr_1 (Build_shr_record m r s) = Build_shr_record (m / 2) (Z.odd m) (r || s).
Proof.
  intros Hm. rewrite <- Z.div2_div.
  destruct m as [|[p|p|]|p]; try lia; reflexivity.
Qed.

Lemma shr_1_represents (rec : shr_record) (N D : Z) :
  0 < D -> represents rec N D -> represents (shr_1 rec) N (2 * D).
Proof.
  intros HD. destruct rec as [m r s]. unfold represents. cbn [shr_m shr_r shr_s].
  intros (Hm & HR & Hr & Hs). rewrite (shr_1_nonneg r s Hm). cbn [shr_m shr_r shr_s].
  pose proof (Z.div_mod m 2 ltac:(lia)) as Hdm.
  pose proof (Z.mod_pos_bound m 2 ltac:(lia)) as Hmb.
  assert (Hodd : Z.odd m = (m mod 2 =? 1)).
  { rewrite Zmod_odd. destruct (Z.odd m); reflexivity. }
  split; [apply Z.div_pos; lia|].
  destruct (Z.eqb_spec (m mod 2) 1) as [E1|E1].
  - (* m odd *)
    split; [nia|]. split.
    + rewrite Hodd. symmetry. apply Z.leb_le. nia.
    + rewrite Hr, Hs.
      destruct (Z.leb_spec D (2 * (N - m * D)));
      destruct (Z.eqb_spec (N - m * D) 0); destruct (Z.eqb_spec (2 * (N - m * D)) D);
      destruct (Z.eqb_spec (N - m / 2 * (2 * D)) 0);
      destruct (Z.eqb_spec (2 * (N - m / 2 * (2 * D))) (2 * D)); cbn; try reflexivity; exfalso; nia.
  - assert (E0 : m mod 2 = 0) by lia.
    split; [nia|]. split.
    + rewrite Hodd. symmetry. apply Z.leb_gt. nia.
    + rewrite Hr, Hs.
      destruct (Z.leb_spec D (2 * (N - m * D)));
      destruct (Z.eqb_spec (N - m * D) 0); destruct (Z.eqb_spec (2 * (N - m * D)) D);
      destruct (Z.eqb_spec (N - m / 2 * (2 * D)) 0);
      destruct (Z.eqb_spec (2 * (N - m / 2 * (2 * D))) (2 * D)); cbn; try reflexivity; exfalso; nia.
Qed.

Lemma iter_pos_nat {A} (f : A -> A) (p : positive) (x : A) :
  SpecFloat.iter_pos f p x = Nat.iter (Pos.to_nat p) f x.
Proof.
  revert x. induction p as [p IH|p IH|]; intros x; cbn [SpecFloat.iter_pos].
  - rewrite !IH, Pos2Nat.inj_xI.
    change (S (2 * Pos.to_nat p)) with (S (Pos.to_nat p + (Pos.to_nat p + 0)))%nat.
    rewrite Nat.add_0_r, Nat.iter_succ_r, Nat.iter_add. reflexivity.
  - rewrite !IH, Pos2Nat.inj_xO.
    change (2 * Pos.to_nat p)%nat with (Pos.to_nat p + (Pos.to_nat p + 0))%nat.
    rewrite Nat.add_0_r, Nat.iter_add. reflexivity.
  - reflexivity.
Qed.

Lemma shr_nat (rec : shr_record) (e : Z) (k : nat) :
  shr rec e (Z.of_nat k) = (Nat.iter k shr_1 rec, e + Z.of_nat k).
Proof.
  destruct k as [|k].
  - cbn [Z.of_nat shr Nat.iter nat_rect]. f_equal. lia.
  - cbn [Z.of_nat shr]. rewrite iter_pos_nat, SuccNat2Pos.id_succ. reflexivity.
Qed.

Lemma iter_represents (k : nat) (rec : shr_record) (N D : Z) :
  0 < D -> represents rec N D ->
  represents (Nat.iter k shr_1 rec) N (2 ^ Z.of_nat k * D).
Proof.
  intros HD H. induction k as [|k IH].
  - cbn [Nat.iter nat_rect Z.of_nat]. now rewrite Z.pow_0_r, Z.mul_1_l.
  - rewrite Nat2Z.inj_succ, Z.pow_succ_r by lia. rewrite <- Z.mul_assoc.
    change (Nat.iter (S k) shr_1 rec) with (shr_1 (Nat.iter k shr_1 rec)).
    apply shr_1_represents; [|exact IH].
    apply Z.mul_pos_pos; [apply Z.pow_pos_nonneg; lia|exact HD].
Qed.

Lemma round_represents (rec : shr_record) (N D : Z) :
  0 < D -> represents rec N D ->
  let m' := round_nearest_even (shr_m rec) (loc_of_shr_record rec) in
  shr_m rec <= m' <= shr_m rec + 1 /\ - D <= 2 * (m' * D - N) <= D.
Proof.
  intros HD. destruct rec as [m r s]. unfold represents.
  cbn [shr_m shr_r shr_s loc_of_shr_record].
  intros (Hm & HR & Hr & Hs). subst r s.
  destruct (Z.leb_spec D (2 * (N - m * D))) as [H1|H1];
    destruct (Z.eqb_spec (N - m * D) 0) as [H2|H2];
    destruct (Z.eqb_spec (2 * (N - m * D)) D) as [H3|H3];
    cbn [negb orb round_nearest_even]; try (split; nia).
  all: destruct (Z.even m); split; nia.
Qed.

(** Rounding a mantissa of [53 + k] digits, the integer part of the
    exact mantissa [N / D]: the result is a finite float whose mantissa
    has 53 digits, within half a unit in the last place of [N / D]. *)
Lemma binary_round_aux_spec (sx : bool) (mx : positive) (ex : Z) (lx : location)
    (N D : Z) (k : nat) :
  0 < D ->
  represents (shr_record_of_loc (Zpos mx) lx) N D ->
  Zpos (digits2_pos mx) = 53 + Z.of_nat k ->
  -1074 <= ex + Z.of_nat k -> ex + Z.of_nat k + 1 <= 971 ->
  exists (mf : positive) (ef : Z),
    binary_round_aux prec emax sx (Zpos mx) ex lx = S754_finite sx mf ef /\
    Zpos (digits2_pos mf) = 53 /\
    ex + Z.of_nat k <= ef <= ex + Z.of_nat k + 1 /\
    - (2 ^ Z.of_nat k * D)
    <= 2 * (Zpos mf * 2 ^ (ef - ex - Z.of_nat k) * (2 ^ Z.of_nat k * D) - N)
    <= 2 ^ Z.of_nat k * D.
Proof.
  intros HD Hrep Hd Hlo Hhi.
  set (P := 2 ^ Z.of_nat k).
  assert (HP : 0 < P) by (apply Z.pow_pos_nonneg; lia).
  pose proof (digits2_pos_bounds mx) as [Hmlo Hmhi]. rewrite Hd in Hmlo, Hmhi.
  replace (53 + Z.of_nat k - 1) with (52 + Z.of_nat k) in Hmlo by lia.
  rewrite Z.pow_add_r in Hmlo, Hmhi by lia. fold P in Hmlo, Hmhi.
  unfold binary_round_aux, shr_fexp. cbn [Zdigits2]. rewrite Hd.
  assert (E1 : fexp prec emax (53 + Z.of_nat k + ex) - ex = Z.of_nat k).
  { unfold fexp, emin, prec, emax. lia. }
  rewrite E1, shr_nat.
  pose proof (@iter_represents k _ N D HD Hrep) as Hk. fold P in Hk.
  set (rec := Nat.iter k shr_1 (shr_record_of_loc (Z.pos mx) lx)) in *.
  assert (HPD : 0 < P * D) by (apply Z.mul_pos_pos; assumption).
  destruct (@round_represents _ N (P * D) HPD Hk) as [Hm' Herr]. cbv zeta in Hm', Herr.
  set (m' := round_nearest_even (shr_m rec) (loc_of_shr_record rec)) in *.
  (* the integer part after the shift has 53 digits *)
  assert (Hm0 : Zpos mx * D <= N < (Zpos mx + 1) * D).
  { destruct Hrep as (_ & HR & _).
    assert (Em : shr_m (shr_record_of_loc (Z.pos mx) lx) = Z.pos mx)
      by (destruct lx as [|[| |]]; reflexivity).
    rewrite Em in HR. lia. }
  assert (Hm1 : 2 ^ 52 <= shr_m rec < 2 ^ 53).
  { destruct Hk as (Hnn & HR & _).
    set (m1 := shr_m rec) in *. split.
    - assert (Hc : 2 ^ 52 * P < (m1 + 1) * P).
      { apply Z.mul_lt_mono_pos_r with D; [exact HD|]. nia. }
      apply Z.mul_lt_mono_pos_r in Hc; [lia|exact HP].
    - assert (Hc : m1 * P < 2 ^ 53 * P).
      { apply Z.mul_lt_mono_pos_r with D; [exact HD|]. nia. }
      apply Z.mul_lt_mono_pos_r in Hc; [lia|exact HP]. }
  assert (Hm'r : 2 ^ 52 <= m' <= 2 ^ 53) by lia.
  destruct m' as [|p'|p'] eqn:Em'; try lia.
  destruct (Z.eq_dec (Zpos p') (2 ^ 53)) as [Etop|Ntop].
  - (* the rounding carried into a 54th digit *)
    assert (Hp' : p' = Pos.iter xO 1%positive 53) by (apply Pos2Z.inj; rewrite Etop; reflexivity).
    subst p'.
    exists (Pos.iter xO 1%positive 52), (ex + Z.of_nat k + 1).
    split.
    { cbn [Zdigits2 shr_record_of_loc].
      change (Z.pos (digits2_pos (Pos.iter xO 1%positive 53))) with 54.
      assert (E2 : fexp prec emax (54 + (ex + Z.of_nat k)) - (ex + Z.of_nat k) = 1).
      { unfold fexp, emin, prec, emax. lia. }
      rewrite E2. cbn [shr SpecFloat.iter_pos shr_1 shr_m Pos.iter].
      destruct (Z.leb_spec (ex + Z.of_nat k + 1) (emax - prec)) as [_|H]; [reflexivity|].
      unfold emax, prec in H. lia. }
    split; [reflexivity|]. split; [lia|].
    replace (ex + Z.of_nat k + 1 - ex - Z.of_nat k) with 1 by lia.
    change (Z.pos (Pos.iter xO 1%positive 52) * 2 ^ 1) with (2 ^ 53).
    rewrite Etop in Herr. exact Herr.
  - assert (Hd' : Zpos (digits2_pos p') = 53).
    { apply digits2_pos_unique. change (53 - 1) with 52. lia. }
    exists p', (ex + Z.of_nat k).
    split.
    { cbn [Zdigits2 shr_record_of_loc]. rewrite Hd'.
      assert (E2 : fexp prec emax (53 + (ex + Z.of_nat k)) - (ex + Z.of_nat k) = 0).
      { unfold fexp, emin, prec, emax. lia. }
      rewrite E2. cbn [shr shr_m].
      destruct (Z.leb_spec (ex + Z.of_nat k) (emax - prec)) as [_|H]; [reflexivity|].
      unfold emax, prec in H. lia. }
    split; [exact Hd'|]. split; [lia|].
    replace (ex + Z.of_nat k - ex - Z.of_nat k) with 0 by lia.
    rewrite Z.pow_0_r, Z.mul_1_r. exact Herr.
Qed.

Lemma digits2_pos_iter_xO (p k : positive) :
  digits2_pos (Pos.iter xO p k) = (digits2_pos p + k)%positive.
Proof.
  induction k as [|k IH] using Pos.peano_ind.
  - cbn. lia.
  - rewrite Pos.iter_succ. cbn [digits2_pos]. rewrite IH. lia.
Qed.

Lemma iter_xO_value (p k : positive) :
  Zpos (Pos.iter xO p k) = Zpos p * 2 ^ Zpos k.
Proof.
  induction k as [|k IH] using Pos.peano_ind.
  - cbn. lia.
  - rewrite Pos.iter_succ, Pos2Z.inj_xO, IH, Pos2Z.inj_succ, Z.pow_succ_r by lia. lia.
Qed.

Lemma binary_round_aux_canonical (sx : bool) (m : positive) (e : Z) :
  Zpos (digits2_pos m) = 53 -> -1074 <= e <= 971 ->
  binary_round_aux prec emax sx (Zpos m) e loc_Exact = S754_finite sx m e.
Proof.
  intros Hd He. unfold binary_round_aux, shr_fexp.
  cbn [Zdigits2 shr_record_of_loc]. rewrite Hd.
  assert (E : fexp prec emax (53 + e) - e = 0).
  { unfold fexp, emin, prec, emax. lia. }
  rewrite E. cbn [shr shr_m loc_of_shr_record round_nearest_even Zdigits2].
  rewrite Hd, E. cbn [shr shr_m].
  destruct (Z.leb_spec e (emax - prec)) as [_|H]; [reflexivity|].
  unfold emax, prec in H. lia.
Qed.

(** The float of a positive Python integer below [2^53]: the integer
    itself, with a mantissa of 53 digits. *)
Lemma of_int_spec (z : Z) :
  0 < z < 2 ^ 53 ->
  exists (m : positive) (a : Z),
    Prim2SF (of_int z) = S754_finite false m (- a) /\
    0 <= a <= 52 /\ Zpos m = z * 2 ^ a /\ Zpos (digits2_pos m) = 53.
Proof.
  intros Hz. unfold of_int. rewrite of_uint63_spec, Uint63.of_Z_spec.
  rewrite Z.mod_small by (unfold Uint63.wB; cbn; lia).
  destruct z as [|p|p]; try lia. cbn [binary_normalize]. unfold binary_round.
  pose proof (digits2_pos_bounds p) as [Hlo Hhi].
  set (d := digits2_pos p) in *.
  assert (Hd : Zpos d <= 53).
  { destruct (Z.le_gt_cases (Zpos d) 53) as [H|H]; [exact H|].
    assert (2 ^ 53 <= 2 ^ (Zpos d - 1)) by (apply Z.pow_le_mono_r; lia). lia. }
  assert (E : fexp prec emax (Zpos d + 0) = Zpos d - 53).
  { unfold fexp, emin, prec, emax. lia. }
  rewrite E. unfold shl_align.
  destruct (Zpos d - 53 - 0) as [|k|k] eqn:Ek; try lia.
  - exists p, 0. split; [apply binary_round_aux_canonical; [fold d; lia|lia]|].
    split; [lia|]. split; [simpl; lia|fold d; lia].
  - exists (Pos.iter xO p k), (Zpos k).
    assert (Hdk : Zpos (digits2_pos (Pos.iter xO p k)) = 53).
    { rewrite digits2_pos_iter_xO. fold d. lia. }
    split.
    { replace (Zpos d - 53) with (- Zpos k) by lia.
      apply binary_round_aux_canonical; [exact Hdk|lia]. }
    split; [lia|]. split; [apply iter_xO_value|exact Hdk].
Qed.

(** The location [SFdiv] computes from a remainder stands for the exact
    quotient. *)
Lemma new_location_represents (q r d : Z) :
  0 <= q -> 0 <= r < d ->
  represents (shr_record_of_loc q (new_location d r)) (q * d + r) d.
Proof.
  intros Hq Hr.
  assert (Em : forall l, shr_m (shr_record_of_loc q l) = q)
    by (intros [|[| |]]; reflexivity).
  unfold represents. rewrite Em.
  replace (q * d + r - q * d) with r by lia.
  split; [exact Hq|]. split; [exact Hr|].
  unfold new_location.
  destruct (Z.even d) eqn:Ev; [unfold new_location_even|unfold new_location_odd];
    destruct (Z.eqb_spec r 0) as [E0|N0];
    try (subst r; cbn [shr_record_of_loc shr_r shr_s orb negb];
         split; [symmetry; apply Z.leb_gt; lia|reflexivity]).
  - destruct (Z.compare_spec (2 * r) d) as [Hc|Hc|Hc];
      cbn [shr_record_of_loc shr_r shr_s orb negb].
    + split; [symmetry; apply Z.leb_le; lia|].
      destruct (Z.eqb_spec (2 * r) d); [reflexivity|lia].
    + split; [symmetry; apply Z.leb_gt; lia|].
      destruct (Z.eqb_spec (2 * r) d); [lia|reflexivity].
    + split; [symmetry; apply Z.leb_le; lia|].
      destruct (Z.eqb_spec (2 * r) d); [lia|reflexivity].
  - assert (Hodd : 2 * r <> d).
    { intros E. rewrite <- E in Ev. rewrite Z.even_mul in Ev. discriminate. }
    destruct (Z.compare_spec (2 * r + 1) d) as [Hc|Hc|Hc];
      cbn [shr_record_of_loc shr_r shr_s orb negb].
    + split; [symmetry; apply Z.leb_gt; lia|].
      destruct (Z.eqb_spec (2 * r) d); [lia|reflexivity].
    + split; [symmetry; apply Z.leb_gt; lia|].
      destruct (Z.eqb_spec (2 * r) d); [lia|reflexivity].
    + split; [symmetry; apply Z.leb_le; lia|].
      destruct (Z.eqb_spec (2 * r) d); [lia|reflexivity].
Qed.

(** In relative terms: the rounded value is within [2^-53] of the exact
    value [N / D * 2^ex]. *)
Lemma binary_round_aux_rel (sx : bool) (mx : positive) (ex : Z) (lx : location)
    (N D : Z) (k : nat) :
  0 < D ->
  represents (shr_record_of_loc (Zpos mx) lx) N D ->
  Zpos (digits2_pos mx) = 53 + Z.of_nat k ->
  -1074 <= ex + Z.of_nat k -> ex + Z.of_nat k + 1 <= 971 ->
  exists (mf : positive) (ef : Z),
    binary_round_aux prec emax sx (Zpos mx) ex lx = S754_finite sx mf ef /\
    Zpos (digits2_pos mf) = 53 /\
    ex + Z.of_nat k <= ef <= ex + Z.of_nat k + 1 /\
    - N <= 2 ^ 53 * (Zpos mf * 2 ^ (ef - ex) * D - N) <= N.
Proof.
  intros HD Hrep Hd Hlo Hhi.
  destruct (@binary_round_aux_spec sx mx ex lx N D k HD Hrep Hd Hlo Hhi)
    as (mf & ef & Hres & Hdf & Hef & Herr).
  exists mf, ef. split; [exact Hres|]. split; [exact Hdf|]. split; [exact Hef|].
  set (P := 2 ^ Z.of_nat k) in *.
  assert (HP : 0 < P) by (apply Z.pow_pos_nonneg; lia).
  assert (ET : 2 ^ (ef - ex) = 2 ^ (ef - ex - Z.of_nat k) * P).
  { unfold P. rewrite <- Z.pow_add_r by lia. f_equal. lia. }
  rewrite ET.
  set (T := 2 ^ (ef - ex - Z.of_nat k)) in *.
  assert (HN : 2 ^ 52 * (P * D) <= N).
  { pose proof (digits2_pos_bounds mx) as [Hmlo _]. rewrite Hd in Hmlo.
    replace (53 + Z.of_nat k - 1) with (52 + Z.of_nat k) in Hmlo by lia.
    rewrite Z.pow_add_r in Hmlo by lia. fold P in Hmlo.
    destruct Hrep as (_ & HR & _).
    assert (Em : shr_m (shr_record_of_loc (Z.pos mx) lx) = Z.pos mx)
      by (destruct lx as [|[| |]]; reflexivity).
    rewrite Em in HR. nia. }
  replace (Z.pos mf * (T * P) * D) with (Z.pos mf * T * (P * D)) by ring.
  set (W := Z.pos mf * T * (P * D)) in *.
  change (2 ^ 53) with (2 * 2 ^ 52). change (2 ^ 52) with 4503599627370496 in *.
  lia.
Qed.

(** The quotient of two Python integers: [correct / len(y_pred)] is a
    float within [2^-53], in relative terms, of the exact quotient. *)
Lemma div_rounding (c n : Z) :
  0 < c <= n -> n < 2 ^ 53 ->
  exists (mf : positive) (g : Z),
    Prim2SF (of_int c / of_int n) = S754_finite false mf (- g) /\
    52 <= g <= 105 /\ Zpos (digits2_pos mf) = 53 /\
    - (c * 2 ^ g) <= 2 ^ 53 * (Zpos mf * n - c * 2 ^ g) <= c * 2 ^ g.
Proof.
  intros Hc Hn.
  destruct (@of_int_spec c) as (mc & a & Hpc & Ha & Hmc & Hdc); [lia|].
  destruct (@of_int_spec n) as (mn & b & Hpn & Hb & Hmn & Hdn); [lia|].
  rewrite FloatAxioms.div_spec, Hpc, Hpn.
  unfold SF64div, SFdiv, SFdiv_core_binary. cbn [Zdigits2 xorb]. rewrite Hdc, Hdn.
  assert (Ee : Z.min (fexp prec emax (53 + - a - (53 + - b))) (- a - - b) = b - a - 53).
  { unfold fexp, emin, prec, emax. lia. }
  rewrite Ee. replace (- a - - b - (b - a - 53)) with 53 by lia. cbv iota.
  rewrite Z.shiftl_mul_pow2 by lia.
  pose proof (Z.div_eucl_eq (Z.pos mc * 2 ^ 53) (Z.pos mn) ltac:(lia)) as Hqr.
  pose proof (Z.mod_pos_bound (Z.pos mc * 2 ^ 53) (Z.pos mn) ltac:(lia)) as Hrb.
  unfold Z.modulo in Hrb.
  destruct (Z.div_eucl (Z.pos mc * 2 ^ 53) (Z.pos mn)) as [q r].
  pose proof (digits2_pos_bounds mc) as [Hclo Hchi]. rewrite Hdc in Hclo, Hchi.
  pose proof (digits2_pos_bounds mn) as [Hnlo Hnhi]. rewrite Hdn in Hnlo, Hnhi.
  change (2 ^ (53 - 1)) with (2 ^ 52) in *.
  assert (Hq : 2 ^ 52 <= q < 2 ^ 54).
  { change (2 ^ 54) with (2 * 2 ^ 53). change (2 ^ 53) with (2 * 2 ^ 52) in *.
    set (h := 2 ^ 52) in *. assert (0 < h) by (unfold h; lia). nia. }
  destruct q as [|pq|pq]; try lia.
  set (k := if Z.ltb (Zpos pq) (2 ^ 53) then 0%nat else 1%nat).
  assert (Hdq : Zpos (digits2_pos pq) = 53 + Z.of_nat k).
  { unfold k. destruct (Z.ltb_spec (Zpos pq) (2 ^ 53)) as [H|H];
      apply digits2_pos_unique; cbn [Z.of_nat]; simpl (53 + _ - 1); simpl (53 + _); lia. }
  assert (Hk : 0 <= Z.of_nat k <= 1) by (unfold k; destruct (Z.ltb (Zpos pq) (2 ^ 53)); simpl; lia).
  destruct (@binary_round_aux_rel false pq (b - a - 53) (new_location (Z.pos mn) r)
              (Z.pos pq * Z.pos mn + r) (Z.pos mn) k)
    as (mf & ef & Hres & Hdf & Hef & Herr); try lia.
  { apply new_location_represents; lia. }
  assert (EN : Z.pos pq * Z.pos mn + r = Z.pos mc * 2 ^ 53) by lia.
  rewrite EN in Herr. rewrite Hres.
  (* name the powers of two *)
  set (A := 2 ^ a) in *. set (B := 2 ^ b) in *.
  assert (HA : 0 < A) by (apply Z.pow_pos_nonneg; lia).
  assert (HB : 0 < B) by (apply Z.pow_pos_nonneg; lia).
  assert (HT0 : 0 <= ef - (b - a - 53)) by lia.
  set (T := 2 ^ (ef - (b - a - 53))) in *.
  assert (HT : 0 < T) by (apply Z.pow_pos_nonneg; lia).
  pose proof (digits2_pos_bounds mf) as [Hflo Hfhi]. rewrite Hdf in Hflo, Hfhi.
  change (2 ^ (53 - 1)) with (2 ^ 52) in *.
  (* the exponent of the result *)
  assert (Hg : ef <= -52).
  { destruct (Z.le_gt_cases ef (-52)) as [H|H]; [exact H|exfalso].
    assert (HTB : 4 * A <= T * B).
    { unfold T, B, A. rewrite <- Z.pow_add_r by lia.
      change 4 with (2 ^ 2). rewrite <- Z.pow_add_r by lia.
      apply Z.pow_le_mono_r; lia. }
    destruct Herr as [_ Hup]. rewrite Hmc, Hmn in Hup.
    fold A B in Hup.
    assert (H1 : 2 ^ 53 * (Z.pos mf * (T * B) * n) <= c * A * (2 ^ 53 * (2 ^ 53 + 1))) by nia.
    assert (H2 : 2 ^ 52 * (4 * A) * n <= Z.pos mf * (T * B) * n).
    { apply Z.mul_le_mono_nonneg_r; [lia|].
      apply Z.mul_le_mono_nonneg; lia. }
    assert (H3 : c * A <= n * A) by nia.
    change (2 ^ 53) with 9007199254740992 in *.
    change (2 ^ 52) with 4503599627370496 in *.
    nia. }
  exists mf, (- ef). rewrite Z.opp_involutive.
  split; [reflexivity|]. split; [lia|]. split; [exact Hdf|].
  set (G := 2 ^ (- ef)).
  assert (HG : 0 < G) by (apply Z.pow_pos_nonneg; lia).
  assert (EG : G * T * B = A * 2 ^ 53).
  { unfold G, T, B, A. rewrite <- !Z.pow_add_r by lia. f_equal. lia. }
  rewrite Hmc, Hmn in Herr. fold A B in Herr.
  assert (E1 : Z.pos mf * T * (n * B) - c * A * 2 ^ 53
               = (Z.pos mf * n - c * G) * (T * B)).
  { replace (c * A * 2 ^ 53) with (c * (A * 2 ^ 53)) by ring. rewrite <- EG. ring. }
  assert (E2 : c * A * 2 ^ 53 = c * G * (T * B)).
  { replace (c * A * 2 ^ 53) with (c * (A * 2 ^ 53)) by ring. rewrite <- EG. ring. }
  rewrite E1 in Herr. rewrite E2 in Herr.
  assert (HTB : 0 < T * B) by (apply Z.mul_pos_pos; assumption).
  replace (2 ^ 53 * ((Z.pos mf * n - c * G) * (T * B)))
    with (2 ^ 53 * (Z.pos mf * n - c * G) * (T * B)) in Herr by ring.
  replace (- (c * G * (T * B))) with (- (c * G) * (T * B)) in Herr by ring.
  destruct Herr as [Hl Hu].
  apply Z.mul_le_mono_pos_r in Hl; [|exact HTB].
  apply Z.mul_le_mono_pos_r in Hu; [|exact HTB].
  split; assumption.
Qed.

(** The product with 100: within [2^-53], in relative terms, of the exact
    product. *)
Lemma mul_rounding (x : float) (m1 : positive) (g1 : Z) :
  Prim2SF x = S754_finite false m1 (- g1) -> 52 <= g1 <= 105 ->
  Zpos (digits2_pos m1) = 53 ->
  exists (mf : positive) (g2 : Z),
    Prim2SF (x * of_int 100) = S754_finite false mf (- g2) /\
    0 < g2 /\
    - (100 * Zpos m1 * 2 ^ g2)
    <= 2 ^ 53 * (Zpos mf * 2 ^ g1 - 100 * Zpos m1 * 2 ^ g2)
    <= 100 * Zpos m1 * 2 ^ g2.
Proof.
  intros Hx Hg1 Hd1.
  assert (H100 : Prim2SF (of_int 100) = S754_finite false 7036874417766400 (-46))
    by (vm_compute; reflexivity).
  rewrite FloatAxioms.mul_spec, Hx, H100. unfold SF64mul, SFmul. cbn [xorb].
  pose proof (digits2_pos_bounds m1) as [Hlo Hhi]. rewrite Hd1 in Hlo, Hhi.
  change (2 ^ (53 - 1)) with (2 ^ 52) in *.
  set (M := (m1 * 7036874417766400)%positive).
  assert (EM : Zpos M = Zpos m1 * (100 * 2 ^ 46)) by (unfold M; rewrite Pos2Z.inj_mul; reflexivity).
  set (k := if Z.ltb (Zpos M) (2 ^ 105) then 52%nat else 53%nat).
  assert (Hk : 52 <= Z.of_nat k <= 53)
    by (unfold k; destruct (Z.ltb (Zpos M) (2 ^ 105)); simpl; lia).
  assert (HdM : Zpos (digits2_pos M) = 53 + Z.of_nat k).
  { unfold k. destruct (Z.ltb_spec (Zpos M) (2 ^ 105)) as [H|H];
      apply digits2_pos_unique; cbn [Z.of_nat]; simpl (53 + _ - 1); simpl (53 + _).
    - split; [|exact H]. rewrite EM.
      change (2 ^ 104) with (2 ^ 52 * 2 ^ 52). change (2 ^ 46) with 70368744177664.
      change (2 ^ 52) with 4503599627370496 in *. nia.
    - split; [exact H|]. rewrite EM.
      change (2 ^ 106) with (2 ^ 53 * 2 ^ 53). change (2 ^ 46) with 70368744177664.
      change (2 ^ 53) with 9007199254740992 in *. nia. }
  destruct (@binary_round_aux_rel false M (- g1 + -46) loc_Exact (Zpos M) 1 k)
    as (mf & ef & Hres & Hdf & Hef & Herr); try lia.
  { unfold represents. cbn [shr_record_of_loc shr_m shr_r shr_s].
    replace (Z.pos M - Z.pos M * 1) with 0 by lia.
    split; [lia|]. split; [lia|]. split; reflexivity. }
  rewrite Hres. exists mf, (- ef). rewrite Z.opp_involutive.
  split; [reflexivity|]. split; [lia|].
  set (G1 := 2 ^ g1). set (G2 := 2 ^ (- ef)).
  set (T := 2 ^ (ef - (- g1 + -46))) in *.
  assert (HT : 0 < T) by (apply Z.pow_pos_nonneg; lia).
  assert (HG2 : 0 < G2) by (apply Z.pow_pos_nonneg; lia).
  assert (EG : G2 * T = G1 * 2 ^ 46).
  { unfold G1, G2, T. rewrite <- !Z.pow_add_r by lia. f_equal. lia. }
  rewrite Z.mul_1_r in Herr. rewrite EM in Herr.
  assert (E1 : (Z.pos mf * T - Z.pos m1 * (100 * 2 ^ 46)) * G2
               = (Z.pos mf * G1 - 100 * Z.pos m1 * G2) * 2 ^ 46).
  { replace (Z.pos mf * T * G2) with (Z.pos mf * (G2 * T)) by ring.
    replace ((Z.pos mf * T - Z.pos m1 * (100 * 2 ^ 46)) * G2)
      with (Z.pos mf * (G2 * T) - Z.pos m1 * (100 * 2 ^ 46) * G2) by ring.
    rewrite EG. ring. }
  destruct Herr as [Hl Hu].
  apply (Z.mul_le_mono_pos_r _ _ G2 HG2) in Hl.
  apply (Z.mul_le_mono_pos_r _ _ G2 HG2) in Hu.
  replace (2 ^ 53 * (Z.pos mf * T - Z.pos m1 * (100 * 2 ^ 46)) * G2)
    with (2 ^ 53 * ((Z.pos mf * T - Z.pos m1 * (100 * 2 ^ 46)) * G2)) in Hl, Hu by ring.
  rewrite E1 in Hl, Hu.
  assert (H46 : 0 < 2 ^ 46) by lia.
  split.
  - apply (Z.mul_le_mono_pos_r _ _ (2 ^ 46) H46).
    replace (- (100 * Z.pos m1 * G2) * 2 ^ 46)
      with (- (Z.pos m1 * (100 * 2 ^ 46)) * G2) by ring.
    replace (2 ^ 53 * (Z.pos mf * G1 - 100 * Z.pos m1 * G2) * 2 ^ 46)
      with (2 ^ 53 * ((Z.pos mf * G1 - 100 * Z.pos m1 * G2) * 2 ^ 46)) by ring.
    exact Hl.
  - apply (Z.mul_le_mono_pos_r _ _ (2 ^ 46) H46).
    replace (100 * Z.pos m1 * G2 * 2 ^ 46)
      with (Z.pos m1 * (100 * 2 ^ 46) * G2) by ring.
    replace (2 ^ 53 * (Z.pos mf * G1 - 100 * Z.pos m1 * G2) * 2 ^ 46)
      with (2 ^ 53 * ((Z.pos mf * G1 - 100 * Z.pos m1 * G2) * 2 ^ 46)) by ring.
    exact Hu.
Qed.

(** Two roundings of relative size [2^-53] on a ratio of at most one:
    the result is within [2^-45] of the percentage. *)
Lemma percentage_error (c n m1 mf G1 G2 : Z) :
  0 < c <= n -> 0 < G1 -> 0 < G2 -> 0 < m1 ->
  - (c * G1) <= 2 ^ 53 * (m1 * n - c * G1) <= c * G1 ->
  - (100 * m1 * G2) <= 2 ^ 53 * (mf * G1 - 100 * m1 * G2) <= 100 * m1 * G2 ->
  - (n * G2) <= 2 ^ 45 * (mf * n - 100 * c * G2) <= n * G2.
Proof.
  intros Hc HG1 HG2 Hm1 H1 H2.
  set (A1 := m1 * n - c * G1) in *.
  set (A2 := mf * G1 - 100 * m1 * G2) in *.
  set (E := mf * n - 100 * c * G2).
  assert (HE : E * G1 = n * A2 + 100 * G2 * A1) by (unfold E, A1, A2; ring).
  assert (Ha1 : Z.abs A1 * 2 ^ 53 <= c * G1) by lia.
  assert (Ha2 : Z.abs A2 * 2 ^ 53 <= 100 * m1 * G2) by lia.
  assert (HcG : c * G1 <= n * G1) by nia.
  assert (Hm : m1 * 2 ^ 53 <= G1 * (2 ^ 53 + 1)).
  { assert (Hmn : m1 * n * 2 ^ 53 <= n * G1 * (2 ^ 53 + 1)).
    { assert (m1 * n <= Z.abs A1 + c * G1) by (unfold A1 in *; lia). nia. }
    apply (Z.mul_le_mono_pos_r _ _ n); [lia|].
    replace (m1 * 2 ^ 53 * n) with (m1 * n * 2 ^ 53) by ring.
    replace (G1 * (2 ^ 53 + 1) * n) with (n * G1 * (2 ^ 53 + 1)) by ring. exact Hmn. }
  assert (Habs : Z.abs E * G1 <= n * Z.abs A2 + 100 * G2 * Z.abs A1).
  { rewrite <- (Z.abs_eq G1) at 1 by lia. rewrite <- Z.abs_mul, HE.
    eapply Z.le_trans; [apply Z.abs_triangle|].
    rewrite !Z.abs_mul. rewrite (Z.abs_eq n), (Z.abs_eq 100), (Z.abs_eq G2) by lia. lia. }
  assert (Hs1 : Z.abs E * G1 * 2 ^ 53 <= 100 * (n * G2) * m1 + 100 * (n * G2) * G1).
  { assert (n * (Z.abs A2 * 2 ^ 53) <= n * (100 * m1 * G2))
      by (apply Z.mul_le_mono_nonneg_l; lia).
    assert (100 * G2 * (Z.abs A1 * 2 ^ 53) <= 100 * G2 * (n * G1))
      by (apply Z.mul_le_mono_nonneg_l; lia).
    nia. }
  assert (Hs2 : Z.abs E * 2 ^ 106 * G1 <= 100 * (2 ^ 54 + 1) * (n * G2) * G1).
  { assert (HnG : 0 <= 100 * (n * G2)) by nia.
    assert (100 * (n * G2) * (m1 * 2 ^ 53) <= 100 * (n * G2) * (G1 * (2 ^ 53 + 1)))
      by (apply Z.mul_le_mono_nonneg_l; assumption).
    change (2 ^ 106) with (2 ^ 53 * 2 ^ 53). change (2 ^ 54) with (2 * 2 ^ 53).
    set (U := 2 ^ 53) in *. nia. }
  apply Z.mul_le_mono_pos_r in Hs2; [|exact HG1].
  assert (Hfin : Z.abs E * 2 ^ 45 <= n * G2).
  { assert (0 <= n * G2) by nia.
    change (2 ^ 106) with (2 ^ 45 * 2 ^ 61) in Hs2.
    assert (100 * (2 ^ 54 + 1) * (n * G2) <= 2 ^ 61 * (n * G2))
      by (apply Z.mul_le_mono_nonneg_r; [assumption|vm_compute; discriminate]).
    assert (Z.abs E * 2 ^ 45 * 2 ^ 61 <= n * G2 * 2 ^ 61) by lia.
    apply Z.mul_le_mono_pos_r in H3; [exact H3|lia]. }
  fold E. lia.
Qed.

Lemma value_negative_exponent (x : float) (mf : positive) (g : Z) :
  Prim2SF x = S754_finite false mf (- g) -> 0 < g ->
  value x = Some (Zpos mf # Z.to_pos (2 ^ g)).
Proof.
  intros Hx Hg. unfold value. rewrite Hx.
  destruct (Z.leb_spec 0 (- g)) as [H|_]; [lia|]. now rewrite Z.opp_involutive.
Qed.

Lemma tolerance_from_Z (mf : positive) (G c n : Z) :
  0 < G -> 0 < n ->
  - (n * G) <= 2 ^ 45 * (Zpos mf * n - 100 * c * G) <= n * G ->
  (Qabs ((Zpos mf # Z.to_pos G) - 100 * inject_Z c / inject_Z n) <= tolerance)%Q.
Proof.
  intros HG Hn H.
  destruct G as [|pG|pG]; try lia. destruct n as [|pn|pn]; try lia.
  cbn [Z.to_pos]. apply Qabs_Qle_condition. unfold tolerance.
  change (2 ^ 45)%positive with 35184372088832%positive.
  change (2 ^ 45) with 35184372088832 in H.
  unfold Qle, Qminus, Qplus, Qopp, Qdiv, Qmult, Qinv, inject_Z.
  cbn [Qnum Qden]. rewrite ?Pos2Z.inj_mul, ?Pos.mul_1_l, ?Pos.mul_1_r.
  rewrite ?Pos2Z.inj_mul. split; nia.
Qed.

Lemma div_self (x : float) (m : positive) (e : Z) :
  Prim2SF x = S754_finite false m e -> (x / x)%float = 1%float.
Proof.
  intros Hx. apply Prim2SF_inj. rewrite FloatAxioms.div_spec, Hx.
  unfold SF64div, SFdiv, SFdiv_core_binary.
  replace (Zdigits2 (Z.pos m) + e - (Zdigits2 (Z.pos m) + e)) with 0 by lia.
  replace (e - e) with 0 by lia.
  change (Z.min (fexp prec emax 0) 0) with (-53).
  change (0 - -53) with 53.
  cbv iota.
  assert (Ediv : Z.div_eucl (Z.shiftl (Z.pos m) 53) (Z.pos m) = (2 ^ 53, 0)).
  { rewrite Z.shiftl_mul_pow2 by lia.
    pose proof (Z.div_eucl_eq (Z.pos m * 2 ^ 53) (Z.pos m)) as Heq.
    pose proof (Z.mod_pos_bound (Z.pos m * 2 ^ 53) (Z.pos m)) as Hb.
    unfold Z.modulo in Hb.
    destruct (Z.div_eucl (Z.pos m * 2 ^ 53) (Z.pos m)) as [q r].
    specialize (Heq ltac:(lia)). specialize (Hb ltac:(lia)).
    assert (q = 2 ^ 53) by nia. subst q. f_equal. lia. }
  rewrite Ediv.
  assert (Eloc : new_location (Z.pos m) 0 = loc_Exact).
  { unfold new_location. destruct (Z.even (Z.pos m)); reflexivity. }
  rewrite Eloc. vm_compute. reflexivity.
Qed.

Lemma div_zero (x : float) (m : positive) (e : Z) :
  Prim2SF x = S754_finite false m e -> (of_int 0 / x)%float = 0%float.
Proof.
  intros Hx. apply Prim2SF_inj. rewrite FloatAxioms.div_spec, Hx. reflexivity.
Qed.

Lemma all_correct_binary64 (n : Z) :
  0 < n < 2 ^ 53 -> (of_int n / of_int n * of_int 100)%float = 100%float.
Proof.
  intros Hn. destruct (of_int_spec Hn) as (m & a & H & _).
  rewrite (div_self _ H). vm_compute. reflexivity.
Qed.

Lemma none_correct_binary64 (n : Z) :
  0 < n < 2 ^ 53 -> (of_int 0 / of_int n * of_int 100)%float = 0%float.
Proof.
  intros Hn. destruct (of_int_spec Hn) as (m & a & H & _).
  rewrite (div_zero _ H). vm_compute. reflexivity.
Qed.

(** The binary64 value of [(c / n) * 100] is within [2^-45] of the
    percentage [100 * c / n], for every count [c] among [n] labels. *)
Lemma percentage_binary64 (c n : Z) :
  0 <= c <= n -> 0 < n < 2 ^ 53 ->
  exists v : Q,
    value (of_int c / of_int n * of_int 100) = Some v /\
    (Qabs (v - 100 * inject_Z c / inject_Z n) <= tolerance)%Q.
Proof.
  intros Hc Hn.
  destruct (Z.eq_dec c 0) as [->|Hc0].
  - rewrite none_correct_binary64 by exact Hn. exists 0%Q. split; [reflexivity|].
    assert (E : (0 - 100 * inject_Z 0 / inject_Z n == 0)%Q).
    { unfold Qdiv. change (inject_Z 0) with 0%Q. ring. }
    rewrite E. discriminate.
  - destruct (@div_rounding c n) as (m1 & g1 & Hq & Hg1 & Hd1 & H1); [lia|lia|].
    destruct (mul_rounding _ Hq Hg1 Hd1) as (mf & g2 & Hp & Hg2 & H2).
    exists (Zpos mf # Z.to_pos (2 ^ g2)).
    split; [exact (value_negative_exponent _ Hp Hg2)|].
    apply tolerance_from_Z; [apply Z.pow_pos_nonneg; lia|lia|].
    apply (@percentage_error c n (Zpos m1) (Zpos mf) (2 ^ g1) (2 ^ g2));
      try lia; try (apply Z.pow_pos_nonneg; lia); assumption.
Qed.

(** What [accuracy_fn] computes on tensors of equal, non-zero length:
    the two binary64 operations on the number of matching indices. *)
Lemma accuracy_fn_binary64_value (y_true y_pred : list Z) :
  length y_true = length y_pred -> y_pred <> [] ->
  accuracy_fn_binary64 y_true y_pred
  = Ok (of_int (matching_indices y_true y_pred) / of_int (len y_pred)
        * of_int 100)%float.
Proof.
  intros Hlen Hne. unfold accuracy_fn_binary64.
  rewrite (torch_eq_same_length _ _ Hlen). cbn [bind]. unfold truediv.
  pose proof (len_pos_of_nonempty Hne) as Hpos.
  destruct (Z.eqb_spec (len y_pred) 0) as [E|_]; [lia|]. cbn [bind].
  now rewrite (sum_item_matching _ _ Hlen).
Qed.

(** C1 (as amended).  On equal-length, non-empty label tensors
    [accuracy_fn] returns the binary64 value of
    [(correct / len(y_pred)) * 100], where [correct] is the number of
    indices at which the two tensors hold the same label and each of the
    two operations is rounded to the nearest float.  The value is within
    [2^-45] of the exact percentage [100 * correct / len(y_pred)]; it is
    exactly 100 when the prediction equals the truth elementwise and
    exactly 0 when the two differ at every index. *)
Theorem accuracy_fn_percentage (y_true y_pred : list Z)
    (Hlen : length y_true = length y_pred) (Hne : y_pred <> [])
    (Hsize : len y_pred < 2 ^ 53) :
  let correct := matching_indices y_true y_pred in
  let n := len y_pred in
  exists (x : float) (v : Q),
    accuracy_fn_binary64 y_true y_pred = Ok x /\
    x = (of_int correct / of_int n * of_int 100)%float /\
    value x = Some v /\
    (Qabs (v - 100 * inject_Z correct / inject_Z n) <= tolerance)%Q /\
    (y_pred = y_true -> x = 100%float /\ (v == 100)%Q) /\
    ((forall i, (i < length y_pred)%nat -> nth i y_true 0 <> nth i y_pred 0) ->
     x = 0%float /\ (v == 0)%Q).
Proof.
  intros correct n.
  pose proof (len_pos_of_nonempty Hne) as Hpos. fold n in Hpos, Hsize.
  pose proof (sum_item_bounds (zip_eq y_true y_pred)) as [Hlo Hhi].
  unfold len in Hhi. rewrite (zip_eq_length _ _ Hlen) in Hhi.
  rewrite (sum_item_matching _ _ Hlen) in Hlo, Hhi.
  fold (len y_pred) in Hhi. fold correct in Hlo, Hhi. fold n in Hhi.
  destruct (@percentage_binary64 correct n) as (v & Hv & Htol); [lia|lia|].
  exists (of_int correct / of_int n * of_int 100)%float, v.
  split; [now apply accuracy_fn_binary64_value|]. split; [reflexivity|].
  split; [exact Hv|]. split; [exact Htol|]. split.
  - intros E.
    assert (Ec : correct = n).
    { unfold correct, n. rewrite E.
      now rewrite <- (sum_item_matching y_true y_true eq_refl), sum_item_refl. }
    rewrite Ec in Hv |- *. rewrite all_correct_binary64 in Hv |- * by lia.
    split; [reflexivity|]. vm_compute in Hv. inversion Hv. reflexivity.
  - intros Hd.
    assert (Ec : correct = 0).
    { unfold correct.
      now rewrite <- (sum_item_matching _ _ Hlen), (sum_item_all_differ _ _ Hlen Hd). }
    rewrite Ec in Hv |- *. rewrite none_correct_binary64 in Hv |- * by lia.
    split; [reflexivity|]. vm_compute in Hv. inversion Hv. reflexivity.
Qed.

Lemma accuracy_fn_percentage_witness :
  length [1; 2; 3] = length [1; 5; 3] /\ [1; 5; 3] <> [] /\
  len [1; 5; 3] < 2 ^ 53 /\
  let correct := matching_indices [1; 2; 3] [1; 5; 3] in
  let n := len [1; 5; 3] in
  exists (x : float) (v : Q),
    accuracy_fn_binary64 [1; 2; 3] [1; 5; 3] = Ok x /\
    x = (of_int correct / of_int n * of_int 100)%float /\
    value x = Some v /\
    (Qabs (v - 100 * inject_Z correct / inject_Z n) <= tolerance)%Q /\
    ([1; 5; 3] = [1; 2; 3] -> x = 100%float /\ (v == 100)%Q) /\
    ((forall i, (i < length [1; 5; 3])%nat ->
                nth i [1; 2; 3] 0 <> nth i [1; 5; 3] 0) ->
     x = 0%float /\ (v == 0)%Q).
Proof.
  split; [reflexivity|]. split; [discriminate|]. split; [reflexivity|].
  apply (@accuracy_fn_percentage [1; 2; 3] [1; 5; 3]).
  - reflexivity.
  - discriminate.
  - reflexivity.
Defined.

(** C1, the claim as stated, fails.  With 7 matching labels out of 25
    the code divides first and multiplies second, and each operation
    rounds: [7 / 25] is the float nearest to 0.28, and its product with
    100 rounds to 28.000000000000004 (the float [0x1.c000000000001p+4],
    one unit in the last place above 28), not to the percentage
    [100 * 7 / 25 = 28]. *)
Lemma accuracy_fn_not_exact_percentage :
  let y_true := repeat 1 7 ++ repeat 2 18 in
  let y_pred := repeat 1 25 in
  length y_true = length y_pred /\ y_pred <> [] /\
  matching_indices y_true y_pred = 7 /\ len y_pred = 25 /\
  exists (x : float) (v : Q),
    accuracy_fn_binary64 y_true y_pred = Ok x /\
    x = 0x1.c000000000001p+4%float /\ value x = Some v /\
    (28 < v)%Q /\
    ~ (v == 100 * inject_Z (matching_indices y_true y_pred)
            / inject_Z (len y_pred))%Q.
Proof.
  cbv zeta. split; [reflexivity|]. split; [discriminate|].
  split; [reflexivity|]. split; [reflexivity|].
  exists 0x1.c000000000001p+4%float.
  eexists. split; [vm_compute; reflexivity|]. split; [reflexivity|].
  split; [vm_compute; reflexivity|]. split; [reflexivity|].
  vm_compute. discriminate.
Qed.

End Binary64Arithmetic.

(* ------------------------------------------------------------------ *)
(** ** Batching *)

Import Torch Data Notebook.

Section TotalLength.

Context {A : Type}.

Lemma total_length_concat (l : list (list A)) :
  total_length l = length (concat l).
Proof. induction l; simpl; [reflexivity|]. rewrite length_app. lia. Qed.

Lemma total_length_app (l1 l2 : list (list A)) :
  total_length (l1 ++ l2) = (total_length l1 + total_length l2)%nat.
Proof. induction l1; simpl; lia. Qed.

Lemma total_length_full (w : nat) (l : list (list A)) :
  Forall (fun b => length b = w) l -> total_length l = (w * length l)%nat.
Proof. induction 1; simpl; lia. Qed.

End TotalLength.

Section BatchSampler.

Context {A : Type}.
Variable bs : nat.
Hypothesis bs_pos : (0 < bs)%nat.

Lemma batch_sampler_from_concat (sampler batch : list A) :
  concat (batch_sampler_from bs false batch sampler) = batch ++ sampler.
Proof.
  revert batch; induction sampler as [|idx s IH]; intros batch; simpl.
  - destruct batch; simpl; [reflexivity|]. now rewrite app_nil_r.
  - destruct (Nat.eqb _ bs); simpl; rewrite IH; simpl;
      now rewrite <- app_assoc.
Qed.

Lemma batch_sampler_from_sizes (sampler batch : list A) :
  (length batch < bs)%nat ->
  Forall (full_or_short bs) (batch_sampler_from bs false batch sampler).
Proof.
  revert batch; induction sampler as [|idx s IH]; intros batch Hb; simpl.
  - destruct batch; simpl; constructor; [|constructor].
    unfold full_or_short; simpl in *; lia.
  - destruct (Nat.eqb_spec (length (batch ++ [idx])) bs) as [E|NE].
    + constructor; [unfold full_or_short; lia|]. apply IH. simpl; lia.
    + apply IH. rewrite length_app in *. simpl in *. lia.
Qed.

Lemma batch_sampler_from_full (sampler batch : list A) :
  (length batch < bs)%nat ->
  Forall (fun b => length b = bs)
         (removelast (batch_sampler_from bs false batch sampler)).
Proof.
  revert batch; induction sampler as [|idx s IH]; intros batch Hb; simpl.
  - destruct batch; simpl; constructor.
  - destruct (Nat.eqb_spec (length (batch ++ [idx])) bs) as [E|NE].
    + specialize (IH [] bs_pos).
      destruct (batch_sampler_from bs false [] s) eqn:R.
      * simpl. constructor.
      * change (removelast ((batch ++ [idx]) :: l :: l0))
          with ((batch ++ [idx]) :: removelast (l :: l0)).
        constructor; assumption.
    + apply IH. rewrite length_app in *. simpl in *. lia.
Qed.

Example batch_sampler_five_by_two :
  batch_sampler 2 false [1; 2; 3; 4; 5]%Z = [[1; 2]; [3; 4]; [5]]%Z.
Proof. reflexivity. Qed.

(** The batches of a sampler of [n] indices: their number and the size
    of the last one. *)
Lemma batch_sampler_shape (sampler : list A) :
  let out := batch_sampler bs false sampler in
  let n := length sampler in
  concat out = sampler /\
  Forall (full_or_short bs) out /\
  Forall (fun b => length b = bs) (removelast out) /\
  length out = ((n + bs - 1) / bs)%nat /\
  (n <> 0%nat ->
   length (last out []) = if Nat.eqb (n mod bs) 0 then bs else (n mod bs)%nat).
Proof.
  intros out n. unfold batch_sampler in out.
  pose proof (batch_sampler_from_concat sampler []) as Hc.
  pose proof (@batch_sampler_from_sizes sampler [] bs_pos) as Hs.
  pose proof (@batch_sampler_from_full sampler [] bs_pos) as Hf.
  fold out in Hc, Hs, Hf. simpl in Hc.
  split; [exact Hc|]. split; [exact Hs|]. split; [exact Hf|].
  assert (Hn : total_length out = n).
  { rewrite total_length_concat, Hc. reflexivity. }
  destruct out as [|b0 l] eqn:Eout.
  - simpl in Hn. subst n. rewrite <- Hn. simpl.
    split; [|congruence].
    symmetry. apply Nat.div_small. lia.
  - assert (Hne : b0 :: l <> []) by discriminate.
    pose proof (app_removelast_last [] Hne) as Hsplit.
    set (pre := removelast (b0 :: l)) in *.
    set (lst := last (b0 :: l) []) in *.
    assert (Hlast : full_or_short bs lst).
    { rewrite Forall_forall in Hs. apply Hs. rewrite Hsplit.
      apply in_or_app. right. now left. }
    unfold full_or_short in Hlast.
    assert (Hnum : n = (bs * length pre + length lst)%nat).
    { rewrite <- Hn, Hsplit, total_length_app, (total_length_full Hf).
      simpl. lia. }
    assert (Hk : length (b0 :: l) = S (length pre)).
    { rewrite Hsplit at 1. rewrite length_app. simpl. lia. }
    split.
    + rewrite Hk.
      apply (Nat.div_unique _ _ _ (length lst - 1)); lia.
    + intros _.
      destruct (Nat.eq_dec (length lst) bs) as [E|NE'].
      * assert (n mod bs = 0)%nat as ->.
        { symmetry. apply (Nat.mod_unique _ _ (S (length pre))); lia. }
        simpl. exact E.
      * assert (n mod bs = length lst)%nat as ->.
        { symmetry. apply (Nat.mod_unique _ _ (length pre)); lia. }
        destruct (Nat.eqb_spec (length lst) 0); [lia|reflexivity].
Qed.

End BatchSampler.

(* ------------------------------------------------------------------ *)
(** ** Indexing and fetching *)

Section DatasetFacts.

Lemma range_length (n : nat) : length (range n) = n.
Proof. unfold range. now rewrite length_map, length_seq. Qed.

Lemma In_range (n : nat) (i : Z) : In i (range n) <-> (0 <= i < Z.of_nat n)%Z.
Proof.
  unfold range. rewrite in_map_iff. split.
  - intros (k & <- & Hk). apply in_seq in Hk. lia.
  - intros H. exists (Z.to_nat i). split; [lia|]. apply in_seq. lia.
Qed.

Lemma getitem_in_range {A} (l : list A) (i : Z) :
  (0 <= i < len l)%Z ->
  exists x, getitem l i = Ok x /\ nth_error l (Z.to_nat i) = Some x.
Proof.
  intros H. unfold getitem.
  destruct (Z.ltb_spec i 0) as [Hneg|_]; [lia|].
  destruct (Z.leb_spec 0 i) as [_|Hc]; [|lia].
  destruct (Z.ltb_spec i (len l)) as [_|Hc]; [|lia]. simpl.
  destruct (nth_error l (Z.to_nat i)) as [x|] eqn:E.
  - exists x. split; reflexivity.
  - apply nth_error_None in E. unfold len in H. lia.
Qed.

Lemma getitem_past_end {A} (l : list A) (i : Z) :
  (len l <= i)%Z -> getitem l i = Raise IndexError.
Proof.
  intros H. unfold getitem.
  assert (0 <= len l)%Z by (unfold len; lia).
  destruct (Z.ltb_spec i 0) as [Hneg|_]; [lia|].
  destruct (Z.ltb_spec i (len l)) as [Hc|_]; [lia|].
  rewrite andb_false_r. reflexivity.
Qed.

Lemma concat_length_uniform {A} (w : nat) (l : list (list A)) :
  Forall (fun r => length r = w) l -> length (concat l) = (w * length l)%nat.
Proof.
  intros H. rewrite <- total_length_concat. now apply total_length_full.
Qed.

Lemma ToTensor_28x28 (img : raw_image) :
  image_28x28 img ->
  shape (ToTensor img) = [1; 28; 28]%nat /\ wf (ToTensor img).
Proof.
  intros [Hh Hw]. unfold ToTensor, wf. cbn [shape data].
  assert (Hhd : length (hd [] img) = 28%nat).
  { destruct img as [|r img]; [discriminate|]. simpl. now inversion Hw. }
  rewrite Hh, Hhd. split; [reflexivity|].
  rewrite length_map, (concat_length_uniform Hw), Hh. reflexivity.
Qed.

Lemma mapM_ok {A B} (f : A -> result B) (P : B -> Prop) (l : list A) :
  Forall (fun x => exists y, f x = Ok y /\ P y) l ->
  exists ys, mapM f l = Ok ys /\ length ys = length l /\ Forall P ys.
Proof.
  induction 1 as [|x l (y & Hy & Py) _ (ys & Hys & Hlen & HP)]; simpl.
  - exists []. repeat split; constructor.
  - rewrite Hy; simpl. rewrite Hys; simpl. exists (y :: ys).
    repeat split; [simpl; lia|now constructor].
Qed.

Lemma mapM_length {A B} (f : A -> result B) (l : list A) (ys : list B) :
  mapM f l = Ok ys -> length ys = length l.
Proof.
  revert ys; induction l as [|x l IH]; simpl; intros ys H.
  - now inversion H.
  - destruct (f x); [|discriminate]. simpl in H.
    destruct (mapM f l); [|discriminate]. simpl in H. inversion H; subst.
    simpl. f_equal. now apply IH.
Qed.

Lemma shape_eqb_refl (s : list nat) : shape_eqb s s = true.
Proof. unfold shape_eqb. destruct (list_eq_dec Nat.eq_dec s s); congruence. Qed.

Lemma stack_same_shape (s : list nat) (t : tensor) (ts : list tensor) :
  Forall (fun u => shape u = s) (t :: ts) ->
  stack (t :: ts)
  = Ok (mk_tensor (length (t :: ts) :: s) (concat (map data (t :: ts)))).
Proof.
  intros H. inversion H as [|? ? Ht Hts]; subst. unfold stack.
  assert (forallb (fun u => shape_eqb (shape u) (shape t)) ts = true) as ->.
  { apply forallb_forall. intros u Hu. rewrite Forall_forall in Hts.
    rewrite (Hts u Hu). apply shape_eqb_refl. }
  reflexivity.
Qed.

Lemma FashionMNIST_getitem_ok (ds : FashionMNIST) (i : Z) :
  notebook_dataset ds -> (0 <= i < FashionMNIST_len ds)%Z ->
  exists s, FashionMNIST_getitem ds i = Ok s /\ sample_ok s.
Proof.
  intros [Ht (Hlen & Himg & Htg)] Hi. unfold FashionMNIST_getitem.
  unfold FashionMNIST_len in Hi.
  destruct (getitem_in_range (images ds) Hi) as (img & -> & Hn1).
  assert (Hi' : (0 <= i < len (targets ds))%Z) by (unfold len in *; lia).
  destruct (getitem_in_range (targets ds) Hi') as (t & -> & Hn2).
  simpl. eexists; split; [reflexivity|].
  apply nth_error_In in Hn1, Hn2.
  rewrite Forall_forall in Himg, Htg.
  destruct (ToTensor_28x28 (Himg _ Hn1)) as [Hs Hw].
  unfold sample_ok. rewrite Ht. cbn [fst snd]. auto.
Qed.

Lemma fetch_ok (dl : DataLoader) (ib : list Z) :
  notebook_dataset (dataset dl) -> ib <> [] ->
  Forall (fun i => (0 <= i < FashionMNIST_len (dataset dl))%Z) ib ->
  exists X y, fetch dl ib = Ok (X, y) /\
    shape X = [length ib; 1; 28; 28]%nat /\ wf X /\
    length y = length ib /\ Forall (fun t => (0 <= t <= 9)%Z) y.
Proof.
  intros Hds Hne Hin. unfold fetch.
  destruct (@mapM_ok _ _ (FashionMNIST_getitem (dataset dl)) sample_ok ib)
    as (samples & -> & Hlen & Hok).
  { eapply Forall_impl; [|exact Hin]. intros i Hi.
    now apply FashionMNIST_getitem_ok. }
  simpl. unfold default_collate.
  destruct samples as [|s0 samples]; [destruct ib; [congruence|discriminate]|].
  assert (Hshape : Forall (fun u => shape u = [1; 28; 28]%nat)
                          (map fst (s0 :: samples))).
  { apply Forall_map. eapply Forall_impl; [|exact Hok]. intros s Hs. apply Hs. }
  change (map fst (s0 :: samples)) with (fst s0 :: map fst samples) in *.
  rewrite (stack_same_shape Hshape). simpl bind.
  do 2 eexists. split; [reflexivity|]. cbn [shape].
  split; [|split; [|split]].
  - f_equal. simpl. rewrite length_map. simpl in Hlen. lia.
  - unfold wf. cbn [shape data].
    change (data (fst s0) ++ concat (map data (map fst samples)))
      with (concat (map data (map fst (s0 :: samples)))).
    rewrite (@concat_length_uniform _ 784).
    + rewrite !length_map. cbn [numel fold_right]. simpl length. lia.
    + apply Forall_map. apply Forall_map. eapply Forall_impl; [|exact Hok].
      intros s (Hs & Hw & _). unfold wf in Hw. rewrite Hw, Hs. reflexivity.
  - simpl. rewrite length_map. exact Hlen.
  - change (Forall (fun t => (0 <= t <= 9)%Z) (map snd (s0 :: samples))).
    apply Forall_map. eapply Forall_impl; [|exact Hok]. intros s Hs. apply Hs.
Qed.

End DatasetFacts.

(* ------------------------------------------------------------------ *)
(** ** The batches of the two data loaders *)

Section LoaderFacts.

Lemma last_map {A B} (f : A -> B) (l : list A) (d : A) :
  last (map f l) (f d) = f (last l d).
Proof.
  induction l as [|x l IH]; [reflexivity|].
  destruct l; [reflexivity|]. exact IH.
Qed.

Lemma removelast_map {A B} (f : A -> B) (l : list A) :
  removelast (map f l) = map f (removelast l).
Proof.
  induction l as [|x l IH]; [reflexivity|].
  destruct l; [reflexivity|]. simpl in *. now rewrite IH.
Qed.

Lemma mapM_Forall2 {A B} (f : A -> result B) (l : list A) (ys : list B) :
  mapM f l = Ok ys -> Forall2 (fun x y => f x = Ok y) l ys.
Proof.
  revert ys; induction l as [|x l IH]; simpl; intros ys H.
  - inversion H. constructor.
  - destruct (f x) eqn:E; [|discriminate]. simpl in H.
    destruct (mapM f l); [|discriminate]. simpl in H. inversion H; subst.
    constructor; [exact E|]. now apply IH.
Qed.

(** The sizes of the index batches of a sampler of [n] indices, with
    the notebook's batch size. *)
Lemma batch_sizes_shape {A} (smp : list A) :
  let sizes := map (@length A) (batch_sampler BATCH_SIZE false smp) in
  let n := length smp in
  Forall (fun k => (1 <= k <= BATCH_SIZE)%nat) sizes /\
  Forall (fun k => k = BATCH_SIZE) (removelast sizes) /\
  length sizes = ((n + BATCH_SIZE - 1) / BATCH_SIZE)%nat /\
  (n <> 0%nat ->
   last sizes 0%nat
   = if Nat.eqb (n mod BATCH_SIZE) 0 then BATCH_SIZE else (n mod BATCH_SIZE)%nat).
Proof.
  intros sizes n. subst sizes.
  assert (Hpos : (0 < BATCH_SIZE)%nat) by (unfold BATCH_SIZE; lia).
  destruct (batch_sampler_shape Hpos smp) as (_ & Hs & Hf & Hl & Hlast).
  split; [|split; [|split]].
  - apply Forall_map. exact Hs.
  - rewrite removelast_map. apply Forall_map. exact Hf.
  - rewrite length_map. exact Hl.
  - intros Hn. change 0%nat with (@length A []).
    rewrite last_map. now apply Hlast.
Qed.

Variable data : FashionMNIST.
Hypothesis data_ok : notebook_dataset data.

Let n := length (images data).

Lemma sampler_in_range (dl : DataLoader) (perm : list Z) :
  dataset dl = data ->
  (shuffle dl = true -> Permutation perm (range n)) ->
  length (sampler dl perm) = n /\
  Forall (fun i => (0 <= i < FashionMNIST_len data)%Z) (sampler dl perm).
Proof.
  intros Hd Hp. unfold sampler. rewrite Hd. fold n.
  unfold FashionMNIST_len, len. fold n.
  destruct (shuffle dl).
  - specialize (Hp eq_refl). split.
    + rewrite (Permutation_length Hp). apply range_length.
    + apply Forall_forall. intros i Hi. apply In_range.
      eapply Permutation_in; eassumption.
  - split; [apply range_length|].
    apply Forall_forall. intros i Hi. now apply In_range.
Qed.

(** Every epoch of a loader over a notebook dataset yields its batches
    without raising, and a yielded batch has as many samples as its
    index batch. *)
Lemma batches_ok (dl : DataLoader) (perm : list Z) :
  dataset dl = data -> batch_size dl = BATCH_SIZE ->
  (shuffle dl = true -> Permutation perm (range n)) ->
  exists bl, batches dl perm = Ok bl /\
    map batch_len bl = map (@length Z) (index_batches dl perm) /\
    Forall (fun b => shape (fst b) = [batch_len b; 1; 28; 28]%nat /\ wf (fst b) /\
                     Forall (fun t => (0 <= t <= 9)%Z) (snd b)) bl.
Proof.
  intros Hd Hb Hp.
  destruct (@sampler_in_range dl perm Hd Hp) as [Hlen Hrange].
  assert (Hpos : (0 < BATCH_SIZE)%nat) by (unfold BATCH_SIZE; lia).
  destruct (batch_sampler_shape Hpos (sampler dl perm)) as (Hc & Hs & _).
  unfold batches, index_batches. rewrite Hb.
  set (ibs := batch_sampler BATCH_SIZE false (sampler dl perm)) in *.
  assert (Hall : Forall (fun ib => ib <> [] /\
             Forall (fun i => (0 <= i < FashionMNIST_len data)%Z) ib) ibs).
  { apply Forall_forall. intros ib Hib. split.
    - rewrite Forall_forall in Hs. specialize (Hs ib Hib).
      unfold full_or_short in Hs. destruct ib; simpl in Hs; [lia|discriminate].
    - apply Forall_forall. intros i Hi. rewrite Forall_forall in Hrange.
      apply Hrange. rewrite <- Hc. apply in_concat. eauto. }
  clearbody ibs. clear Hc Hs.
  induction Hall as [|ib ibs [Hne Hin] _ (bl & Hbl & Hsz & Hsh)]; simpl.
  - exists []. repeat split; constructor.
  - rewrite <- Hd in Hin, data_ok.
    destruct (fetch_ok dl data_ok Hne Hin) as (X & y & -> & HX & HwX & Hy & Hy9).
    simpl. rewrite Hbl. simpl. exists ((X, y) :: bl).
    split; [reflexivity|]. split.
    + simpl. unfold batch_len at 1. simpl. now rewrite Hy, Hsz.
    + constructor; [|exact Hsh]. unfold batch_len. simpl. rewrite Hy. auto.
Qed.

End LoaderFacts.

Import Examples.

Section ExampleData.

Lemma blank_image_28x28 : image_28x28 blank_image.
Proof.
  split; [reflexivity|]. apply Forall_forall. intros r Hr.
  apply repeat_spec in Hr. subst r. reflexivity.
Qed.

Lemma blank_dataset_ok (tgts : list Z) :
  Forall (fun t => (0 <= t <= 9)%Z) tgts -> notebook_dataset (blank_dataset tgts).
Proof.
  intros H. split; [reflexivity|]. split; [|split]; simpl.
  - apply repeat_length.
  - apply Forall_forall. intros img Himg. apply repeat_spec in Himg. subst img.
    apply blank_image_28x28.
  - exact H.
Qed.

Lemma test_split_10000_ok : notebook_dataset test_split_10000.
Proof.
  apply blank_dataset_ok. apply Forall_forall. intros t Ht.
  apply repeat_spec in Ht. subst t. lia.
Qed.

Lemma test_split_10000_len : FashionMNIST_len test_split_10000 = 10000%Z.
Proof.
  unfold FashionMNIST_len, len, test_split_10000, blank_dataset. cbn [images].
  rewrite !repeat_length. lia.
Qed.

Lemma grey_samples_ok : notebook_dataset grey_samples.
Proof.
  split; [reflexivity|]. split; [reflexivity|]. split.
  - apply Forall_map, Forall_forall. intros v _. split; [apply repeat_length|].
    apply Forall_forall. intros r Hr. apply repeat_spec in Hr. subst r.
    apply repeat_length.
  - repeat constructor; lia.
Qed.

End ExampleData.

Lemma Forall_removelast_last {A} (P : A -> Prop) (l : list A) (d : A) :
  Forall P (removelast l) -> P (last l d) -> Forall P l.
Proof.
  intros Hr Hl. destruct l as [|x l]; [constructor|].
  rewrite (@app_removelast_last _ (x :: l) d) by discriminate.
  apply Forall_app. split; [exact Hr|]. constructor; [exact Hl|constructor].
Qed.

Lemma DataLoader_len_nat (dl : DataLoader) :
  batch_size dl = BATCH_SIZE ->
  DataLoader_len dl
  = Z.of_nat ((length (images (dataset dl)) + BATCH_SIZE - 1) / BATCH_SIZE).
Proof.
  intros Hb. unfold DataLoader_len, FashionMNIST_len, len. rewrite Hb.
  rewrite Nat2Z.inj_div. f_equal. unfold BATCH_SIZE. lia.
Qed.

(** C5 (as amended).  Every batch yielded by the train and the test data
    loader holds at least one and at most [BATCH_SIZE = 32] samples, and
    exactly 32 except possibly the last batch of the epoch, which holds
    the remaining [len(dataset) mod 32] samples when that is not zero.  For
    the 60,000 training samples all 1875 batches hold 32 samples; for the
    10,000 test samples the last of the 313 batches holds 16. *)
Theorem dataloader_batch_sizes (data : FashionMNIST) (dl : DataLoader) (perm : list Z)
    (Hdata : notebook_dataset data)
    (Hdl : (dl = train_dataloader data /\
            Permutation perm (range (length (images data)))) \/
           dl = test_dataloader data) :
  exists bl, batches dl perm = Ok bl /\
    let sizes := map batch_len bl in
    let n := length (images data) in
    Forall (fun k => (1 <= k <= BATCH_SIZE)%nat) sizes /\
    Forall (fun k => k = BATCH_SIZE) (removelast sizes) /\
    len bl = DataLoader_len dl /\
    (n <> 0%nat ->
     last sizes 0%nat
     = if Nat.eqb (n mod BATCH_SIZE) 0 then BATCH_SIZE else (n mod BATCH_SIZE)%nat) /\
    (FashionMNIST_len data = 60000%Z ->
     Forall (fun k => k = BATCH_SIZE) sizes /\ len bl = 1875%Z) /\
    (FashionMNIST_len data = 10000%Z ->
     last sizes 0%nat = 16%nat /\ len bl = 313%Z).
Proof.
  assert (Hd : dataset dl = data) by (destruct Hdl as [[-> _]| ->]; reflexivity).
  assert (Hb : batch_size dl = BATCH_SIZE) by (destruct Hdl as [[-> _]| ->]; reflexivity).
  assert (Hp : shuffle dl = true -> Permutation perm (range (length (images data)))).
  { destruct Hdl as [[_ Hp]| ->]; [auto|discriminate]. }
  destruct (batches_ok Hdata dl Hd Hb Hp) as (bl & Hbl & Hsz & _).
  destruct (@sampler_in_range data dl perm Hd Hp) as [Hlen _].
  exists bl. split; [exact Hbl|]. intros sizes n. subst sizes. rewrite Hsz.
  unfold index_batches. rewrite Hb.
  destruct (batch_sizes_shape (sampler dl perm)) as (H1 & H2 & H3 & H4).
  rewrite Hlen in H3, H4. fold n in H3, H4.
  assert (Hlenbl : len bl = DataLoader_len dl).
  { rewrite (DataLoader_len_nat dl Hb), Hd. fold n. rewrite <- H3.
    unfold len. rewrite length_map. f_equal.
    rewrite <- (length_map batch_len), Hsz. unfold index_batches. rewrite Hb.
    now rewrite length_map. }
  split; [exact H1|]. split; [exact H2|]. split; [exact Hlenbl|].
  split; [exact H4|]. split.
  - intros H60. assert (Hn : n = Z.to_nat 60000).
    { unfold FashionMNIST_len, len in H60. fold n in H60. lia. }
    split.
    + apply (@Forall_removelast_last _ _ _ 0%nat); [exact H2|].
      rewrite H4 by lia. rewrite Hn. reflexivity.
    + rewrite Hlenbl, (DataLoader_len_nat dl Hb), Hd. fold n. rewrite Hn.
      reflexivity.
  - intros H10. assert (Hn : n = Z.to_nat 10000).
    { unfold FashionMNIST_len, len in H10. fold n in H10. lia. }
    split.
    + rewrite H4 by lia. rewrite Hn. reflexivity.
    + rewrite Hlenbl, (DataLoader_len_nat dl Hb), Hd. fold n. rewrite Hn.
      reflexivity.
Qed.

Lemma dataloader_batch_sizes_witness :
  notebook_dataset test_split_10000 /\
  exists bl, batches (test_dataloader test_split_10000) [] = Ok bl /\
    let sizes := map batch_len bl in
    let n := length (images test_split_10000) in
    Forall (fun k => (1 <= k <= BATCH_SIZE)%nat) sizes /\
    Forall (fun k => k = BATCH_SIZE) (removelast sizes) /\
    len bl = DataLoader_len (test_dataloader test_split_10000) /\
    (n <> 0%nat ->
     last sizes 0%nat
     = if Nat.eqb (n mod BATCH_SIZE) 0 then BATCH_SIZE else (n mod BATCH_SIZE)%nat) /\
    (FashionMNIST_len test_split_10000 = 60000%Z ->
     Forall (fun k => k = BATCH_SIZE) sizes /\ len bl = 1875%Z) /\
    (FashionMNIST_len test_split_10000 = 10000%Z ->
     last sizes 0%nat = 16%nat /\ len bl = 313%Z).
Proof.
  split; [exact test_split_10000_ok|].
  apply (@dataloader_batch_sizes test_split_10000
           (test_dataloader test_split_10000) []).
  - exact test_split_10000_ok.
  - right. reflexivity.
Defined.

(** Over any test split of 10,000 samples the last of the 313 batches
    holds 16 samples. *)
Lemma test_dataloader_10000 (data : FashionMNIST) :
  notebook_dataset data -> FashionMNIST_len data = 10000%Z ->
  exists bl, batches (test_dataloader data) [] = Ok bl /\
    len bl = 313%Z /\
    last (map batch_len bl) 0%nat = 16%nat /\
    ~ Forall (fun b => batch_len b = BATCH_SIZE) bl.
Proof.
  intros Hok H10.
  assert (Hlen : length (images data) = Z.to_nat 10000).
  { unfold FashionMNIST_len, len in H10. lia. }
  destruct (@batches_ok data Hok (test_dataloader data) [])
    as (bl & Hbl & Hsz & _); [reflexivity|reflexivity|discriminate|].
  exists bl. split; [exact Hbl|].
  unfold index_batches, sampler in Hsz. cbn [test_dataloader batch_size shuffle dataset] in Hsz.
  destruct (batch_sizes_shape (range (length (images data)))) as (_ & _ & H3 & H4).
  rewrite range_length, <- Hsz, Hlen in H3, H4. clear Hsz.
  assert (Hlast : last (map batch_len bl) 0%nat = 16%nat).
  { rewrite H4 by lia. reflexivity. }
  split; [|split].
  - unfold len. rewrite length_map in H3. rewrite H3. reflexivity.
  - exact Hlast.
  - intros Hall.
    assert (Hbl_ne : bl <> []).
    { intros ->. discriminate Hlast. }
    change 0%nat with (batch_len (mk_tensor [] [], [])) in Hlast.
    rewrite last_map in Hlast.
    rewrite Forall_forall in Hall.
    rewrite (Hall (last bl (mk_tensor [] [], []))) in Hlast.
    + unfold BATCH_SIZE in Hlast. discriminate.
    + rewrite (@app_removelast_last _ bl (mk_tensor [] [], [])) at 2 by exact Hbl_ne.
      apply in_or_app. right. now left.
Qed.

(** C5, the claim as stated, fails: over a test split of 10,000 samples
    the test data loader yields 313 batches and the last one holds 16
    samples, not [BATCH_SIZE = 32]. *)
Lemma test_dataloader_last_batch_short :
  exists bl, batches (test_dataloader test_split_10000) [] = Ok bl /\
    len bl = 313%Z /\
    last (map batch_len bl) 0%nat = 16%nat /\
    ~ Forall (fun b => batch_len b = BATCH_SIZE) bl.
Proof.
  exact (test_dataloader_10000 test_split_10000_ok test_split_10000_len).
Qed.

(* ------------------------------------------------------------------ *)
(** ** Linear layers *)

Section LinearAlgebra.

Local Open Scope R_scope.

Lemma dot_nil_r (a : list R) : dot a [] = 0.
Proof. destruct a; reflexivity. Qed.

Lemma dot_zeros (n : nat) (x : list R) : dot (repeat 0 n) x = 0.
Proof.
  revert x; induction n as [|n IH]; intros [|y x]; simpl; try reflexivity.
  rewrite IH. lra.
Qed.

Lemma dot_scale (c : R) (u x : list R) : dot (scale c u) x = c * dot u x.
Proof.
  revert x; induction u as [|a u IH]; intros [|y x]; simpl; try lra.
  rewrite IH. lra.
Qed.

Lemma dot_vadd_l (u v x : list R) :
  length u = length v -> dot (vadd u v) x = dot u x + dot v x.
Proof.
  revert v x; induction u as [|a u IH]; intros [|b v] [|y x] H;
    simpl in *; try discriminate; try lra.
  rewrite IH by lia. lra.
Qed.

Lemma dot_vadd_r (r u v : list R) :
  length u = length v -> dot r (vadd u v) = dot r u + dot r v.
Proof.
  revert u v; induction r as [|a r IH]; intros [|b u] [|c v] H;
    simpl in *; try discriminate; try lra.
  rewrite IH by lia. lra.
Qed.

Lemma vadd_length (u v : list R) :
  length u = length v -> length (vadd u v) = length u.
Proof.
  revert v; induction u as [|a u IH]; intros [|b v] H; simpl in *;
    try discriminate; auto.
Qed.

Lemma lincomb_length (n : nat) (c : list R) (W : list (list R)) :
  Forall (fun r => length r = n) W -> length (lincomb n c W) = n.
Proof.
  intros HW. revert c. induction HW as [|r W Hr HW IH]; intros [|cj c]; simpl;
    try apply repeat_length.
  rewrite vadd_length; unfold scale; rewrite length_map; [exact Hr|].
  now rewrite IH.
Qed.

Lemma dot_lincomb (n : nat) (c : list R) (W : list (list R)) (x : list R) :
  Forall (fun r => length r = n) W ->
  dot (lincomb n c W) x = dot c (map (fun r => dot r x) W).
Proof.
  intros HW. revert c. induction HW as [|r W Hr HW IH]; intros [|cj c]; simpl;
    try apply dot_zeros.
  rewrite dot_vadd_l, dot_scale, IH; [reflexivity|].
  unfold scale. rewrite length_map, lincomb_length; assumption.
Qed.

Lemma affine_length (W : list (list R)) (b x : list R) :
  length W = length b -> length (affine W b x) = length b.
Proof.
  revert b; induction W as [|r W IH]; intros [|bi b] H; simpl in *;
    try discriminate; auto.
Qed.

Lemma affine_as_vadd (W : list (list R)) (b x : list R) :
  length W = length b ->
  affine W b x = vadd (map (fun r => dot r x) W) b.
Proof.
  revert b; induction W as [|r W IH]; intros [|bi b] H; simpl in *;
    try discriminate; [reflexivity|]. now rewrite IH by lia.
Qed.

(** Two affine maps in sequence are one affine map. *)
Lemma affine_compose (n : nat) (W1 W2 : list (list R)) (b1 b2 x : list R) :
  Forall (fun r => length r = n) W1 -> length W1 = length b1 ->
  affine W2 b2 (affine W1 b1 x)
  = affine (map (fun r2 => lincomb n r2 W1) W2) (affine W2 b2 b1) x.
Proof.
  intros HW Hb. revert b2. induction W2 as [|r2 W2 IH]; intros [|b2i b2];
    simpl; try reflexivity.
  rewrite IH. f_equal.
  rewrite (@dot_lincomb n _ W1 _ HW), (@affine_as_vadd W1 b1 x Hb).
  rewrite dot_vadd_r by (now rewrite length_map). lra.
Qed.

Lemma nn_Linear_rows (inf outf : nat) (w : nat -> nat -> R) (b : nat -> R) :
  Forall (fun r => length r = inf) (weight (nn_Linear inf outf w b)) /\
  length (weight (nn_Linear inf outf w b)) = outf /\
  length (bias (nn_Linear inf outf w b)) = outf.
Proof.
  unfold nn_Linear; simpl. repeat split.
  - apply Forall_map. apply Forall_forall. intros i _.
    now rewrite length_map, length_seq.
  - now rewrite length_map, length_seq.
  - now rewrite length_map, length_seq.
Qed.

Lemma rows_length (n k : nat) (l : list R) : length (rows n k l) = k.
Proof. revert l; induction k; intros l; simpl; auto. Qed.

Lemma rows_concat (n : nat) (l : list (list R)) :
  Forall (fun r => length r = n) l -> rows n (length l) (concat l) = l.
Proof.
  induction 1 as [|r l Hr _ IH]; simpl; [reflexivity|].
  rewrite firstn_app, skipn_app, Hr, Nat.sub_diag. simpl.
  rewrite (firstn_all2 r) by lia. rewrite (skipn_all2 r) by lia.
  rewrite app_nil_r. simpl. now rewrite IH.
Qed.

End LinearAlgebra.

(* ------------------------------------------------------------------ *)
(** ** The forward pass *)

Section ForwardPass.

Lemma bind_ret_r {A} (m : result A) : (x <- m ;; Ok x) = m.
Proof. destruct m; reflexivity. Qed.

Lemma nn_Linear_wf (inf outf : nat) (w : nat -> nat -> R) (b : nat -> R) :
  Linear_wf (nn_Linear inf outf w b).
Proof. apply nn_Linear_rows. Qed.

Lemma Linear_forward_2d (L : Linear) (t : tensor) (B : nat) :
  shape t = [B; in_features L] ->
  Linear_forward L t
  = Ok (mk_tensor [B; out_features L]
          (concat (map (affine (weight L) (bias L))
                       (rows (in_features L) B (data t))))).
Proof.
  intros H. unfold Linear_forward. rewrite H. cbn [rev app].
  rewrite Nat.eqb_refl. cbn [numel fold_right]. rewrite Nat.mul_1_r. reflexivity.
Qed.

(** Two linear layers in sequence compute what the single composed
    layer computes, on every tensor, errors included. *)
Lemma Linear_forward_compose (L1 L2 : Linear) (t : tensor) :
  Linear_wf L1 -> Linear_wf L2 -> out_features L1 = in_features L2 ->
  (h <- Linear_forward L1 t ;; Linear_forward L2 h)
  = Linear_forward (compose_Linear L2 L1) t.
Proof.
  intros (Hr1 & Hw1 & Hb1) (Hr2 & Hw2 & Hb2) Hio.
  unfold Linear_forward. cbn [in_features out_features weight bias compose_Linear].
  destruct (rev (shape t)) as [|last lead]; [reflexivity|].
  destruct (Nat.eqb last (in_features L1)); [|reflexivity].
  cbn [bind shape data].
  rewrite rev_app_distr, rev_involutive. cbn [rev app].
  rewrite Hio, Nat.eqb_refl. do 2 f_equal.
  set (rws := rows (in_features L1) (numel lead) (data t)).
  assert (Hlen : length (map (affine (weight L1) (bias L1)) rws) = numel lead).
  { rewrite length_map. apply rows_length. }
  rewrite <- Hlen at 1. rewrite rows_concat.
  - rewrite map_map. f_equal. apply map_ext. intros x.
    apply affine_compose; [exact Hr1|lia].
  - apply Forall_map, Forall_forall. intros x _.
    rewrite affine_length; lia.
Qed.

Lemma affine_rows_wf (W : list (list R)) (b : list R) (rws : list (list R)) :
  length W = length b ->
  length (concat (map (affine W b) rws)) = (length b * length rws)%nat.
Proof.
  intros H. rewrite (@concat_length_uniform _ (length b)).
  - now rewrite length_map.
  - apply Forall_map, Forall_forall. intros x _. now apply affine_length.
Qed.

(** On a batch of [B] single-channel 28x28 images the model returns
    [B] rows of 10 logits. *)
Lemma forward_batch (p : parameters) (X : tensor) (B : nat) :
  shape X = [B; 1; 28; 28]%nat ->
  exists logits, forward (model_0 p) X = Ok logits /\
    shape logits = [B; 10]%nat /\ wf logits.
Proof.
  intros HX. unfold forward, model_0, FashionMNISTBaselineModel_init.
  cbn [layer_stack Sequential layer_forward].
  unfold Flatten. rewrite HX. cbn [bind].
  rewrite (@Linear_forward_2d _ _ B) by reflexivity. cbn [bind].
  rewrite (@Linear_forward_2d _ _ B) by reflexivity. cbn [bind].
  eexists. split; [reflexivity|]. split; [reflexivity|].
  unfold wf. cbn [shape data].
  destruct (nn_Linear_rows 10 (length class_names) (w2 p) (b2 p)) as (_ & Hw & Hb).
  rewrite affine_rows_wf by (rewrite Hw, Hb; reflexivity).
  rewrite rows_length, Hb. cbn. lia.
Qed.

(** The entries of the output of the layers, written out. *)

Lemma sum_zeros {A} (f : A -> R) (l : list A) :
  (forall a, f a = 0%R) -> Torch.sum (map f l) = 0%R.
Proof.
  intros Hf. induction l as [|a l IH]; cbn [map Torch.sum]; [reflexivity|].
  rewrite Hf, IH. lra.
Qed.

Lemma dot_seq (w : nat -> R) (n a : nat) (x : list R) :
  dot (map w (seq a n)) x
  = Torch.sum (map (fun i => (w (a + i)%nat * nth i x 0)%R) (seq 0 n)).
Proof.
  revert a x. induction n as [|n IH]; intros a x; [reflexivity|].
  cbn [seq map]. rewrite <- (seq_shift n 0), map_map.
  destruct x as [|y x].
  - cbn [dot Torch.sum nth]. rewrite sum_zeros; [lra|].
    intros i. cbn [nth]. lra.
  - cbn [dot Torch.sum nth]. rewrite Nat.add_0_r, IH. f_equal.
    f_equal. apply map_ext. intros i. now rewrite Nat.add_succ_r.
Qed.

Lemma affine_nth (W : list (list R)) (b x : list R) (j : nat) :
  length W = length b -> (j < length b)%nat ->
  nth j (affine W b x) 0%R = (dot (nth j W []) x + nth j b 0)%R.
Proof.
  revert b j. induction W as [|r W IH]; intros [|bi b] j Hlen Hj;
    simpl in Hlen, Hj; try lia.
  cbn [affine]. destruct j as [|j]; [reflexivity|].
  cbn [nth]. apply IH; lia.
Qed.

Lemma nth_map_seq {A} (f : nat -> A) (n j : nat) (d : A) :
  (j < n)%nat -> nth j (map f (seq 0 n)) d = f j.
Proof.
  intros Hj. rewrite (nth_indep _ d (f 0%nat)) by (now rewrite length_map, length_seq).
  rewrite map_nth, seq_nth by exact Hj. reflexivity.
Qed.

(** One output of a linear layer: [sum_i w j i * x_i + b j]. *)
Lemma nn_Linear_entry (inf outf : nat) (w : nat -> nat -> R) (b : nat -> R)
    (x : list R) (j : nat) :
  (j < outf)%nat ->
  nth j (affine (weight (nn_Linear inf outf w b)) (bias (nn_Linear inf outf w b)) x) 0%R
  = (Torch.sum (map (fun i => w j i * nth i x 0) (seq 0 inf)) + b j)%R.
Proof.
  intros Hj. destruct (nn_Linear_rows inf outf w b) as (_ & Hw & Hb).
  rewrite affine_nth by lia. unfold nn_Linear. cbn [weight bias].
  rewrite (nth_map_seq _ _ Hj), (nth_map_seq _ _ Hj).
  f_equal. exact (dot_seq (fun i => w j i) inf 0 x).
Qed.

Lemma nth_concat_uniform {A} (w : nat) (l : list (list A)) (k j : nat) (d : A) :
  Forall (fun r => length r = w) l -> (k < length l)%nat -> (j < w)%nat ->
  nth (k * w + j) (concat l) d = nth j (nth k l []) d.
Proof.
  intros H. revert k. induction H as [|r l Hr _ IH]; intros k Hk Hj; simpl in Hk; [lia|].
  cbn [concat]. destruct k as [|k]; cbn [nth].
  - rewrite Nat.mul_0_l, Nat.add_0_l. apply app_nth1. lia.
  - rewrite app_nth2 by lia. rewrite Hr.
    replace (S k * w + j - w)%nat with (k * w + j)%nat by lia. apply IH; lia.
Qed.

Lemma rows_entry (n B k i : nat) (l : list R) :
  (k < B)%nat -> (i < n)%nat ->
  nth i (nth k (rows n B l) []) 0%R = nth (k * n + i) l 0%R.
Proof.
  revert l k. induction B as [|B IH]; intros l k Hk Hi; [lia|].
  cbn [rows]. destruct k as [|k]; cbn [nth].
  - rewrite nth_firstn. destruct (Nat.ltb_spec i n); [reflexivity|lia].
  - rewrite IH by lia. rewrite nth_skipn. f_equal. lia.
Qed.

(** The forward pass of [model_0] on a tensor whose trailing dimensions
    hold 784 values per sample. *)
Lemma forward_value (p : parameters) (x : tensor) (B d : nat) (rest : list nat) :
  shape x = B :: d :: rest -> numel (d :: rest) = 784%nat ->
  let L1 := nn_Linear 784 10 (w1 p) (b1 p) in
  let L2 := nn_Linear 10 10 (w2 p) (b2 p) in
  forward (model_0 p) x
  = Ok (mk_tensor [B; 10]%nat
          (concat (map (fun r => affine (weight L2) (bias L2)
                                   (affine (weight L1) (bias L1) r))
                       (rows 784 B (data x))))).
Proof.
  intros Hx Hn L1 L2. unfold forward, model_0, FashionMNISTBaselineModel_init.
  cbn [layer_stack Sequential layer_forward].
  unfold Flatten. rewrite Hx, Hn. cbn [bind].
  rewrite (@Linear_forward_2d _ _ B) by reflexivity. cbn [bind].
  rewrite (@Linear_forward_2d _ _ B) by reflexivity. cbn [bind shape data].
  change (length class_names) with 10%nat. fold L1 L2.
  change (in_features L1) with 784%nat. change (in_features L2) with 10%nat.
  change (out_features L2) with 10%nat.
  do 3 f_equal.
  set (hs := map (affine (weight L1) (bias L1)) (rows 784 B (data x))).
  assert (Hlen : length hs = B) by (unfold hs; now rewrite length_map, rows_length).
  rewrite <- Hlen at 1. rewrite rows_concat.
  - unfold hs. now rewrite map_map.
  - apply Forall_map, Forall_forall. intros r _.
    destruct (nn_Linear_rows 784 10 (w1 p) (b1 p)) as (_ & Hw & Hb).
    fold L1 in Hw, Hb. rewrite affine_length; lia.
Qed.

End ForwardPass.

(** C2.  The forward pass of [model_0] flattens its input and then
    applies exactly two linear (affine) layers in sequence, 784 -> 10 ->
    10, with nothing non-linear between or after them.  The layer stack
    is [Flatten; Linear(784, 10); Linear(10, 10)] and holds no
    activation; on every tensor, errors included, the pass is that of the
    single composed affine layer.  On a tensor of [B] samples of 784
    values each, the output has shape [[B, 10]], and its entry [j] for
    sample [s] is
    [sum_k w2[j][k] * (sum_i w1[k][i] * x[s][i] + b1[k]) + b2[j]],
    the second affine map applied to the first affine map of the
    flattened sample. *)
Theorem forward_two_affine_layers (p : parameters) (x : tensor)
    (B d : nat) (rest : list nat)
    (Hshape : shape x = B :: d :: rest) (Hfeatures : numel (d :: rest) = 784%nat) :
  let L1 := nn_Linear 784 10 (w1 p) (b1 p) in
  let L2 := nn_Linear 10 10 (w2 p) (b2 p) in
  layer_stack (model_0 p) = [nn_Flatten; nn_Linear_layer L1; nn_Linear_layer L2] /\
  ~ In nn_ReLU (layer_stack (model_0 p)) /\
  (forall t : tensor,
     forward (model_0 p) t
     = (y <- Flatten t ;; h <- Linear_forward L1 y ;; Linear_forward L2 h) /\
     forward (model_0 p) t
     = (y <- Flatten t ;; Linear_forward (compose_Linear L2 L1) y)) /\
  exists out : tensor,
    forward (model_0 p) x = Ok out /\
    shape out = [B; 10]%nat /\ length (data out) = (B * 10)%nat /\
    forall s j, (s < B)%nat -> (j < 10)%nat ->
      nth (s * 10 + j) (data out) 0%R
      = (Torch.sum
           (map (fun k =>
                   w2 p j k
                   * (Torch.sum (map (fun i => w1 p k i * nth (s * 784 + i) (data x) 0)
                                     (seq 0 784))
                      + b1 p k))
                (seq 0 10))
         + b2 p j)%R.
Proof.
  intros L1 L2.
  assert (Hstack : layer_stack (model_0 p)
                   = [nn_Flatten; nn_Linear_layer L1; nn_Linear_layer L2]) by reflexivity.
  assert (Hfwd : forall t, forward (model_0 p) t
                 = (y <- Flatten t ;; h <- Linear_forward L1 y ;; Linear_forward L2 h)).
  { intros t. unfold forward. rewrite Hstack. cbn [Sequential layer_forward].
    destruct (Flatten t) as [y|e]; [|reflexivity]. cbn [bind].
    destruct (Linear_forward L1 y) as [h|e]; [|reflexivity]. cbn [bind].
    apply bind_ret_r. }
  split; [exact Hstack|]. split; [|split].
  - rewrite Hstack. simpl. intros [H|[H|[H|[]]]]; discriminate.
  - intros t. split; [apply Hfwd|].
    rewrite Hfwd. destruct (Flatten t) as [y|e]; [|reflexivity]. cbn [bind].
    apply Linear_forward_compose; try apply nn_Linear_wf. reflexivity.
  - pose proof (@forward_value p x B d rest Hshape Hfeatures) as Hout.
    cbv zeta in Hout. fold L1 L2 in Hout.
    set (f := fun r => affine (weight L2) (bias L2) (affine (weight L1) (bias L1) r)) in *.
    assert (Hf : forall r, length (f r) = 10%nat).
    { intros r. unfold f.
      destruct (nn_Linear_rows 10 10 (w2 p) (b2 p)) as (_ & Hw & Hb).
      fold L2 in Hw, Hb. rewrite affine_length; lia. }
    assert (Hall : Forall (fun r => length r = 10%nat) (map f (rows 784 B (data x)))).
    { apply Forall_map, Forall_forall. intros r _. apply Hf. }
    eexists. split; [exact Hout|]. cbn [shape data]. split; [reflexivity|]. split.
    { rewrite (concat_length_uniform Hall), length_map, rows_length. lia. }
    intros s j Hs Hj.
    rewrite (nth_concat_uniform 0%R Hall) by (rewrite ?length_map, ?rows_length; lia).
    rewrite (nth_indep _ [] (f [])) by (now rewrite length_map, rows_length).
    rewrite map_nth. unfold f.
    unfold L2. rewrite nn_Linear_entry by exact Hj. f_equal. f_equal.
    apply map_ext_in. intros k Hk. apply in_seq in Hk. f_equal.
    unfold L1. rewrite nn_Linear_entry by lia. f_equal. f_equal.
    apply map_ext_in. intros i Hi. apply in_seq in Hi. f_equal.
    apply rows_entry; lia.
Qed.

Lemma forward_two_affine_layers_witness :
  shape two_images = [2; 1; 28; 28]%nat /\ numel [1; 28; 28]%nat = 784%nat /\
  let p := ramp_parameters in
  let L1 := nn_Linear 784 10 (w1 p) (b1 p) in
  let L2 := nn_Linear 10 10 (w2 p) (b2 p) in
  layer_stack (model_0 p) = [nn_Flatten; nn_Linear_layer L1; nn_Linear_layer L2] /\
  ~ In nn_ReLU (layer_stack (model_0 p)) /\
  (forall t : tensor,
     forward (model_0 p) t
     = (y <- Flatten t ;; h <- Linear_forward L1 y ;; Linear_forward L2 h) /\
     forward (model_0 p) t
     = (y <- Flatten t ;; Linear_forward (compose_Linear L2 L1) y)) /\
  exists out : tensor,
    forward (model_0 p) two_images = Ok out /\
    shape out = [2; 10]%nat /\ length (data out) = (2 * 10)%nat /\
    forall s j, (s < 2)%nat -> (j < 10)%nat ->
      nth (s * 10 + j) (data out) 0%R
      = (Torch.sum
           (map (fun k =>
                   w2 p j k
                   * (Torch.sum (map (fun i => w1 p k i
                                               * nth (s * 784 + i) (data two_images) 0)
                                     (seq 0 784))
                      + b1 p k))
                (seq 0 10))
         + b2 p j)%R.
Proof.
  split; [reflexivity|]. split; [reflexivity|].
  apply (@forward_two_affine_layers ramp_parameters two_images 2 1 [28; 28]%nat).
  - reflexivity.
  - reflexivity.
Defined.

(* ------------------------------------------------------------------ *)
(** ** The random index of the prediction cell *)

Section RandomIndex.

Local Open Scope Z_scope.

(** [random.randint(a, b)] returns every integer of [[a, b]], and only
    those. *)
Lemma randint_bounds (a b r : Z) : a <= b -> a <= randint a b r <= b.
Proof.
  intros H. unfold randint.
  pose proof (Z.mod_pos_bound r (b + 1 - a)). lia.
Qed.

Lemma randint_attains (a b n : Z) : a <= n <= b -> randint a b (n - a) = n.
Proof.
  intros H. unfold randint. rewrite Z.mod_small by lia. lia.
Qed.

Lemma FashionMNIST_len_nonneg (data : FashionMNIST) : 0 <= FashionMNIST_len data.
Proof. unfold FashionMNIST_len, len. lia. Qed.

(** Every draw other than [len(data)] itself is a valid index. *)
Lemma random_garment_idx_below (data : FashionMNIST) (r : Z) :
  notebook_dataset data ->
  random_garment_idx data r <> FashionMNIST_len data ->
  exists s, FashionMNIST_getitem data (random_garment_idx data r) = Ok s.
Proof.
  intros Hok Hne.
  pose proof (FashionMNIST_len_nonneg data) as Hn.
  pose proof (@randint_bounds 0 (FashionMNIST_len data) r Hn) as Hb.
  fold (random_garment_idx data r) in Hb.
  destruct (@FashionMNIST_getitem_ok data (random_garment_idx data r) Hok)
    as (s & Hs & _); [lia|]. eauto.
Qed.

End RandomIndex.

Example getitem_last : getitem [10; 20; 30]%Z (-1) = Ok 30%Z.
Proof. reflexivity. Qed.

Example getitem_one_past_end : getitem [10; 20; 30]%Z 3 = Raise IndexError.
Proof. reflexivity. Qed.

Example randint_upper_end : randint 0 3 7 = 3%Z.
Proof. reflexivity. Qed.

(** C10 (the code breaks it).  [random.randint(0, len(data))] includes
    its upper end point: the draw [len(data)] is possible, and indexing
    the dataset with it raises [IndexError], which aborts the prediction
    cell.  This holds for the test data of the published notebook and for
    the train data of the draft. *)
Theorem random_garment_idx_out_of_range
    (model : tensor -> result tensor) (data : FashionMNIST) :
  let n := FashionMNIST_len data in
  (0 <= n <= n)%Z /\
  random_garment_idx data n = n /\
  FashionMNIST_getitem data (random_garment_idx data n) = Raise IndexError /\
  prediction_cell model data n = Raise IndexError.
Proof.
  intros n. pose proof (FashionMNIST_len_nonneg data) as Hn. fold n in Hn.
  assert (Hidx : random_garment_idx data n = n).
  { unfold random_garment_idx. fold n.
    rewrite <- (@randint_attains 0 n n) at 3 by lia. f_equal. lia. }
  assert (Hget : FashionMNIST_getitem data n = Raise IndexError).
  { unfold FashionMNIST_getitem. rewrite getitem_past_end; [reflexivity|].
    unfold n, FashionMNIST_len. lia. }
  split; [lia|]. split; [exact Hidx|]. split.
  - rewrite Hidx. exact Hget.
  - unfold prediction_cell. rewrite Hidx, Hget. reflexivity.
Qed.

(* ------------------------------------------------------------------ *)
(** ** Samples and the model's dimensions *)

Section Samples.

Lemma getitem_In {A} (l : list A) (i : Z) (x : A) :
  getitem l i = Ok x -> In x l.
Proof.
  unfold getitem.
  set (j := if (i <? 0)%Z then (len l + i)%Z else i).
  destruct ((0 <=? j)%Z && (j <? len l)%Z)%bool; [|discriminate].
  destruct (nth_error l (Z.to_nat j)) eqn:E; [|discriminate].
  intros H; inversion H; subst. eapply nth_error_In; eassumption.
Qed.

Lemma FashionMNIST_getitem_sample (data : FashionMNIST) (i : Z) (s : tensor * Z) :
  notebook_dataset data -> FashionMNIST_getitem data i = Ok s -> sample_ok s.
Proof.
  intros [Ht (_ & Himg & Htg)]. unfold FashionMNIST_getitem.
  destruct (getitem (images data) i) as [raw|] eqn:E1; [|discriminate].
  destruct (getitem (targets data) i) as [t|] eqn:E2; [|discriminate].
  cbn [bind]. intros H; inversion H; subst s.
  apply getitem_In in E1, E2. rewrite Forall_forall in Himg, Htg.
  destruct (ToTensor_28x28 (Himg _ E1)) as [Hs Hw].
  unfold sample_ok. rewrite Ht. cbn [fst snd]. auto.
Qed.

End Samples.

(** C6.  Every sample obtained from a dataset loaded as in the notebook
    is a single-channel 28x28 image tensor paired with an integer label in
    [[0, 9]], and [model_0] is instantiated to match: 784 = 28*28 input
    features, and 10 output classes, one per label, so that the model
    accepts the sample and returns one logit per class name. *)
Theorem samples_match_model (data : FashionMNIST) (p : parameters)
    (Hdata : notebook_dataset data) :
  (forall i, (0 <= i < FashionMNIST_len data)%Z ->
             exists s, FashionMNIST_getitem data i = Ok s) /\
  (forall i img label, FashionMNIST_getitem data i = Ok (img, label) ->
     shape img = [1; 28; 28]%nat /\ wf img /\ (0 <= label <= 9)%Z /\
     numel (shape img) = 784%nat /\
     (exists name, getitem class_names label = Ok name) /\
     (exists logits, forward (model_0 p) (unsqueeze0 img) = Ok logits /\
                     shape logits = [1; length class_names]%nat)) /\
  (exists L1 L2,
     layer_stack (model_0 p) = [nn_Flatten; nn_Linear_layer L1; nn_Linear_layer L2] /\
     in_features L1 = 784%nat /\ 784%nat = (28 * 28)%nat /\
     out_features L2 = 10%nat /\ length class_names = 10%nat).
Proof.
  split; [|split].
  - intros i Hi.
    destruct (@FashionMNIST_getitem_ok data i Hdata Hi) as (s & Hs & _). eauto.
  - intros i img label Hget.
    destruct (@FashionMNIST_getitem_sample data i (img, label) Hdata Hget)
      as (Hs & Hw & Hl).
    cbn [fst snd] in *. repeat split; try assumption; try lia.
    + rewrite Hs. reflexivity.
    + destruct (@getitem_in_range _ class_names label) as (name & Hname & _).
      * unfold len. simpl. lia.
      * eauto.
    + destruct (@forward_batch p (unsqueeze0 img) 1) as (logits & Hf & Hsh & _).
      * unfold unsqueeze0. cbn [shape]. now rewrite Hs.
      * exists logits. split; [exact Hf|exact Hsh].
  - do 2 eexists. split; [reflexivity|]. repeat split.
Qed.

Lemma samples_match_model_witness :
  notebook_dataset two_samples /\
  (forall i, (0 <= i < FashionMNIST_len two_samples)%Z ->
             exists s, FashionMNIST_getitem two_samples i = Ok s) /\
  (forall i img label, FashionMNIST_getitem two_samples i = Ok (img, label) ->
     shape img = [1; 28; 28]%nat /\ wf img /\ (0 <= label <= 9)%Z /\
     numel (shape img) = 784%nat /\
     (exists name, getitem class_names label = Ok name) /\
     (exists logits, forward (model_0 class0_parameters) (unsqueeze0 img) = Ok logits /\
                     shape logits = [1; length class_names]%nat)) /\
  (exists L1 L2,
     layer_stack (model_0 class0_parameters)
     = [nn_Flatten; nn_Linear_layer L1; nn_Linear_layer L2] /\
     in_features L1 = 784%nat /\ 784%nat = (28 * 28)%nat /\
     out_features L2 = 10%nat /\ length class_names = 10%nat).
Proof.
  assert (H : notebook_dataset two_samples).
  { apply blank_dataset_ok. repeat constructor; lia. }
  split; [exact H|].
  apply (@samples_match_model two_samples class0_parameters H).
Defined.

(* ------------------------------------------------------------------ *)
(** ** Softmax and [make_predictions] *)

Section Softmax.

Local Open Scope R_scope.

Lemma rows_singletons (l : list R) :
  rows 1 (length l) l = map (fun x => [x]) l.
Proof. induction l as [|x l IH]; simpl; [reflexivity|]. now rewrite IH. Qed.

Lemma column_sum_singletons (l : list R) :
  fold_right vadd (repeat 0 1) (map (map exp) (map (fun x => [x]) l))
  = [sum (map exp l)].
Proof.
  induction l as [|x l IH]; [reflexivity|].
  cbn [map fold_right]. rewrite IH. reflexivity.
Qed.

(** On a 1-dimensional tensor [torch.softmax(t, dim=0)] is the softmax
    of its entries. *)
Lemma softmax_dim0_vector (t : tensor) (n : nat) :
  shape t = [n] -> wf t ->
  softmax_dim0 t = mk_tensor [n] (softmax (data t)).
Proof.
  intros Hs Hw. unfold wf in Hw. rewrite Hs in Hw. cbn [numel fold_right] in Hw.
  rewrite Nat.mul_1_r in Hw.
  unfold softmax_dim0. rewrite Hs. change (numel []) with 1%nat.
  rewrite <- Hw, rows_singletons, column_sum_singletons. rewrite Hw. f_equal.
  unfold softmax. generalize (sum (map exp (data t))) as S. intros S.
  clear Hw. induction (data t) as [|x l IH]; simpl; [reflexivity|].
  now rewrite IH.
Qed.

Lemma sum_exp_pos (l : list R) : l <> [] -> 0 < sum (map exp l).
Proof.
  assert (H0 : forall k, 0 <= sum (map exp k)).
  { induction k as [|y k IH]; simpl; [lra|]. pose proof (exp_pos y). lra. }
  destruct l as [|x l]; [congruence|]. intros _. simpl.
  pose proof (exp_pos x). pose proof (H0 l). lra.
Qed.

Lemma sum_div (S : R) (l : list R) :
  sum (map (fun x => x / S) l) = sum l / S.
Proof. induction l as [|x l IH]; simpl; [lra|]. rewrite IH. lra. Qed.

Lemma softmax_length (l : list R) : length (softmax l) = length l.
Proof. unfold softmax. apply length_map. Qed.

Lemma softmax_nonneg (l : list R) : Forall (fun q => 0 <= q) (softmax l).
Proof.
  unfold softmax. apply Forall_map, Forall_forall. intros x Hx.
  assert (Hne : l <> []) by (intros ->; contradiction).
  pose proof (sum_exp_pos Hne). pose proof (exp_pos x).
  apply Rlt_le. now apply Rdiv_lt_0_compat.
Qed.

Lemma softmax_sum (l : list R) : l <> [] -> sum (softmax l) = 1.
Proof.
  intros Hne. pose proof (sum_exp_pos Hne) as Hpos. unfold softmax.
  rewrite <- (map_map exp (fun e => e / sum (map exp l))), sum_div.
  field. lra.
Qed.

End Softmax.

Lemma model_0_ten_classes (p : parameters) : ten_class_model (forward (model_0 p)).
Proof. intros X B HX _. now apply forward_batch. Qed.

(** C8.  For every model with 10 output classes and every single-sample
    image tensor, [make_predictions] returns a tensor of shape 1x10 whose
    entries are the softmax of the model's logits: they are non-negative
    and sum to 1. *)
Theorem make_predictions_distribution
    (model : tensor -> result tensor) (img : tensor)
    (Hmodel : ten_class_model model)
    (Himg : shape img = [1; 28; 28]%nat) (Hwf : wf img) :
  exists logits probs,
    model (unsqueeze0 img) = Ok logits /\
    make_predictions model img = Ok probs /\
    shape probs = [1; 10]%nat /\ wf probs /\
    data probs = softmax (data logits) /\
    Forall (fun q => (0 <= q)%R) (data probs) /\
    Torch.sum (data probs) = 1%R.
Proof.
  destruct (Hmodel (unsqueeze0 img) 1%nat) as (logits & Hl & Hs & Hw).
  { unfold unsqueeze0. cbn [shape]. now rewrite Himg. }
  { unfold wf, unsqueeze0 in *. cbn [shape data].
    change (numel (1%nat :: shape img)) with (1 * numel (shape img))%nat. lia. }
  assert (Hlen : length (data logits) = 10%nat).
  { unfold wf in Hw. rewrite Hs in Hw. exact Hw. }
  assert (Hsq : softmax_dim0 (squeeze logits) = mk_tensor [10%nat] (softmax (data logits))).
  { apply (@softmax_dim0_vector (squeeze logits) 10).
    - unfold squeeze. cbn [shape]. rewrite Hs. reflexivity.
    - unfold wf, squeeze. cbn [shape data]. rewrite Hs. exact Hlen. }
  exists logits, (mk_tensor [1; 10]%nat (softmax (data logits))).
  split; [exact Hl|]. split.
  { unfold make_predictions. rewrite Hl. cbn [bind]. rewrite Hsq.
    unfold stack. cbn. rewrite app_nil_r. reflexivity. }
  cbn [shape data]. split; [reflexivity|]. split.
  { unfold wf. cbn [shape data]. rewrite softmax_length, Hlen. reflexivity. }
  split; [reflexivity|]. split; [apply softmax_nonneg|].
  apply softmax_sum. intros E. rewrite E in Hlen. discriminate.
Qed.

Lemma make_predictions_distribution_witness :
  ten_class_model (forward (model_0 class0_parameters)) /\
  shape (ToTensor blank_image) = [1; 28; 28]%nat /\ wf (ToTensor blank_image) /\
  exists logits probs,
    forward (model_0 class0_parameters) (unsqueeze0 (ToTensor blank_image)) = Ok logits /\
    make_predictions (forward (model_0 class0_parameters)) (ToTensor blank_image) = Ok probs /\
    shape probs = [1; 10]%nat /\ wf probs /\
    data probs = softmax (data logits) /\
    Forall (fun q => (0 <= q)%R) (data probs) /\
    Torch.sum (data probs) = 1%R.
Proof.
  pose proof (ToTensor_28x28 blank_image_28x28) as [Hs Hw].
  split; [apply model_0_ten_classes|]. split; [exact Hs|]. split; [exact Hw|].
  apply (@make_predictions_distribution
           (forward (model_0 class0_parameters)) (ToTensor blank_image)).
  - apply model_0_ten_classes.
  - exact Hs.
  - exact Hw.
Defined.

(* ------------------------------------------------------------------ *)
(** ** The testing loop *)

Section TestingLoop.

Local Open Scope Z_scope.

Lemma sum_item_zip_app (a1 a2 b1 b2 : list Z) :
  length a1 = length b1 ->
  sum_item (zip_eq (a1 ++ a2) (b1 ++ b2))
  = sum_item (zip_eq a1 b1) + sum_item (zip_eq a2 b2).
Proof.
  revert b1; induction a1 as [|x a1 IH]; intros [|y b1] H; simpl in *;
    try discriminate; [reflexivity|].
  rewrite IH by lia. lia.
Qed.

Lemma inject_Z_len_nonzero {A} (l : list A) :
  l <> [] -> ~ (inject_Z (len l) == 0)%Q.
Proof.
  intros Hne E. pose proof (len_pos_of_nonempty Hne).
  unfold Qeq in E. simpl in E. lia.
Qed.

(** The accuracy of one batch, when the call succeeds on label tensors
    of one length. *)
Lemma accuracy_fn_batch (y pred : list Z) (a : Q) :
  length y = length pred ->
  accuracy_fn y pred = Ok a ->
  pred <> [] /\ (a == batch_percentage (y, pred))%Q.
Proof.
  intros Hlen Ha.
  assert (Hne : pred <> []).
  { intros ->. destruct y; [|discriminate]. discriminate Ha. }
  split; [exact Hne|].
  rewrite (@accuracy_fn_value y pred Hlen Hne) in Ha. inversion Ha; subst a.
  unfold batch_percentage. cbn [fst snd].
  rewrite (@sum_item_matching y pred Hlen). field.
  now apply inject_Z_len_nonzero.
Qed.

Lemma CrossEntropyLoss_batch (t : tensor) (y : list Z) (l : R) :
  CrossEntropyLoss t y = Ok l ->
  exists C, shape t = [length y; C].
Proof.
  unfold CrossEntropyLoss.
  destruct (shape t) as [|B [|C [|? ?]]]; try discriminate.
  destruct (Nat.eqb_spec B (length y)) as [->|]; [|discriminate].
  intros _. now exists C.
Qed.

Lemma argmax_dim1_length (t : tensor) (B C : nat) (pred : list Z) :
  shape t = [B; C] -> argmax_dim1 t = Ok pred -> length pred = B.
Proof.
  unfold argmax_dim1. intros ->.
  destruct (Nat.eqb C 0); [discriminate|].
  intros H; inversion H. now rewrite length_map, rows_length.
Qed.

Variable model : tensor -> result tensor.
Variable dl : DataLoader.

Lemma test_step_spec (l0 : R) (a0 : Q) (X : tensor) (y : list Z) (st : R * Q) :
  test_step model (l0, a0) (X, y) = Ok st ->
  exists test_pred pred,
    model X = Ok test_pred /\ argmax_dim1 test_pred = Ok pred /\
    batch_recorded (y, pred) /\
    (snd st == a0 + batch_percentage (y, pred))%Q.
Proof.
  unfold test_step.
  destruct (model X) as [test_pred|] eqn:Em; [|discriminate]. cbn [bind].
  unfold loss_fn.
  destruct (CrossEntropyLoss test_pred y) as [l|] eqn:El; [|discriminate]. cbn [bind].
  destruct (argmax_dim1 test_pred) as [pred|] eqn:Ep; [|discriminate]. cbn [bind].
  destruct (accuracy_fn y pred) as [a|] eqn:Ea; [|discriminate]. cbn [bind].
  intros H; inversion H; subst st. cbn [snd].
  destruct (CrossEntropyLoss_batch _ _ El) as (C & Hs).
  pose proof (argmax_dim1_length _ Hs Ep) as Hlen.
  destruct (@accuracy_fn_batch y pred a (eq_sym Hlen) Ea) as [Hne Hq].
  exists test_pred, pred. repeat split; auto.
  now rewrite Hq.
Qed.

Lemma fetch_labels_length (ib : list Z) (X : tensor) (y : list Z) :
  fetch dl ib = Ok (X, y) -> length y = length ib.
Proof.
  unfold fetch.
  destruct (mapM (FashionMNIST_getitem (dataset dl)) ib) as [samples|] eqn:E;
    [|discriminate]. cbn [bind]. unfold default_collate.
  destruct (stack (map fst samples)); [|discriminate]. cbn [bind].
  intros H; inversion H; subst. rewrite length_map.
  eapply mapM_length; eassumption.
Qed.

(** The accuracy accumulated by the loop is the sum of the per-batch
    percentages of the epoch's recorded predictions. *)
Lemma test_batches_spec (ibs : list (list Z)) (l0 : R) (a0 : Q) (st : R * Q) :
  test_batches model dl (l0, a0) ibs = Ok st ->
  exists lp,
    epoch_predictions model dl ibs = Ok lp /\
    Forall batch_recorded lp /\
    map (fun yp => length (snd yp)) lp = map (@length Z) ibs /\
    (snd st == a0 + Qsum (map batch_percentage lp))%Q.
Proof.
  revert l0 a0; induction ibs as [|ib ibs IH]; intros l0 a0; cbn [test_batches].
  - intros H; inversion H; subst st. exists []. cbn.
    repeat split; try constructor. ring.
  - destruct (fetch dl ib) as [[X y]|] eqn:Ef; [|discriminate]. cbn [bind].
    destruct (test_step model (l0, a0) (X, y)) as [[l1 a1]|] eqn:Es; [|discriminate].
    cbn [bind]. intros Hrest.
    destruct (test_step_spec _ _ _ _ Es) as (test_pred & pred & Hm & Hp & Hrec & Ha1).
    destruct (IH _ _ Hrest) as (lp & Hlp & Hall & Hsz & Hacc).
    exists ((y, pred) :: lp). cbn [epoch_predictions].
    rewrite Ef. cbn [bind fst snd]. rewrite Hm. cbn [bind]. rewrite Hp. cbn [bind].
    rewrite Hlp. cbn [bind].
    split; [reflexivity|]. split; [now constructor|]. split.
    + cbn [map snd]. rewrite Hsz. f_equal.
      destruct Hrec as [Hrec _]. cbn [fst snd] in Hrec. rewrite <- Hrec.
      eapply fetch_labels_length; eassumption.
    + cbn [map Qsum]. rewrite Hacc. cbn [snd] in Ha1. rewrite Ha1. ring.
Qed.

End TestingLoop.

Lemma matching_concat (lp : list (list Z * list Z)) :
  Forall batch_recorded lp ->
  matching_indices (concat (map fst lp)) (concat (map snd lp)) = total_matching lp /\
  length (concat (map fst lp)) = length (concat (map snd lp)).
Proof.
  induction 1 as [|[y pred] lp [Hlen _] _ [IHm IHl]]; cbn [map concat total_matching fst snd] in *.
  - split; reflexivity.
  - split.
    + rewrite <- sum_item_matching by (rewrite !length_app; lia).
      rewrite sum_item_zip_app by exact Hlen.
      rewrite !sum_item_matching by assumption. now rewrite IHm.
    + rewrite !length_app. lia.
Qed.

Section BatchMean.

Local Open Scope Z_scope.

Variable k : nat.
Hypothesis k_pos : (0 < k)%nat.

Lemma Qsum_batch_percentage (lp : list (list Z * list Z)) :
  Forall (batch_of_size k) lp ->
  (Qsum (map batch_percentage lp)
   == 100 * inject_Z (total_matching lp) / inject_Z (Z.of_nat k))%Q.
Proof.
  assert (Hk : ~ (inject_Z (Z.of_nat k) == 0)%Q).
  { intros E. unfold Qeq in E. simpl in E. lia. }
  induction 1 as [|[y pred] lp [_ Hsz] _ IH]; cbn [map Qsum total_matching fst snd] in *.
  - field. exact Hk.
  - rewrite IH. unfold batch_percentage, len. cbn [fst snd]. rewrite Hsz.
    rewrite inject_Z_plus. field. exact Hk.
Qed.

Lemma concat_batches_length (lp : list (list Z * list Z)) :
  Forall (batch_of_size k) lp ->
  len (concat (map snd lp)) = Z.of_nat k * len lp.
Proof.
  intros H. unfold len.
  rewrite (@concat_length_uniform _ k), length_map; [lia|].
  apply Forall_map. eapply Forall_impl; [|exact H]. intros yp Hyp. apply Hyp.
Qed.

(** When all the batches have one size, the mean of the per-batch
    percentages is the percentage over all the samples. *)
Lemma mean_is_overall (lp : list (list Z * list Z)) :
  lp <> [] -> Forall (batch_of_size k) lp ->
  (mean_batch_accuracy lp == overall_accuracy lp)%Q.
Proof.
  intros Hne Hall.
  assert (Hrec : Forall batch_recorded lp).
  { eapply Forall_impl; [|exact Hall]. intros yp Hyp. apply Hyp. }
  destruct (matching_concat Hrec) as [Hm _].
  unfold mean_batch_accuracy, overall_accuracy.
  rewrite (Qsum_batch_percentage Hall), Hm, (concat_batches_length Hall).
  rewrite inject_Z_mult.
  assert (Hk : ~ (inject_Z (Z.of_nat k) == 0)%Q).
  { intros E. unfold Qeq in E. simpl in E. lia. }
  pose proof (inject_Z_len_nonzero Hne) as Hn.
  field. split; assumption.
Qed.

End BatchMean.

(* ------------------------------------------------------------------ *)
(** ** The testing loop returns *)

Section TestingLoopReturns.

Lemma nll_rows_ok (C : nat) (rws : list (list R)) (y : list Z) :
  Forall (fun t => (0 <= t < Z.of_nat C)%Z) y ->
  exists ls, nll_rows C rws y = Ok ls.
Proof.
  intros Hy. revert rws. induction Hy as [|t y Ht _ IH]; intros [|row rws];
    cbn [nll_rows]; try (eexists; reflexivity).
  destruct (Z.leb_spec 0 t); [|exfalso; lia].
  destruct (Z.ltb_spec t (Z.of_nat C)); [|exfalso; lia].
  cbn [andb]. destruct (IH rws) as (ls & ->). cbn [bind]. eexists; reflexivity.
Qed.

Lemma CrossEntropyLoss_ok (logits : tensor) (y : list Z) :
  shape logits = [length y; 10%nat] ->
  Forall (fun t => (0 <= t <= 9)%Z) y ->
  exists l, CrossEntropyLoss logits y = Ok l.
Proof.
  intros Hs Hy. unfold CrossEntropyLoss. rewrite Hs, Nat.eqb_refl.
  destruct (@nll_rows_ok 10 (rows 10 (length y) (data logits)) y) as (ls & ->).
  - eapply Forall_impl; [|exact Hy]. intros t Ht. cbv beta in Ht |- *. lia.
  - cbn [bind]. eexists; reflexivity.
Qed.

Variable model : tensor -> result tensor.
Hypothesis model_ok : ten_class_model model.

Lemma test_step_ok (st : R * Q) (X : tensor) (y : list Z) :
  shape X = [length y; 1; 28; 28]%nat -> wf X -> y <> [] ->
  Forall (fun t => (0 <= t <= 9)%Z) y ->
  exists st', test_step model st (X, y) = Ok st'.
Proof.
  intros HX Hw Hne Hy. destruct st as [l0 a0]. unfold test_step.
  destruct (model_ok HX Hw) as (logits & -> & Hs & _). cbn [bind].
  unfold loss_fn. destruct (CrossEntropyLoss_ok logits Hs Hy) as (l & ->). cbn [bind].
  unfold argmax_dim1. rewrite Hs. cbn [Nat.eqb bind].
  rewrite accuracy_fn_value.
  - cbn [bind]. eexists; reflexivity.
  - now rewrite length_map, rows_length.
  - destruct y; [congruence|]. discriminate.
Qed.

Variable dl : DataLoader.
Hypothesis data_ok : notebook_dataset (dataset dl).

Lemma test_batches_ok (ibs : list (list Z)) (st : R * Q) :
  Forall (index_batch_ok dl) ibs ->
  exists st', test_batches model dl st ibs = Ok st'.
Proof.
  intros H. revert st. induction H as [|ib ibs [Hne Hin] _ IH]; intros st;
    cbn [test_batches]; [eexists; reflexivity|].
  destruct (fetch_ok dl data_ok Hne Hin) as (X & y & -> & HX & Hw & Hy & Hy9).
  cbn [bind].
  assert (Hy_ne : y <> []).
  { intros ->. destruct ib; [congruence|discriminate]. }
  rewrite <- Hy in HX.
  destruct (@test_step_ok st X y HX Hw Hy_ne Hy9) as (st' & ->).
  cbn [bind]. apply IH.
Qed.

End TestingLoopReturns.

Section IndexBatches.

Variable dl : DataLoader.
Variable perm : list Z.
Hypothesis bs_pos : (0 < batch_size dl)%nat.
Hypothesis perm_ok :
  shuffle dl = true -> Permutation perm (range (length (images (dataset dl)))).

Lemma index_batches_ok :
  Forall (index_batch_ok dl) (index_batches dl perm) /\
  len (index_batches dl perm) = DataLoader_len dl /\
  ((length (images (dataset dl)) mod batch_size dl = 0)%nat ->
   Forall (fun ib => length ib = batch_size dl) (index_batches dl perm)).
Proof.
  destruct (@sampler_in_range (dataset dl) dl perm eq_refl perm_ok) as [Hlen Hrange].
  destruct (batch_sampler_shape bs_pos (sampler dl perm)) as (Hc & Hs & Hf & Hl & Hlast).
  fold (index_batches dl perm) in Hc, Hs, Hf, Hl, Hlast. rewrite Hlen in Hl, Hlast.
  split; [|split].
  - apply Forall_forall. intros ib Hib. split.
    + rewrite Forall_forall in Hs. specialize (Hs ib Hib).
      unfold full_or_short in Hs. destruct ib; simpl in Hs; [lia|discriminate].
    + apply Forall_forall. intros i Hi. rewrite Forall_forall in Hrange.
      apply Hrange. rewrite <- Hc. apply in_concat. eauto.
  - unfold len. rewrite Hl. unfold DataLoader_len, FashionMNIST_len, len.
    rewrite Nat2Z.inj_div. f_equal. lia.
  - intros Hmod.
    destruct (Nat.eq_dec (length (images (dataset dl))) 0) as [E|NE].
    + rewrite E in Hl. rewrite Nat.div_small in Hl by lia.
      destruct (index_batches dl perm); [constructor|discriminate].
    + apply (@Forall_removelast_last _ _ _ []); [exact Hf|].
      rewrite (Hlast NE), Hmod. reflexivity.
Qed.

End IndexBatches.

(** The testing loop over a notebook dataset returns, and the accuracy
    it reports is the mean of the per-batch percentages. *)
Lemma testing_loop_mean
    (model : tensor -> result tensor) (test_data : FashionMNIST) (bs : nat)
    (Hmodel : ten_class_model model)
    (Hdata : notebook_dataset test_data)
    (Hne : images test_data <> [])
    (Hbs : (0 < bs)%nat) :
  let dl := mk_DataLoader test_data bs false in
  exists loss acc lp,
    testing_loop model dl [] = Ok (loss, acc) /\
    epoch_predictions model dl (index_batches dl []) = Ok lp /\
    Forall batch_recorded lp /\
    map (fun yp => length (snd yp)) lp = map (@length Z) (index_batches dl []) /\
    len lp = DataLoader_len dl /\ lp <> [] /\
    (acc == mean_batch_accuracy lp)%Q.
Proof.
  intros dl.
  assert (Hperm : shuffle dl = true -> Permutation [] (range (length (images (dataset dl)))))
    by discriminate.
  destruct (@index_batches_ok dl [] Hbs Hperm) as (Hok & Hlen & _).
  destruct (@test_batches_ok model Hmodel dl Hdata (index_batches dl []) (0%R, 0%Q) Hok)
    as ([l1 a1] & Hrun).
  destruct (@test_batches_spec model dl (index_batches dl []) 0%R 0%Q (l1, a1) Hrun)
    as (lp & Hlp & Hrec & Hsz & Hacc).
  assert (Hlenlp : len lp = DataLoader_len dl).
  { rewrite <- Hlen. unfold len. f_equal.
    rewrite <- (length_map (fun yp => length (snd yp)) lp), Hsz. apply length_map. }
  assert (Hpos : (0 < DataLoader_len dl)%Z).
  { rewrite <- Hlen. apply len_pos_of_nonempty. intros E.
    destruct (@sampler_in_range test_data dl [] eq_refl Hperm) as [Hl _].
    pose proof (batch_sampler_from_concat bs (sampler dl []) []) as Hc.
    change (batch_sampler_from bs false [] (sampler dl []))
      with (index_batches dl []) in Hc.
    rewrite E in Hc. simpl in Hc. rewrite <- Hc in Hl. simpl in Hl.
    destruct (images test_data); [congruence|discriminate]. }
  exists (l1 / IZR (DataLoader_len dl))%R, (a1 / inject_Z (DataLoader_len dl))%Q, lp.
  split.
  { unfold testing_loop. rewrite Hrun. cbn [bind].
    destruct (Z.eqb_spec (DataLoader_len dl) 0) as [E|_]; [lia|reflexivity]. }
  split; [exact Hlp|]. split; [exact Hrec|]. split; [exact Hsz|].
  split; [exact Hlenlp|]. split.
  { intros ->. unfold len in Hlenlp. simpl in Hlenlp. lia. }
  unfold mean_batch_accuracy. rewrite Hlenlp. cbn [snd] in Hacc. rewrite Hacc.
  field. intros E. unfold Qeq in E. simpl in E. lia.
Qed.


(* ------------------------------------------------------------------ *)
(** ** A model that always predicts class 0 *)

Section ClassZeroModel.

Lemma forward_batch_value (p : parameters) (X : tensor) (B : nat) :
  shape X = [B; 1; 28; 28]%nat ->
  let L1 := nn_Linear 784 10 (w1 p) (b1 p) in
  let L2 := nn_Linear 10 10 (w2 p) (b2 p) in
  forward (model_0 p) X
  = Ok (mk_tensor [B; 10]%nat
          (concat (map (affine (weight L2) (bias L2))
                       (map (affine (weight L1) (bias L1))
                            (rows 784 B (data X)))))).
Proof.
  intros HX L1 L2. unfold forward, model_0, FashionMNISTBaselineModel_init.
  cbn [layer_stack Sequential layer_forward].
  unfold Flatten. rewrite HX. cbn [bind].
  rewrite (@Linear_forward_2d _ _ B) by reflexivity. cbn [bind].
  rewrite (@Linear_forward_2d _ _ B) by reflexivity. cbn [bind shape data].
  change (length class_names) with 10%nat. fold L1 L2.
  change (in_features L1) with 784%nat. change (in_features L2) with 10%nat.
  change (out_features L2) with 10%nat.
  do 3 f_equal.
  set (hs := map (affine (weight L1) (bias L1)) (rows 784 B (data X))).
  assert (Hlen : length hs = B) by (unfold hs; now rewrite length_map, rows_length).
  rewrite <- Hlen at 1. f_equal. apply rows_concat.
  apply Forall_map, Forall_forall. intros x _.
  destruct (nn_Linear_rows 784 10 (w1 p) (b1 p)) as (_ & Hw & Hb).
  fold L1 in Hw, Hb. rewrite affine_length; lia.
Qed.

Lemma class0_row (h : list R) :
  let L2 := nn_Linear 10 10 (w2 class0_parameters) (b2 class0_parameters) in
  argmax_row (affine (weight L2) (bias L2) h) = 0%Z.
Proof.
  intros L2. subst L2. cbn [nn_Linear weight bias w2 b2 class0_parameters map seq Nat.eqb].
  change [0; 0; 0; 0; 0; 0; 0; 0; 0; 0]%R with (repeat 0%R 10).
  cbn [affine]. rewrite !dot_zeros.
  unfold argmax_row, argmax_from.
  repeat (destruct (Rlt_dec _ _) as [Hlt|_]; [exfalso; lra|]).
  reflexivity.
Qed.

Lemma class0_predictions (X : tensor) (B : nat) :
  shape X = [B; 1; 28; 28]%nat ->
  exists logits,
    forward (model_0 class0_parameters) X = Ok logits /\
    argmax_dim1 logits = Ok (repeat 0%Z B).
Proof.
  intros HX. rewrite (forward_batch_value class0_parameters X HX).
  eexists. split; [reflexivity|]. unfold argmax_dim1. cbn [shape data Nat.eqb].
  f_equal.
  set (L1 := nn_Linear 784 10 (w1 class0_parameters) (b1 class0_parameters)).
  set (L2 := nn_Linear 10 10 (w2 class0_parameters) (b2 class0_parameters)).
  set (hs := map (affine (weight L1) (bias L1)) (rows 784 B (data X))).
  assert (Hlen : length hs = B) by (unfold hs; now rewrite length_map, rows_length).
  assert (Hrows : rows 10 B (concat (map (affine (weight L2) (bias L2)) hs))
                  = map (affine (weight L2) (bias L2)) hs).
  { rewrite <- Hlen at 1. rewrite <- (length_map (affine (weight L2) (bias L2)) hs).
    apply rows_concat. apply Forall_map, Forall_forall. intros x _.
    destruct (nn_Linear_rows 10 10 (w2 class0_parameters) (b2 class0_parameters))
      as (_ & Hw & Hb).
    fold L2 in Hw, Hb. rewrite affine_length; lia. }
  rewrite Hrows, map_map. rewrite <- Hlen. clear.
  induction hs as [|h hs IH]; [reflexivity|].
  cbn [map length repeat]. rewrite IH. f_equal. apply class0_row.
Qed.

End ClassZeroModel.

Section RecordedLabels.

Lemma FashionMNIST_getitem_label (ds : FashionMNIST) (i : Z) (s : tensor * Z) :
  (0 <= i)%Z -> FashionMNIST_getitem ds i = Ok s ->
  snd s = nth (Z.to_nat i) (targets ds) 0%Z.
Proof.
  intros Hi. unfold FashionMNIST_getitem.
  destruct (getitem (images ds) i) as [raw|]; [|discriminate]. cbn [bind].
  destruct (getitem (targets ds) i) as [t|] eqn:E; [|discriminate]. cbn [bind].
  intros H; inversion H; subst s. cbn [snd].
  unfold getitem in E. destruct (Z.ltb_spec i 0) as [Hneg|_]; [lia|].
  destruct ((0 <=? i)%Z && (i <? len (targets ds))%Z)%bool; [|discriminate].
  destruct (nth_error (targets ds) (Z.to_nat i)) as [t'|] eqn:En; [|discriminate].
  inversion E; subst t'. symmetry. now apply nth_error_nth.
Qed.

Lemma fetch_labels (dl : DataLoader) (ib : list Z) (X : tensor) (y : list Z) :
  Forall (fun i => (0 <= i)%Z) ib ->
  fetch dl ib = Ok (X, y) -> y = labels_at (targets (dataset dl)) ib.
Proof.
  intros Hib. unfold fetch.
  destruct (mapM (FashionMNIST_getitem (dataset dl)) ib) as [samples|] eqn:E;
    [|discriminate]. cbn [bind]. unfold default_collate.
  destruct (stack (map fst samples)); [|discriminate]. cbn [bind].
  intros H; inversion H; subst. clear H.
  apply mapM_Forall2 in E. revert Hib.
  induction E as [|i s ib samples Hs _ IH]; intros Hib; [reflexivity|].
  inversion Hib; subst. cbn [map labels_at]. f_equal.
  - now apply FashionMNIST_getitem_label.
  - now apply IH.
Qed.

Lemma epoch_predictions_class0 (dl : DataLoader) (ibs : list (list Z)) :
  notebook_dataset (dataset dl) -> Forall (index_batch_ok dl) ibs ->
  epoch_predictions (forward (model_0 class0_parameters)) dl ibs
  = Ok (class0_record (targets (dataset dl)) ibs).
Proof.
  intros Hds Hall. induction Hall as [|ib ibs [Hne Hin] _ IH]; [reflexivity|].
  cbn [epoch_predictions].
  destruct (fetch_ok dl Hds Hne Hin) as (X & y & Hf & HX & _ & Hy & _).
  rewrite Hf. cbn [bind fst snd].
  destruct (class0_predictions X HX) as (logits & Hfw & Ham).
  rewrite Hfw. cbn [bind]. rewrite Ham. cbn [bind].
  rewrite IH. cbn [bind class0_record map]. do 3 f_equal.
  eapply fetch_labels; [|eassumption].
  eapply Forall_impl; [|exact Hin]. intros i Hi. cbv beta in Hi. lia.
Qed.

Lemma skewed_test_split_ok : notebook_dataset skewed_test_split.
Proof.
  apply blank_dataset_ok. unfold skewed_targets. apply Forall_app. split;
    apply Forall_forall; intros t Ht; apply repeat_spec in Ht; subst t; lia.
Qed.

End RecordedLabels.

Lemma balanced_test_split_ok : notebook_dataset balanced_test_split.
Proof.
  apply blank_dataset_ok. unfold balanced_targets. apply Forall_app. split;
    apply Forall_forall; intros t Ht; apply repeat_spec in Ht; subst t; lia.
Qed.



(* ------------------------------------------------------------------ *)
(** ** Running the cells *)

Import Cells Code.

Section RunFacts.

Lemma run_bind (lib : library) (p : py) (f : value -> py) (h : list event) :
  run lib h (py_bind p f)
  = match run lib h p with
    | (Ok v, h') => run lib h' (f v)
    | (Raise e, h') => (Raise e, h')
    end.
Proof.
  revert h f. induction p as [v|o args k IH|cm body IHb k IHk|body IHb hd IHh k IHk];
    intros h f; cbn [py_bind run].
  - reflexivity.
  - destruct (lib h o args); [apply IH|reflexivity].
  - destruct (lib h CtxEnter [cm]); [|reflexivity].
    destruct (run lib _ body) as [rb h1].
    destruct (lib h1 CtxExit [cm]); [|reflexivity].
    destruct rb; [apply IHk|reflexivity].
  - destruct (run lib h body) as [[v|e] h1]; [apply IHk|].
    destruct (run lib h1 (hd e)) as [[v|e'] h2]; [apply IHk|reflexivity].
Qed.

Lemma run_call (lib : library) (o : op) (args : list value) (h : list event) :
  run lib h (call o args)
  = (lib h o args, h ++ [(o, args, lib h o args)]).
Proof. unfold call. cbn [run]. destruct (lib h o args); reflexivity. Qed.

Lemma handler_free_bind (p : py) (f : value -> py) :
  handler_free p -> (forall v, handler_free (f v)) -> handler_free (py_bind p f).
Proof.
  intros Hp Hf. induction Hp; cbn [py_bind]; [apply Hf| |]; constructor; auto.
Qed.

Lemma handler_free_call (o : op) (args : list value) : handler_free (call o args).
Proof. constructor. intros v. constructor. Qed.

Lemma handler_free_for_each {A} (l : list A) (acc : value) (body : A -> value -> py) :
  (forall x a, handler_free (body x a)) -> handler_free (for_each l acc body).
Proof.
  intros Hb. revert acc. induction l as [|x l IH]; intros acc; cbn [for_each].
  - constructor.
  - apply handler_free_bind; auto.
Qed.

Lemma genuine_app (lib : library) (h a b : list event) :
  genuine lib h a -> genuine lib (h ++ a) b -> genuine lib h (a ++ b).
Proof.
  revert h. induction a as [|[[o args] r] a IH]; intros h Ha Hb; cbn [app genuine] in *.
  - now rewrite app_nil_r in Hb.
  - destruct Ha as [Hr Ha]. split; [exact Hr|]. apply IH; [exact Ha|].
    now rewrite <- app_assoc.
Qed.

Lemma propagated_app_ok (r : result value) (pre evs : list event) :
  Forall ok_event pre -> propagated r evs -> propagated r (pre ++ evs).
Proof.
  intros Hpre. destruct r as [v|e]; cbn [propagated].
  - intros H. apply Forall_app. now split.
  - intros (p & o & args & e0 & post & -> & Hp & Hx & He & He0).
    exists (pre ++ p), o, args, e0, post. rewrite app_assoc.
    repeat split; auto. apply Forall_app. now split.
Qed.

Lemma last_raised_app (e0 : exn) (post : list event) (ev : event) :
  last_raised e0 (post ++ [ev])
  = match snd ev with Raise e => e | Ok _ => last_raised e0 post end.
Proof.
  revert e0. induction post as [|[[o a] [v|e]] post IH]; intros e0; cbn [app last_raised].
  - destruct ev as [[o a] [v|e]]; reflexivity.
  - apply IH.
  - apply IH.
Qed.

End RunFacts.

Section Propagation.

Variable lib : library.

Lemma genuine_one (h : list event) (o : op) (args : list value) (r : result value) :
  lib h o args = r -> genuine lib h [(o, args, r)].
Proof. intros H. cbn [genuine]. auto. Qed.

Lemma genuine_cons (h : list event) (o : op) (args : list value)
    (r : result value) (evs : list event) :
  lib h o args = r -> genuine lib (h ++ [(o, args, r)]) evs ->
  genuine lib h ((o, args, r) :: evs).
Proof. intros H G. cbn [genuine]. auto. Qed.

Lemma propagated_cons_ok (r : result value) (o : op) (args : list value)
    (v : value) (evs : list event) :
  propagated r evs -> propagated r ((o, args, Ok v) :: evs).
Proof.
  intros H. apply (@propagated_app_ok r [(o, args, Ok v)] evs); [|exact H].
  repeat constructor.
Qed.

(** Unwinding through a context manager: its exit is called, and the
    exception in flight stays, unless the exit raises. *)
Lemma propagated_exit (e : exn) (evb : list event) (cm : value) (rx : result value) :
  propagated (Raise e) evb ->
  propagated (Raise (match rx with Raise e' => e' | Ok _ => e end))
             (evb ++ [(CtxExit, [cm], rx)]).
Proof.
  intros (pre & o & args & e0 & post & -> & Hpre & Hpost & He & He0).
  exists pre, o, args, e0, (post ++ [(CtxExit, [cm], rx)]).
  rewrite <- app_assoc. split; [reflexivity|]. split; [exact Hpre|]. split.
  { apply Forall_app. split; [exact Hpost|]. repeat constructor. }
  rewrite last_raised_app. cbn [snd]. split.
  - destruct rx; [exact He|reflexivity].
  - intros Hall. apply Forall_app in Hall. destruct Hall as [Hp Hx].
    destruct rx as [vx|ex]; [now apply He0|].
    inversion Hx as [|? ? Hbad _]. destruct Hbad.
Qed.

(** A program without [try/except] propagates the exception of the first
    call that fails. *)
Lemma handler_free_propagates (p : py) :
  handler_free p -> forall h, propagates lib h p.
Proof.
  induction 1 as [v|o args k Hk IHk|cm body k Hb IHb Hk IHk]; intros h;
    unfold propagates; cbn [run].
  - exists []. cbn [fst snd]. rewrite app_nil_r. repeat split; constructor.
  - destruct (lib h o args) as [v|e] eqn:E.
    + destruct (IHk v (h ++ [(o, args, Ok v)])) as (evs & Hs & Hg & Hp).
      exists ((o, args, Ok v) :: evs). rewrite Hs, <- app_assoc.
      split; [reflexivity|]. split; [now apply genuine_cons|].
      now apply propagated_cons_ok.
    + exists [(o, args, Raise e)]. cbn [fst snd]. split; [reflexivity|].
      split; [now apply genuine_one|].
      exists [], o, args, e, []. repeat split; constructor.
  - destruct (lib h CtxEnter [cm]) as [v0|e] eqn:E0.
    2:{ exists [(CtxEnter, [cm], Raise e)]. cbn [fst snd]. split; [reflexivity|].
        split; [now apply genuine_one|].
        exists [], CtxEnter, [cm], e, []. repeat split; constructor. }
    destruct (IHb (h ++ [(CtxEnter, [cm], Ok v0)])) as (evb & Hsb & Hgb & Hpb).
    destruct (run lib (h ++ [(CtxEnter, [cm], Ok v0)]) body) as [rb h1].
    cbn [fst snd] in Hsb, Hpb. subst h1.
    set (h1 := (h ++ [(CtxEnter, [cm], Ok v0)]) ++ evb) in *.
    destruct (lib h1 CtxExit [cm]) as [vx|ex] eqn:Ex; destruct rb as [v|e].
    + destruct (IHk v (h1 ++ [(CtxExit, [cm], Ok vx)])) as (evk & Hsk & Hgk & Hpk).
      exists ((CtxEnter, [cm], Ok v0) :: evb ++ (CtxExit, [cm], Ok vx) :: evk).
      rewrite Hsk. unfold h1. split; [now rewrite <- !app_assoc|]. split.
      * apply genuine_cons; [exact E0|]. apply genuine_app; [exact Hgb|].
        now apply genuine_cons.
      * apply propagated_cons_ok. apply propagated_app_ok; [exact Hpb|].
        now apply propagated_cons_ok.
    + exists ((CtxEnter, [cm], Ok v0) :: evb ++ [(CtxExit, [cm], Ok vx)]).
      cbn [fst snd]. unfold h1. split; [now rewrite <- !app_assoc|]. split.
      * apply genuine_cons; [exact E0|]. apply genuine_app; [exact Hgb|].
        now apply genuine_one.
      * apply propagated_cons_ok.
        apply (@propagated_exit e evb cm (Ok vx) Hpb).
    + exists ((CtxEnter, [cm], Ok v0) :: evb ++ [(CtxExit, [cm], Raise ex)]).
      cbn [fst snd]. unfold h1. split; [now rewrite <- !app_assoc|]. split.
      * apply genuine_cons; [exact E0|]. apply genuine_app; [exact Hgb|].
        now apply genuine_one.
      * apply propagated_cons_ok.
        exists evb, CtxExit, [cm], ex, []. repeat split; try constructor.
        exact Hpb.
    + exists ((CtxEnter, [cm], Ok v0) :: evb ++ [(CtxExit, [cm], Raise ex)]).
      cbn [fst snd]. unfold h1. split; [now rewrite <- !app_assoc|]. split.
      * apply genuine_cons; [exact E0|]. apply genuine_app; [exact Hgb|].
        now apply genuine_one.
      * apply propagated_cons_ok.
        apply (@propagated_exit e evb cm (Raise ex) Hpb).
Qed.

End Propagation.

(* ------------------------------------------------------------------ *)
(** ** No cell handles an exception *)

Ltac handler_free_step :=
  first
    [ apply hf_Ret
    | apply handler_free_call
    | apply handler_free_bind
    | apply handler_free_for_each
    | apply hf_With
    | apply hf_Call
    | match goal with
      | |- handler_free (if ?b then _ else _) => destruct b
      | |- handler_free (match ?v with _ => _ end) => destruct v
      | |- forall _, _ => intro
      end ].

Ltac handler_free_tac :=
  cbv [cell_imports cell_datasets cell_lengths cell_types cell_class_names
       cell_sample show_image cell_show_train cell_dataloaders
       cell_print_loaders cell_first_batch cell_device cell_flatten
       cell_model_class model_init cell_model_0 cell_loss_optimizer cell_def
       py_accuracy_fn to_device training_step training_loop testing_step
       epoch_body cell_train_test py_make_predictions cell_predict cell_actual
       cell_show_test negb];
  repeat handler_free_step.

Lemma cells_handler_free (g : globals) (sz : sizes) :
  Forall handler_free (published_cells g sz ++ draft_cells g sz).
Proof.
  unfold published_cells, draft_cells. cbn [app].
  repeat (apply Forall_cons; [handler_free_tac|]). apply Forall_nil.
Qed.

(** C7.  No cell of the two notebooks catches, transforms or retries on
    an exception: for every behaviour of the libraries, when a call made
    by a cell raises, the calls before it succeeded, no call is made after
    it other than leaving the open [torch.inference_mode()] context, and
    the cell aborts with the exception in flight, which is the one the
    call raised. *)
Theorem cells_propagate_exceptions (g : globals) (sz : sizes) :
  Forall (fun cell => handler_free cell /\
                      forall lib h, propagates lib h cell)
         (published_cells g sz ++ draft_cells g sz).
Proof.
  eapply Forall_impl; [|apply cells_handler_free].
  intros cell Hcell. split; [exact Hcell|].
  intros lib h. now apply handler_free_propagates.
Qed.

(** When the download of the training data fails, the dataset cell
    aborts with that exception and the test data is never requested. *)
Lemma download_failure_aborts (e : exn) :
  let lib : library :=
    fun h o _ => match o with
                 | Construct "datasets.FashionMNIST" => Raise e
                 | _ => Ok VNone
                 end in
  run lib [] cell_datasets
  = (Raise e,
     [ (Construct "ToTensor", [], Ok VNone);
       (Construct "datasets.FashionMNIST",
        [VStr "data"; VBool true; VBool true; VNone; VNone], Raise e) ]).
Proof. reflexivity. Qed.

(** A program with [try/except] does not propagate: the retry swallows
    the first failure. *)
Lemma retry_does_not_propagate : ~ propagates lib_flaky [] retry_download.
Proof.
  intros (evs & Hs & _ & Hp). cbn in Hs, Hp. subst evs.
  inversion Hp as [|? ? Hbad _]. destruct Hbad.
Qed.

(* ------------------------------------------------------------------ *)
(** ** The order of the operations of a training step *)

Section TrainingOrder.

Lemma training_ops_app (a b : list event) :
  training_ops (a ++ b) = training_ops a ++ training_ops b.
Proof. unfold training_ops. now rewrite map_app, filter_app. Qed.

Lemma training_ops_cons (o : op) (args : list value) (r : result value)
    (evs : list event) :
  training_ops ((o, args, r) :: evs)
  = if training_op o then o :: training_ops evs else training_ops evs.
Proof. reflexivity. Qed.

Lemma performs_ret (v : value) : performs [] (Ret v).
Proof.
  intros lib h. exists []. cbn. rewrite app_nil_r.
  split; [reflexivity|]. split; [now exists []|reflexivity].
Qed.

(** A call that is none of the five operations leaves the sequence to
    perform as it is. *)
Lemma performs_call_other (full : list op) (o : op) (args : list value)
    (k : value -> py) :
  training_op o = false -> (forall v, performs full (k v)) ->
  performs full (py_bind (call o args) k).
Proof.
  intros Ho Hk lib h. rewrite run_bind, run_call.
  destruct (lib h o args) as [v|e].
  - destruct (Hk v lib (h ++ [(o, args, Ok v)])) as (evs & Hs & Hpre & Hok).
    exists ((o, args, Ok v) :: evs). rewrite Hs, <- app_assoc.
    rewrite training_ops_cons, Ho. auto.
  - exists [(o, args, Raise e)]. cbn [fst snd is_ok].
    rewrite training_ops_cons, Ho. split; [reflexivity|].
    split; [now exists full|discriminate].
Qed.

(** A call that is one of the five operations must be the next one of
    the sequence. *)
Lemma performs_call_op (rest : list op) (o : op) (args : list value)
    (k : value -> py) :
  training_op o = true -> (forall v, performs rest (k v)) ->
  performs (o :: rest) (py_bind (call o args) k).
Proof.
  intros Ho Hk lib h. rewrite run_bind, run_call.
  destruct (lib h o args) as [v|e].
  - destruct (Hk v lib (h ++ [(o, args, Ok v)])) as (evs & Hs & (tl & Hpre) & Hok).
    exists ((o, args, Ok v) :: evs). rewrite Hs, <- app_assoc.
    rewrite training_ops_cons, Ho. split; [reflexivity|]. split.
    + exists tl. cbn [app]. now rewrite <- Hpre.
    + intros H. now rewrite (Hok H).
  - exists [(o, args, Raise e)]. cbn [fst snd is_ok].
    rewrite training_ops_cons, Ho. split; [reflexivity|].
    split; [now exists rest|discriminate].
Qed.

Lemma performs_to_device (full : list op) (published : bool) (g : globals)
    (x : value) (k : value -> py) :
  (forall v, performs full (k v)) ->
  performs full (py_bind (to_device published g x) k).
Proof.
  intros Hk. destruct published; cbn [to_device].
  - now apply performs_call_other.
  - cbn [py_bind]. apply Hk.
Qed.

Lemma training_step_performs (published : bool) (g : globals)
    (ib : list Z) (train_loss : value) :
  performs code_order (training_step published g ib train_loss).
Proof.
  unfold training_step, code_order.
  apply performs_call_other; [reflexivity|]. intros batch.
  apply performs_to_device. intros X.
  apply performs_to_device. intros y.
  apply performs_call_other; [reflexivity|]. intros _.
  apply performs_call_op; [reflexivity|]. intros y_pred.
  apply performs_to_device. intros _.
  apply performs_call_op; [reflexivity|]. intros loss.
  apply performs_call_other; [reflexivity|]. intros train_loss'.
  apply performs_call_op; [reflexivity|]. intros _.
  apply performs_call_op; [reflexivity|]. intros _.
  apply performs_call_op; [reflexivity|]. intros _.
  apply performs_ret.
Qed.

Lemma for_each_performs {A} (step : list op) (l : list A)
    (body : A -> value -> py) :
  (forall x a, performs step (body x a)) ->
  forall acc, performs (concat (repeat step (length l))) (for_each l acc body).
Proof.
  intros Hbody. induction l as [|x l IH]; intros acc lib h; cbn [for_each].
  - exists []. cbn. rewrite app_nil_r. split; [reflexivity|].
    split; [now exists []|reflexivity].
  - rewrite run_bind.
    destruct (Hbody x acc lib h) as (evs1 & Hs1 & (rest1 & Hr1) & Hok1).
    destruct (run lib h (body x acc)) as [[v|e] h1]; cbn [fst snd is_ok] in *; subst h1.
    + destruct (IH v lib (h ++ evs1)) as (evs2 & Hs2 & (rest2 & Hr2) & Hok2).
      exists (evs1 ++ evs2). rewrite Hs2, <- app_assoc. split; [reflexivity|].
      rewrite training_ops_app, (Hok1 eq_refl).
      cbn [length repeat concat]. split.
      * exists rest2. now rewrite <- app_assoc, <- Hr2.
      * intros Hok. now rewrite (Hok2 Hok).
    + exists evs1. split; [reflexivity|]. cbn [length repeat concat]. split.
      * exists (rest1 ++ concat (repeat step (length l))).
        now rewrite app_assoc, <- Hr1.
      * discriminate.
Qed.

End TrainingOrder.

(** C3 (as amended).  In every iteration of the inner training loop, of
    the published notebook and of the draft, the five operations are
    performed in the order: forward pass, loss computation, zero
    gradients, backward pass, optimizer step.  On every run, of one
    iteration and of the whole loop, the five-operation trace is an
    initial part of that sequence (repeated once per batch for the loop),
    and the whole of it when the run completes. *)
Theorem training_loop_order (published : bool) (g : globals) (sz : sizes) :
  let order := [ForwardPass; LossComputation; ZeroGrad; BackwardPass;
                OptimizerStep] in
  (forall ib train_loss,
     performs order (training_step published g ib train_loss)) /\
  performs (concat (repeat order (length (loader_batches (n_train sz)))))
           (training_loop published g sz).
Proof.
  intros order. split.
  - intros ib train_loss. apply training_step_performs.
  - apply (@for_each_performs _ code_order (loader_batches (n_train sz))
             (training_step published g) (training_step_performs published g)).
Qed.

(** C3, the claim as stated, fails: on a training set of one batch, with
    every call succeeding, the five operations run as forward pass, loss,
    zero gradients, backward pass, optimizer step; the gradients are not
    zeroed first. *)
Lemma training_step_not_documented_order :
  let evs := snd (run lib_ok [] (training_loop true no_globals (mk_sizes 32 0))) in
  training_ops evs
  = [ForwardPass; LossComputation; ZeroGrad; BackwardPass; OptimizerStep] /\
  training_ops evs <> documented_order /\
  nth_error (training_ops evs) 0 = Some ForwardPass /\
  nth_error (training_ops evs) 2 = Some ZeroGrad.
Proof.
  cbv zeta.
  assert (E : training_ops (snd (run lib_ok [] (training_loop true no_globals (mk_sizes 32 0))))
              = [ForwardPass; LossComputation; ZeroGrad; BackwardPass; OptimizerStep])
    by (vm_compute; reflexivity).
  rewrite E. split; [reflexivity|]. split; [discriminate|]. split; reflexivity.
Qed.

(* ================================================================== *)
(** * Further properties of the notebook's code *)

(* ------------------------------------------------------------------ *)
(** ** Outcomes of [accuracy_fn] *)

Section AccuracyOutcomes.

Local Open Scope Z_scope.

Lemma sum_item_count (p : Z) (l : list Z) :
  sum_item (map (fun x => Z.eqb x p) l) = Z.of_nat (count_occ Z.eq_dec l p).
Proof.
  induction l as [|x l IH]; [reflexivity|].
  cbn [map sum_item count_occ]. rewrite IH.
  destruct (Z.eq_dec x p) as [E|NE].
  - apply Z.eqb_eq in E. rewrite E. lia.
  - apply Z.eqb_neq in NE. rewrite NE. lia.
Qed.

Lemma torch_eq_single_prediction (y_true : list Z) (p : Z) :
  torch_eq y_true [p] = Ok (map (fun x => Z.eqb x p) y_true).
Proof.
  unfold torch_eq. destruct y_true as [|x [|x' l]]; reflexivity.
Qed.

Lemma zip_eq_sym (a b : list Z) : zip_eq a b = zip_eq b a.
Proof.
  revert b; induction a as [|x a IH]; intros [|y b]; cbn [zip_eq]; try reflexivity.
  now rewrite Z.eqb_sym, IH.
Qed.

Lemma sum_item_full_iff (a b : list Z) :
  length a = length b -> (sum_item (zip_eq a b) = len b <-> a = b).
Proof.
  intros Hlen. split; [|intros ->; apply sum_item_refl].
  revert b Hlen; induction a as [|x a IH]; intros [|y b] Hlen; simpl in Hlen;
    try discriminate; [reflexivity|].
  cbn [zip_eq sum_item]. unfold len. simpl length. intros H.
  assert (Hlen' : length a = length b) by lia.
  pose proof (sum_item_bounds (zip_eq a b)) as [_ Hhi].
  unfold len in Hhi. rewrite (zip_eq_length _ _ Hlen') in Hhi.
  destruct (Z.eqb_spec x y) as [->|NE]; [|lia].
  f_equal. apply IH; [exact Hlen'|]. unfold len. lia.
Qed.

Lemma sum_item_zero_iff (a b : list Z) :
  length a = length b ->
  (sum_item (zip_eq a b) = 0 <->
   forall i, (i < length b)%nat -> nth i a 0 <> nth i b 0).
Proof.
  intros Hlen. split; [|now apply sum_item_all_differ].
  revert b Hlen; induction a as [|x a IH]; intros [|y b] Hlen; simpl in Hlen;
    try discriminate.
  - intros _ i Hi. simpl in Hi. lia.
  - cbn [zip_eq sum_item]. intros H.
    pose proof (sum_item_bounds (zip_eq a b)) as [Hlo _].
    destruct (Z.eqb_spec x y) as [->|NE]; [lia|].
    intros [|i] Hi; cbn [nth]; [exact NE|].
    apply IH; [lia|lia|]. simpl in Hi. lia.
Qed.

End AccuracyOutcomes.

(** X1.  The outcome of [accuracy_fn] on any two label tensors.  When
    the two lengths differ and neither is 1, [torch.eq] cannot broadcast
    and the call raises [RuntimeError]; otherwise an empty [y_pred]
    makes the division by [len(y_pred)] raise [ZeroDivisionError]; in
    every other case the call returns a non-negative number. *)
Theorem accuracy_fn_outcome (y_true y_pred : list Z) :
  let compatible :=
    length y_true = length y_pred \/ length y_true = 1%nat \/ length y_pred = 1%nat in
  (~ compatible -> accuracy_fn y_true y_pred = Raise RuntimeError) /\
  (compatible -> y_pred = [] -> accuracy_fn y_true y_pred = Raise ZeroDivisionError) /\
  (compatible -> y_pred <> [] ->
   exists acc, accuracy_fn y_true y_pred = Ok acc /\ (0 <= acc)%Q).
Proof.
  intros compatible. subst compatible. split; [|split].
  - intros Hno. unfold accuracy_fn, torch_eq.
    destruct (Nat.eqb_spec (length y_true) (length y_pred)) as [E|_]; [tauto|].
    destruct y_true as [|x [|x' a]]; destruct y_pred as [|y [|y' b]];
      try reflexivity; exfalso; apply Hno; simpl; auto.
  - intros Hc ->. destruct y_true as [|x [|x' a]]; try reflexivity.
    exfalso. simpl in Hc. destruct Hc as [H|[H|H]]; discriminate.
  - intros Hc Hne. unfold accuracy_fn.
    assert (Heq : exists eqs, torch_eq y_true y_pred = Ok eqs).
    { unfold torch_eq.
      destruct (Nat.eqb_spec (length y_true) (length y_pred)) as [E|NE];
        [eexists; reflexivity|].
      destruct Hc as [H|[H|H]]; [contradiction| |].
      - destruct y_true as [|x [|x' a]]; try discriminate. eexists; reflexivity.
      - destruct y_pred as [|y [|y' b]]; try discriminate.
        destruct y_true as [|x [|x' a]]; eexists; reflexivity. }
    destruct Heq as (eqs & ->). cbn [bind]. unfold truediv.
    pose proof (len_pos_of_nonempty Hne) as Hpos.
    destruct (Z.eqb_spec (len y_pred) 0) as [E|_]; [lia|]. cbn [bind].
    eexists. split; [reflexivity|].
    pose proof (sum_item_bounds eqs) as [Hlo _].
    assert (Hq : (0 < inject_Z (len y_pred))%Q).
    { change 0%Q with (inject_Z 0). rewrite <- Zlt_Qlt. exact Hpos. }
    assert (Hc0 : (0 <= inject_Z (sum_item eqs))%Q).
    { change 0%Q with (inject_Z 0). rewrite <- Zle_Qle. exact Hlo. }
    assert (Hr0 : (0 <= inject_Z (sum_item eqs) / inject_Z (len y_pred))%Q).
    { apply Qle_shift_div_l; [exact Hq|]. rewrite Qmult_0_l. exact Hc0. }
    generalize dependent (inject_Z (sum_item eqs) / inject_Z (len y_pred))%Q.
    intros r Hr0. Lqa.lra.
Qed.

(** X2.  On equal-length, non-empty label tensors [accuracy_fn] returns
    exactly 100 only when every prediction is right, and exactly 0 only
    when every prediction is wrong. *)
Theorem accuracy_fn_extremes (y_true y_pred : list Z)
    (Hlen : length y_true = length y_pred) (Hne : y_pred <> []) :
  exists acc : Q,
    accuracy_fn y_true y_pred = Ok acc /\
    ((acc == 100)%Q <-> y_true = y_pred) /\
    ((acc == 0)%Q <->
     forall i, (i < length y_pred)%nat -> nth i y_true 0%Z <> nth i y_pred 0%Z).
Proof.
  pose proof (len_pos_of_nonempty Hne) as Hpos.
  assert (Hn0 : ~ (inject_Z (len y_pred) == 0)%Q).
  { intro E. unfold Qeq in E. simpl in E. lia. }
  eexists. split; [apply accuracy_fn_value; assumption|].
  set (c := sum_item (zip_eq y_true y_pred)).
  pose proof (Qmult_div_r (inject_Z c) (inject_Z (len y_pred)) Hn0) as Hmul.
  set (q := (inject_Z c / inject_Z (len y_pred))%Q) in *.
  split.
  - rewrite <- (sum_item_full_iff _ _ Hlen). fold c. split.
    + intros H. assert (Hq : (q == 1)%Q) by Lqa.lra.
      rewrite Hq, Qmult_1_r in Hmul. unfold Qeq in Hmul. simpl in Hmul. lia.
    + intros H. rewrite H in Hmul.
      assert (Hq : (q == 1)%Q).
      { apply (Qmult_inj_l q 1 (inject_Z (len y_pred))); [exact Hn0|].
        rewrite Hmul. ring. }
      rewrite Hq. reflexivity.
  - rewrite <- (sum_item_zero_iff _ _ Hlen). fold c. split.
    + intros H. assert (Hq : (q == 0)%Q) by Lqa.lra.
      rewrite Hq, Qmult_0_r in Hmul. unfold Qeq in Hmul. simpl in Hmul. lia.
    + intros H. rewrite H in Hmul. change (inject_Z 0) with 0%Q in Hmul.
      assert (Hq : (q == 0)%Q).
      { apply (Qmult_inj_l q 0 (inject_Z (len y_pred))); [exact Hn0|].
        rewrite Hmul. ring. }
      rewrite Hq. reflexivity.
Qed.

Lemma accuracy_fn_extremes_witness :
  exists acc : Q,
    accuracy_fn [1; 2; 3]%Z [1; 5; 3]%Z = Ok acc /\
    ((acc == 100)%Q <-> [1; 2; 3]%Z = [1; 5; 3]%Z) /\
    ((acc == 0)%Q <->
     forall i, (i < length [1; 5; 3]%Z)%nat ->
               nth i [1; 2; 3]%Z 0%Z <> nth i [1; 5; 3]%Z 0%Z).
Proof.
  apply (@accuracy_fn_extremes [1; 2; 3]%Z [1; 5; 3]%Z).
  - reflexivity.
  - discriminate.
Defined.

(** X3.  A single prediction is broadcast against all the true labels,
    while the count is still divided by [len(y_pred) = 1]: the result is
    100 times the number of true labels equal to the prediction, and
    exceeds 100 as soon as two of them are. *)
Theorem accuracy_fn_single_prediction (y_true : list Z) (p : Z) :
  let hits := count_occ Z.eq_dec y_true p in
  exists acc : Q,
    accuracy_fn y_true [p] = Ok acc /\
    (acc == 100 * inject_Z (Z.of_nat hits))%Q /\
    ((2 <= hits)%nat -> (100 < acc)%Q).
Proof.
  intros hits. unfold accuracy_fn.
  rewrite torch_eq_single_prediction. cbn [bind].
  rewrite sum_item_count. fold hits.
  change (truediv (Z.of_nat hits) (len [p]))
    with (Ok (inject_Z (Z.of_nat hits) / inject_Z 1)%Q : result Q).
  cbn [bind]. eexists. split; [reflexivity|].
  assert (E : (inject_Z (Z.of_nat hits) / inject_Z 1 * 100
               == 100 * inject_Z (Z.of_nat hits))%Q) by (field; discriminate).
  split; [exact E|].
  intros H2. rewrite E.
  assert (H : (inject_Z 2 <= inject_Z (Z.of_nat hits))%Q) by (rewrite <- Zle_Qle; lia).
  change (inject_Z 2) with 2%Q in H. Lqa.lra.
Qed.

(** X4.  On label tensors of one length the two arguments of
    [accuracy_fn] can be exchanged, although only [len(y_pred)] is
    divided by: the outcome is the same, the error on empty tensors
    included. *)
Theorem accuracy_fn_symmetric (y_true y_pred : list Z)
    (Hlen : length y_true = length y_pred) :
  accuracy_fn y_true y_pred = accuracy_fn y_pred y_true.
Proof.
  unfold accuracy_fn.
  rewrite (torch_eq_same_length _ _ Hlen), (torch_eq_same_length _ _ (eq_sym Hlen)).
  cbn [bind]. rewrite (zip_eq_sym y_pred y_true). unfold len. now rewrite Hlen.
Qed.

Lemma accuracy_fn_symmetric_witness :
  accuracy_fn [1; 2; 3]%Z [1; 5; 3]%Z = accuracy_fn [1; 5; 3]%Z [1; 2; 3]%Z.
Proof.
  apply (@accuracy_fn_symmetric [1; 2; 3]%Z [1; 5; 3]%Z). reflexivity.
Defined.

(** Without equal lengths the arguments cannot be exchanged: one
    prediction against three labels gives 300, three predictions against
    one label give 100. *)
Example accuracy_fn_broadcast_not_symmetric :
  accuracy_fn [1; 1; 1]%Z [1]%Z <> accuracy_fn [1]%Z [1; 1; 1]%Z.
Proof. vm_compute. discriminate. Qed.

Lemma accuracy_fn_binary64_agrees_witness :
  exists (x : float) (v a : Q),
    Binary64.accuracy_fn_binary64 [1; 2; 3]%Z [1; 5; 3]%Z = Ok x /\
    Binary64.value x = Some v /\
    accuracy_fn [1; 2; 3]%Z [1; 5; 3]%Z = Ok a /\
    (Qabs (v - a) <= Binary64.tolerance)%Q /\ (0 <= v)%Q /\ (v <= 100)%Q /\
    ([1; 5; 3]%Z = [1; 2; 3]%Z -> v == 100)%Q /\
    ((forall i, (i < length [1; 5; 3]%Z)%nat ->
                nth i [1; 2; 3]%Z 0%Z <> nth i [1; 5; 3]%Z 0%Z) ->
     v == 0)%Q.
Proof.
  apply (@accuracy_fn_binary64_agrees [1; 2; 3]%Z [1; 5; 3]%Z).
  - reflexivity.
  - simpl. lia.
Defined.

(* ------------------------------------------------------------------ *)
(** ** What an epoch of a data loader yields *)

Section EpochFacts.

Lemma map_nth_seq {A} (l : list A) (d : A) :
  map (fun k => nth k l d) (seq 0 (length l)) = l.
Proof.
  induction l as [|x l IH]; [reflexivity|].
  cbn [length]. rewrite <- cons_seq, <- seq_shift. cbn [map nth].
  rewrite map_map. cbn [nth]. now rewrite IH.
Qed.

Lemma labels_at_range (tgts : list Z) :
  labels_at tgts (range (length tgts)) = tgts.
Proof.
  unfold labels_at, range. rewrite map_map.
  transitivity (map (fun k => nth k tgts 0%Z) (seq 0 (length tgts)));
    [|apply map_nth_seq].
  apply map_ext. intros k. now rewrite Nat2Z.id.
Qed.

Lemma fetch_inv (dl : DataLoader) (ib : list Z) (b : tensor * list Z) :
  fetch dl ib = Ok b ->
  exists samples,
    mapM (FashionMNIST_getitem (dataset dl)) ib = Ok samples /\
    stack (map fst samples) = Ok (fst b) /\ snd b = map snd samples.
Proof.
  unfold fetch.
  destruct (mapM (FashionMNIST_getitem (dataset dl)) ib) as [samples|] eqn:Es;
    [|discriminate]. cbn [bind]. unfold default_collate.
  destruct (stack (map fst samples)) as [X|] eqn:EX; [|discriminate]. cbn [bind].
  intros H; inversion H; subst b. exists samples. cbn [fst snd]. auto.
Qed.

Lemma stack_inv (ts : list tensor) (X : tensor) :
  stack ts = Ok X ->
  exists t0 rest, ts = t0 :: rest /\
    Forall (fun u => shape u = shape t0) ts /\
    X = mk_tensor (length ts :: shape t0) (concat (map data ts)).
Proof.
  destruct ts as [|t0 rest]; [discriminate|]. unfold stack.
  destruct (forallb (fun u => shape_eqb (shape u) (shape t0)) rest) eqn:E;
    [|discriminate].
  intros H; inversion H; subst X. exists t0, rest.
  split; [reflexivity|]. split; [|reflexivity].
  constructor; [reflexivity|]. apply Forall_forall. intros u Hu.
  rewrite forallb_forall in E. specialize (E u Hu). unfold shape_eqb in E.
  destruct (list_eq_dec Nat.eq_dec (shape u) (shape t0)); [assumption|discriminate].
Qed.

(** The labels of the batches of an epoch, one after the other, are the
    targets at the indices the sampler visits. *)
Lemma batches_labels (dl : DataLoader) (ibs : list (list Z)) (bl : list (tensor * list Z)) :
  Forall (Forall (fun i => (0 <= i)%Z)) ibs ->
  mapM (fetch dl) ibs = Ok bl ->
  concat (map snd bl) = labels_at (targets (dataset dl)) (concat ibs).
Proof.
  intros Hpos Hbl. apply mapM_Forall2 in Hbl.
  induction Hbl as [|ib [X y] ibs bl Hf _ IH]; [reflexivity|].
  inversion Hpos as [|? ? Hib Hibs]; subst.
  cbn [map concat snd]. rewrite (IH Hibs).
  rewrite (@fetch_labels dl ib X y Hib Hf).
  unfold labels_at. now rewrite map_app.
Qed.

Lemma Forall_concat_inv {A} (P : A -> Prop) (l : list (list A)) :
  Forall P (concat l) -> Forall (Forall P) l.
Proof.
  induction l as [|x l IH]; cbn [concat]; intros H; constructor.
  - apply Forall_app in H. tauto.
  - apply IH. apply Forall_app in H. tauto.
Qed.

End EpochFacts.

(** X6.  In every epoch each data loader visits every sample of its
    dataset exactly once: the index batches, one after the other, are the
    order the sampler chose, which is a permutation of
    [0 .. len(dataset)-1], and the labels yielded are the targets at these
    indices.  The test loader, which does not shuffle, yields the labels
    in the order of the dataset. *)
Theorem epoch_visits_every_sample
    (ds : FashionMNIST) (dl : DataLoader) (perm : list Z)
    (Hdata : notebook_dataset ds)
    (Hdl : (dl = train_dataloader ds /\
            Permutation perm (range (length (images ds)))) \/
           dl = test_dataloader ds) :
  exists bl, batches dl perm = Ok bl /\
    concat (index_batches dl perm) = sampler dl perm /\
    Permutation (sampler dl perm) (range (length (images ds))) /\
    concat (map snd bl) = labels_at (targets ds) (sampler dl perm) /\
    Permutation (concat (map snd bl)) (targets ds) /\
    (dl = test_dataloader ds -> concat (map snd bl) = targets ds).
Proof.
  assert (Hd : dataset dl = ds) by (destruct Hdl as [[-> _]| ->]; reflexivity).
  assert (Hb : batch_size dl = BATCH_SIZE) by (destruct Hdl as [[-> _]| ->]; reflexivity).
  assert (Hp : shuffle dl = true -> Permutation perm (range (length (images ds)))).
  { destruct Hdl as [[_ Hp]| ->]; [auto|discriminate]. }
  destruct (batches_ok Hdata dl Hd Hb Hp) as (bl & Hbl & _ & _).
  destruct (@sampler_in_range ds dl perm Hd Hp) as [_ Hrange].
  assert (Hpos : (0 < BATCH_SIZE)%nat) by (unfold BATCH_SIZE; lia).
  assert (Hc : concat (index_batches dl perm) = sampler dl perm).
  { unfold index_batches. rewrite Hb.
    apply (batch_sampler_shape Hpos (sampler dl perm)). }
  assert (Hperm : Permutation (sampler dl perm) (range (length (images ds)))).
  { unfold sampler. rewrite Hd. destruct (shuffle dl) eqn:Es; [auto|reflexivity]. }
  assert (Hlab : concat (map snd bl) = labels_at (targets ds) (sampler dl perm)).
  { rewrite <- Hc, <- Hd. apply batches_labels; [|exact Hbl].
    apply Forall_concat_inv. rewrite Hc.
    eapply Forall_impl; [|exact Hrange]. intros i Hi. cbv beta in Hi. lia. }
  assert (Hlen : length (images ds) = length (targets ds)) by apply Hdata.
  exists bl. split; [exact Hbl|]. split; [exact Hc|]. split; [exact Hperm|].
  split; [exact Hlab|]. split.
  - rewrite Hlab. rewrite <- (labels_at_range (targets ds)) at 2.
    unfold labels_at. apply Permutation_map. now rewrite <- Hlen.
  - intros ->. rewrite Hlab. unfold sampler. cbn [test_dataloader shuffle dataset].
    rewrite Hlen. apply labels_at_range.
Qed.

Lemma epoch_visits_every_sample_witness :
  exists bl, batches (train_dataloader two_samples) [1; 0]%Z = Ok bl /\
    concat (index_batches (train_dataloader two_samples) [1; 0]%Z)
    = sampler (train_dataloader two_samples) [1; 0]%Z /\
    Permutation (sampler (train_dataloader two_samples) [1; 0]%Z)
                (range (length (images two_samples))) /\
    concat (map snd bl)
    = labels_at (targets two_samples) (sampler (train_dataloader two_samples) [1; 0]%Z) /\
    Permutation (concat (map snd bl)) (targets two_samples) /\
    (train_dataloader two_samples = test_dataloader two_samples ->
     concat (map snd bl) = targets two_samples).
Proof.
  apply (@epoch_visits_every_sample two_samples (train_dataloader two_samples) [1; 0]%Z).
  - apply blank_dataset_ok. repeat constructor; lia.
  - left. split; [reflexivity|]. apply perm_swap.
Defined.

Section PixelRange.

Local Open Scope R_scope.

Lemma ToTensor_unit_interval (img : raw_image) :
  pixel_bytes img -> Forall (fun x => 0 <= x <= 1) (data (ToTensor img)).
Proof.
  intros H. unfold ToTensor. cbn [data]. apply Forall_map.
  apply Forall_concat. eapply Forall_impl; [|exact H].
  intros row Hrow. eapply Forall_impl; [|exact Hrow].
  intros p [Hlo Hhi]. apply IZR_le in Hlo, Hhi.
  split.
  - apply Rmult_le_reg_r with 255; [lra|].
    unfold Rdiv. rewrite Rmult_assoc, Rinv_l by lra. lra.
  - apply Rmult_le_reg_r with 255; [lra|].
    unfold Rdiv. rewrite Rmult_assoc, Rinv_l by lra. lra.
Qed.

Lemma getitem_transformed (ds : FashionMNIST) (i : Z) (s : tensor * Z) :
  FashionMNIST_getitem ds i = Ok s ->
  exists img, In img (images ds) /\ fst s = transform ds img.
Proof.
  unfold FashionMNIST_getitem.
  destruct (getitem (images ds) i) as [img|] eqn:E1; [|discriminate].
  destruct (getitem (targets ds) i) as [t|]; [|discriminate]. cbn [bind].
  intros H; inversion H; subst s. exists img. split; [|reflexivity].
  eapply getitem_In; eassumption.
Qed.

Lemma fetch_unit_interval (dl : DataLoader) (ib : list Z) (b : tensor * list Z) :
  transform (dataset dl) = ToTensor ->
  Forall pixel_bytes (images (dataset dl)) ->
  fetch dl ib = Ok b -> Forall (fun x => 0 <= x <= 1) (data (fst b)).
Proof.
  intros Ht Hpix Hf. destruct (fetch_inv dl ib Hf) as (samples & Hs & Hst & _).
  destruct (stack_inv _ Hst) as (t0 & rest & _ & _ & ->). cbn [data].
  apply Forall_concat. rewrite !Forall_map.
  apply mapM_Forall2 in Hs. clear Hst Hf.
  induction Hs as [|i s ib samples Hi _ IH]; constructor; [|exact IH].
  destruct (getitem_transformed _ _ Hi) as (img & Hin & ->). rewrite Ht.
  apply ToTensor_unit_interval. rewrite Forall_forall in Hpix. now apply Hpix.
Qed.

Lemma blank_dataset_bytes (tgts : list Z) :
  Forall pixel_bytes (images (blank_dataset tgts)).
Proof.
  apply Forall_forall. intros img Himg. apply repeat_spec in Himg. subst img.
  apply Forall_forall. intros row Hrow. apply repeat_spec in Hrow. subst row.
  apply Forall_forall. intros p Hp. apply repeat_spec in Hp. subst p. lia.
Qed.

End PixelRange.

(** X7.  Every number the data loaders hand to the model lies in
    [[0, 1]]: the images are stored as bytes, [ToTensor()] divides each
    pixel by 255, and batching only concatenates. *)
Theorem batch_pixels_in_unit_interval
    (ds : FashionMNIST) (dl : DataLoader) (perm : list Z)
    (Hdata : notebook_dataset ds)
    (Hpix : Forall pixel_bytes (images ds))
    (Hdl : (dl = train_dataloader ds /\
            Permutation perm (range (length (images ds)))) \/
           dl = test_dataloader ds) :
  exists bl, batches dl perm = Ok bl /\
    Forall (fun b => Forall (fun x => (0 <= x <= 1)%R) (data (fst b))) bl.
Proof.
  assert (Hd : dataset dl = ds) by (destruct Hdl as [[-> _]| ->]; reflexivity).
  assert (Hb : batch_size dl = BATCH_SIZE) by (destruct Hdl as [[-> _]| ->]; reflexivity).
  assert (Hp : shuffle dl = true -> Permutation perm (range (length (images ds)))).
  { destruct Hdl as [[_ Hp]| ->]; [auto|discriminate]. }
  destruct (batches_ok Hdata dl Hd Hb Hp) as (bl & Hbl & _ & _).
  exists bl. split; [exact Hbl|].
  unfold batches in Hbl. apply mapM_Forall2 in Hbl.
  induction Hbl as [|ib b ibs bl Hf _ IH]; constructor; [|exact IH].
  apply (@fetch_unit_interval dl ib b); [|now rewrite Hd|exact Hf].
  rewrite Hd. apply Hdata.
Qed.

Lemma batch_pixels_in_unit_interval_witness :
  exists bl, batches (test_dataloader two_samples) [] = Ok bl /\
    Forall (fun b => Forall (fun x => (0 <= x <= 1)%R) (data (fst b))) bl.
Proof.
  apply (@batch_pixels_in_unit_interval two_samples (test_dataloader two_samples) []).
  - apply blank_dataset_ok. repeat constructor; lia.
  - apply blank_dataset_bytes.
  - right. reflexivity.
Defined.

(* ------------------------------------------------------------------ *)
(** ** Indexing a batch *)

Section Select.

Lemma firstn_skipn_concat {A} (w : nat) (l : list (list A)) (k : nat) :
  Forall (fun r => length r = w) l -> (k < length l)%nat ->
  firstn w (skipn (k * w) (concat l)) = nth k l [].
Proof.
  intros H. revert k. induction H as [|r l Hr _ IH]; intros k Hk; simpl in Hk; [lia|].
  destruct k as [|k]; cbn [concat nth].
  - rewrite Nat.mul_0_l. cbn [skipn]. rewrite firstn_app, Hr, Nat.sub_diag.
    cbn [firstn]. rewrite app_nil_r. apply firstn_all2. lia.
  - rewrite skipn_app, Hr. rewrite skipn_all2 by lia. cbn [app].
    replace (S k * w - w)%nat with (k * w)%nat by lia. apply IH. lia.
Qed.

Lemma rows_nth (n B k : nat) (l : list R) :
  (k < B)%nat -> nth k (rows n B l) [] = firstn n (skipn (k * n) l).
Proof.
  revert l k. induction B as [|B IH]; intros l k Hk; [lia|].
  cbn [rows]. destruct k as [|k]; cbn [nth].
  - reflexivity.
  - rewrite IH by lia. rewrite skipn_skipn. f_equal. f_equal. lia.
Qed.

(** Indexing a stacked batch gives back the tensor that was stacked:
    [torch.stack(ts)[k] = ts[k]]. *)
Lemma select0_stack (ts : list tensor) (X : tensor) (k : nat) (t : tensor) :
  stack ts = Ok X -> Forall wf ts -> nth_error ts k = Some t ->
  select0 X (Z.of_nat k) = Ok t.
Proof.
  intros HX Hwf Hk.
  destruct (stack_inv _ HX) as (t0 & rest & Hts & Hshape & ->).
  assert (Hlt : (k < length ts)%nat) by (apply nth_error_Some; congruence).
  unfold select0. cbn [shape data].
  destruct (Z.ltb_spec (Z.of_nat k) 0) as [Hneg|_]; [lia|].
  destruct (Z.leb_spec 0 (Z.of_nat k)) as [_|Hc]; [|lia].
  destruct (Z.ltb_spec (Z.of_nat k) (Z.of_nat (length ts))) as [_|Hc]; [|lia].
  cbn [andb]. rewrite Nat2Z.id.
  rewrite firstn_skipn_concat.
  - assert (Hin : In t ts) by (eapply nth_error_In; eassumption).
    rewrite Forall_forall in Hshape. rewrite <- (Hshape t Hin).
    change [] with (data (mk_tensor [] [])). rewrite map_nth.
    rewrite (nth_error_nth ts k (mk_tensor [] []) Hk). destruct t; reflexivity.
  - apply Forall_map. rewrite Forall_forall in Hwf, Hshape |- *.
    intros u Hu. rewrite <- (Hshape u Hu). apply Hwf, Hu.
  - now rewrite length_map.
Qed.

Lemma batch_sampler_from_hd {A} (bs : nat) (sampler batch : list A) :
  (length batch < bs)%nat -> batch ++ sampler <> [] ->
  exists rest,
    batch_sampler_from bs false batch sampler = firstn bs (batch ++ sampler) :: rest.
Proof.
  revert batch. induction sampler as [|idx s IH]; intros batch Hlt Hne; cbn [batch_sampler_from].
  - rewrite app_nil_r in *. destruct batch as [|x batch]; [congruence|].
    cbn [length Nat.ltb Nat.leb andb negb]. exists []. f_equal.
    symmetry. apply firstn_all2. lia.
  - destruct (Nat.eqb_spec (length (batch ++ [idx])) bs) as [E|NE].
    + eexists. f_equal.
      change (batch ++ idx :: s) with (batch ++ [idx] ++ s). rewrite app_assoc.
      rewrite firstn_app, E, Nat.sub_diag. cbn [firstn]. rewrite app_nil_r.
      symmetry. apply firstn_all2. lia.
    + destruct (IH (batch ++ [idx])) as (rest & ->).
      * rewrite length_app in *. simpl in *. lia.
      * destruct batch; discriminate.
      * exists rest. now rewrite <- app_assoc.
Qed.

End Select.

(** X8.  The first batch of the training loader and the flatten cell.
    Over a loaded dataset that is not empty, [next(iter(train_dataloader))]
    returns the images and labels of the first [min(len(dataset), 32)]
    indices the sampler drew, as tensors of shapes [[B, 1, 28, 28]] and
    [[B]]; indexing the batch with 0 gives back the image of the first
    index drawn, of shape [[1, 28, 28]], and [nn.Flatten()] maps it to a
    tensor of shape [[1, 784]] with the same 784 values. *)
Theorem first_batch_flattened
    (ds : FashionMNIST) (perm : list Z)
    (Hdata : notebook_dataset ds)
    (Hperm : Permutation perm (range (length (images ds))))
    (Hne : images ds <> []) :
  let B := Nat.min (length (images ds)) BATCH_SIZE in
  exists X y i0 img label output,
    first_batch (train_dataloader ds) perm = Ok (X, y) /\
    shape X = [B; 1; 28; 28]%nat /\ length y = B /\
    nth_error perm 0 = Some i0 /\
    FashionMNIST_getitem ds i0 = Ok (img, label) /\
    nth_error y 0 = Some label /\
    flatten_cell X = Ok (img, output) /\
    shape img = [1; 28; 28]%nat /\
    shape output = [1; 784]%nat /\ data output = data img /\ wf output.
Proof.
  intros B.
  set (dl := train_dataloader ds).
  assert (Hp : shuffle dl = true -> Permutation perm (range (length (images ds)))) by auto.
  destruct (@sampler_in_range ds dl perm eq_refl Hp) as [Hlen Hrange].
  change (sampler dl perm) with perm in Hlen, Hrange.
  assert (Hpne : [] ++ perm <> []).
  { intros E. cbn [app] in E. rewrite E in Hlen. simpl in Hlen.
    destruct (images ds); [congruence|discriminate]. }
  destruct (@batch_sampler_from_hd _ BATCH_SIZE perm []) as (rest & Hhd);
    [unfold BATCH_SIZE; simpl; lia|exact Hpne|].
  cbn [app] in Hhd.
  assert (Hib : index_batches dl perm = firstn BATCH_SIZE perm :: rest) by exact Hhd.
  destruct perm as [|i0 perm']; [now cbn [app] in Hpne|].
  set (ib := firstn BATCH_SIZE (i0 :: perm')) in *.
  assert (Hibne : ib <> []) by (unfold ib, BATCH_SIZE; discriminate).
  assert (Hibr : Forall (fun i => (0 <= i < FashionMNIST_len (dataset dl))%Z) ib).
  { apply Forall_forall. intros i Hi. rewrite Forall_forall in Hrange.
    apply Hrange. rewrite <- (firstn_skipn BATCH_SIZE (i0 :: perm')).
    apply in_or_app. left. exact Hi. }
  destruct (fetch_ok dl Hdata Hibne Hibr) as (X & y & Hf & HX & HwX & Hy & _).
  assert (Hiblen : length ib = B).
  { unfold ib, B. rewrite length_firstn, Hlen. apply Nat.min_comm. }
  destruct (fetch_inv dl ib Hf) as (samples & Hs & Hst & Hys).
  cbn [fst snd] in Hst, Hys.
  assert (Hsok : Forall sample_ok samples).
  { apply mapM_Forall2 in Hs. clear - Hs Hdata.
    induction Hs as [|i s l l' Hi _ IH]; constructor; [|exact IH].
    eapply FashionMNIST_getitem_sample; eassumption. }
  assert (Hhead : exists s0 samples', samples = s0 :: samples' /\
                    FashionMNIST_getitem ds i0 = Ok s0).
  { assert (Eib : ib = i0 :: firstn 31 perm') by reflexivity.
    rewrite Eib in Hs. cbn [mapM] in Hs.
    destruct (FashionMNIST_getitem (dataset dl) i0) as [s0|] eqn:E0; [|discriminate].
    cbn [bind] in Hs.
    destruct (mapM (FashionMNIST_getitem (dataset dl)) (firstn 31 perm')) as [ss|];
      [|discriminate].
    cbn [bind] in Hs. inversion Hs; subst samples. exists s0, ss. auto. }
  destruct Hhead as ([img label] & samples' & -> & Hget).
  pose proof (Forall_inv Hsok) as (Hsi & Hwi & _). cbn [fst] in Hsi, Hwi.
  assert (Hsel : select0 X 0 = Ok img).
  { apply (@select0_stack (map fst ((img, label) :: samples')) X 0 img Hst);
      [|reflexivity].
    apply Forall_map. eapply Forall_impl; [|exact Hsok]. intros s Hs'. apply Hs'. }
  exists X, y, i0, img, label, (mk_tensor [1; 784]%nat (data img)).
  split; [unfold first_batch; now rewrite Hib|].
  split; [now rewrite HX, Hiblen|]. split; [now rewrite Hy|].
  split; [reflexivity|]. split; [exact Hget|]. split; [now rewrite Hys|].
  split.
  { unfold flatten_cell. rewrite Hsel. cbn [bind]. unfold Flatten. rewrite Hsi.
    reflexivity. }
  split; [exact Hsi|]. split; [reflexivity|]. split; [reflexivity|].
  unfold wf in *. cbn [shape data]. rewrite Hwi, Hsi. reflexivity.
Qed.

Lemma first_batch_flattened_witness :
  let B := Nat.min (length (images two_samples)) BATCH_SIZE in
  exists X y i0 img label output,
    first_batch (train_dataloader two_samples) [1; 0]%Z = Ok (X, y) /\
    shape X = [B; 1; 28; 28]%nat /\ length y = B /\
    nth_error [1; 0]%Z 0 = Some i0 /\
    FashionMNIST_getitem two_samples i0 = Ok (img, label) /\
    nth_error y 0 = Some label /\
    flatten_cell X = Ok (img, output) /\
    shape img = [1; 28; 28]%nat /\
    shape output = [1; 784]%nat /\ data output = data img /\ wf output.
Proof.
  apply (@first_batch_flattened two_samples [1; 0]%Z).
  - apply blank_dataset_ok. repeat constructor; lia.
  - apply perm_swap.
  - discriminate.
Defined.

(* ------------------------------------------------------------------ *)
(** ** The model class on arbitrary inputs *)

(** X9.  Which inputs [FashionMNISTBaselineModel] accepts, for any
    [input_shape], [hidden_units] and [output_shape].  A tensor of fewer
    than two dimensions is refused by [nn.Flatten()] with [IndexError]; a
    tensor [[B, ...]] whose trailing dimensions do not multiply to
    [input_shape] is refused by the first linear layer with
    [RuntimeError]; every other tensor is accepted, and the output has
    shape [[B, output_shape]]. *)
Theorem baseline_model_accepts
    (input_shape hidden_units output_shape : nat) (p : parameters) (x : tensor) :
  let model := FashionMNISTBaselineModel_init input_shape hidden_units output_shape p in
  match shape x with
  | B :: d :: rest =>
      if Nat.eqb (numel (d :: rest)) input_shape
      then exists out, forward model x = Ok out /\
                       shape out = [B; output_shape] /\ wf out
      else forward model x = Raise RuntimeError
  | _ => forward model x = Raise IndexError
  end.
Proof.
  intros model. subst model. unfold forward, FashionMNISTBaselineModel_init.
  cbn [layer_stack Sequential layer_forward]. unfold Flatten.
  destruct (shape x) as [|B [|d rest]]; try reflexivity. cbn [bind].
  destruct (Nat.eqb_spec (numel (d :: rest)) input_shape) as [E|NE].
  - rewrite (@Linear_forward_2d _ _ B) by (cbn [shape nn_Linear in_features]; now rewrite E).
    cbn [bind].
    rewrite (@Linear_forward_2d _ _ B) by reflexivity. cbn [bind].
    eexists. split; [reflexivity|]. split; [reflexivity|].
    unfold wf. cbn [shape data].
    destruct (nn_Linear_rows hidden_units output_shape (w2 p) (b2 p)) as (_ & Hw & Hb).
    rewrite affine_rows_wf by (rewrite Hw, Hb; reflexivity).
    rewrite rows_length, Hb. cbn [nn_Linear out_features numel fold_right]. lia.
  - unfold Linear_forward at 1. cbn [shape rev app nn_Linear in_features].
    destruct (Nat.eqb_spec (numel (d :: rest)) input_shape) as [E|_]; [contradiction|].
    reflexivity.
Qed.

(** A 32x32 image is refused by the notebook's model. *)
Example model_0_refuses_32x32 (p : parameters) (pixels : list R) :
  forward (model_0 p) (mk_tensor [1; 1; 32; 32]%nat pixels) = Raise RuntimeError.
Proof. reflexivity. Qed.

(** X10.  For an image with a single channel the model needs no batch
    dimension: [nn.Flatten()] keeps the first dimension, which then plays
    the part of a batch of one, so the model returns on the image itself
    what it returns on [torch.unsqueeze(img, dim=0)]. *)
Theorem forward_unsqueeze_single_channel
    (input_shape hidden_units output_shape : nat) (p : parameters)
    (img : tensor) (H W : nat) (rest : list nat)
    (Himg : shape img = 1%nat :: H :: W :: rest) :
  let model := FashionMNISTBaselineModel_init input_shape hidden_units output_shape p in
  forward model (unsqueeze0 img) = forward model img.
Proof.
  intros model. subst model. unfold forward, FashionMNISTBaselineModel_init.
  cbn [layer_stack Sequential layer_forward]. unfold Flatten, unsqueeze0.
  cbn [shape data]. rewrite Himg.
  change (numel (1%nat :: H :: W :: rest)) with (1 * numel (H :: W :: rest))%nat.
  now rewrite Nat.mul_1_l.
Qed.

Lemma forward_unsqueeze_single_channel_witness :
  forward (model_0 class0_parameters) (unsqueeze0 (ToTensor blank_image))
  = forward (model_0 class0_parameters) (ToTensor blank_image).
Proof.
  apply (@forward_unsqueeze_single_channel 784 10 (length class_names)
           class0_parameters (ToTensor blank_image) 28 28 []).
  reflexivity.
Defined.

(** X11.  The model treats the samples of a batch independently: row
    [k] of the logits of a batch is what the model returns on sample [k]
    alone, presented as a batch of one. *)
Theorem forward_batch_rows (p : parameters) (X : tensor) (B k : nat)
    (HX : shape X = [B; 1; 28; 28]%nat) (Hk : (k < B)%nat) :
  exists out xk outk,
    forward (model_0 p) X = Ok out /\
    select0 X (Z.of_nat k) = Ok xk /\ shape xk = [1; 28; 28]%nat /\
    forward (model_0 p) (unsqueeze0 xk) = Ok outk /\
    shape outk = [1; 10]%nat /\
    select0 out (Z.of_nat k) = Ok (squeeze outk).
Proof.
  pose proof (forward_batch_value p X HX) as Hout. cbv zeta in Hout.
  set (L1 := nn_Linear 784 10 (w1 p) (b1 p)) in *.
  set (L2 := nn_Linear 10 10 (w2 p) (b2 p)) in *.
  set (f := fun r => affine (weight L2) (bias L2) (affine (weight L1) (bias L1) r)).
  assert (Hf : forall r, length (f r) = 10%nat).
  { intros r. unfold f.
    destruct (nn_Linear_rows 10 10 (w2 p) (b2 p)) as (_ & Hw & Hb).
    fold L2 in Hw, Hb. rewrite affine_length; lia. }
  set (xk := mk_tensor [1; 28; 28]%nat (firstn 784 (skipn (k * 784) (data X)))).
  assert (Hsel : select0 X (Z.of_nat k) = Ok xk).
  { unfold select0. rewrite HX.
    destruct (Z.ltb_spec (Z.of_nat k) 0) as [Hneg|_]; [lia|].
    destruct (Z.leb_spec 0 (Z.of_nat k)) as [_|Hc]; [|lia].
    destruct (Z.ltb_spec (Z.of_nat k) (Z.of_nat B)) as [_|Hc]; [|lia].
    cbn [andb]. rewrite Nat2Z.id. reflexivity. }
  pose proof (@forward_batch_value p (unsqueeze0 xk) 1 eq_refl) as Hk1.
  cbv zeta in Hk1. fold L1 L2 in Hk1.
  eexists. exists xk. eexists.
  split; [exact Hout|]. split; [exact Hsel|]. split; [reflexivity|].
  split; [exact Hk1|]. split; [reflexivity|].
  unfold select0, squeeze. cbn [shape data filter Nat.eqb negb numel fold_right].
  destruct (Z.ltb_spec (Z.of_nat k) 0) as [Hneg|_]; [lia|].
  destruct (Z.leb_spec 0 (Z.of_nat k)) as [_|Hc]; [|lia].
  destruct (Z.ltb_spec (Z.of_nat k) (Z.of_nat B)) as [_|Hc]; [|lia].
  cbn [andb]. rewrite Nat2Z.id. f_equal. f_equal.
  rewrite !map_map. fold f.
  rewrite Nat.mul_1_r.
  rewrite (@firstn_skipn_concat _ 10).
  - rewrite (nth_indep _ [] (f [])) by (now rewrite length_map, rows_length).
    rewrite map_nth.
    rewrite rows_nth by exact Hk. unfold unsqueeze0, xk. cbn [data rows map concat].
      rewrite app_nil_r. rewrite firstn_firstn. reflexivity.
  - apply Forall_map, Forall_forall. intros r _. apply Hf.
  - now rewrite length_map, rows_length.
Qed.

Lemma forward_batch_rows_witness :
  exists out xk outk,
    forward (model_0 ramp_parameters) two_images = Ok out /\
    select0 two_images (Z.of_nat 1) = Ok xk /\
    shape xk = [1; 28; 28]%nat /\
    forward (model_0 ramp_parameters) (unsqueeze0 xk) = Ok outk /\
    shape outk = [1; 10]%nat /\
    select0 out (Z.of_nat 1) = Ok (squeeze outk).
Proof.
  apply (@forward_batch_rows ramp_parameters two_images 2 1).
  - reflexivity.
  - lia.
Defined.

(* ------------------------------------------------------------------ *)
(** ** The predicted class *)

Section Argmax.

Local Open Scope R_scope.

(** The scan of [argmax_from], after the entries [pre] with the best of
    them at index [bn], ends at the first largest entry of the whole
    row. *)
Lemma argmax_from_spec (l pre : list R) (best : R) (bn : nat) :
  (bn < length pre)%nat -> nth bn pre 0 = best ->
  (forall j, (j < length pre)%nat -> nth j pre 0 <= best) ->
  (forall j, (j < bn)%nat -> nth j pre 0 < best) ->
  exists c : nat,
    argmax_from best (Z.of_nat bn) (Z.of_nat (length pre)) l = Z.of_nat c /\
    (c < length (pre ++ l))%nat /\
    (forall j, (j < length (pre ++ l))%nat -> nth j (pre ++ l) 0 <= nth c (pre ++ l) 0) /\
    (forall j, (j < c)%nat -> nth j (pre ++ l) 0 < nth c (pre ++ l) 0).
Proof.
  revert pre best bn. induction l as [|x l IH]; intros pre best bn Hbn Hbest Hall Hfirst.
  - exists bn. rewrite app_nil_r. cbn [argmax_from]. rewrite Hbest. auto.
  - cbn [argmax_from].
    assert (Hlen : (Z.of_nat (length pre) + 1)%Z = Z.of_nat (length (pre ++ [x]))).
    { rewrite length_app. simpl. lia. }
    assert (Happ : pre ++ x :: l = (pre ++ [x]) ++ l) by now rewrite <- app_assoc.
    rewrite Hlen, Happ.
    destruct (Rlt_dec best x) as [Hlt|Hge].
    + apply IH.
      * rewrite length_app. simpl. lia.
      * rewrite app_nth2 by lia. now rewrite Nat.sub_diag.
      * intros j Hj. rewrite length_app in Hj. simpl in Hj.
        destruct (Nat.lt_ge_cases j (length pre)) as [Hj'|Hj'].
        -- rewrite app_nth1 by exact Hj'. specialize (Hall j Hj'). lra.
        -- replace j with (length pre) by lia.
           rewrite app_nth2 by lia. rewrite Nat.sub_diag. simpl. lra.
      * intros j Hj. rewrite app_nth1 by exact Hj. specialize (Hall j Hj). lra.
    + apply IH.
      * rewrite length_app. simpl. lia.
      * now rewrite app_nth1 by exact Hbn.
      * intros j Hj. rewrite length_app in Hj. simpl in Hj.
        destruct (Nat.lt_ge_cases j (length pre)) as [Hj'|Hj'].
        -- rewrite app_nth1 by exact Hj'. now apply Hall.
        -- replace j with (length pre) by lia.
           rewrite app_nth2 by lia. rewrite Nat.sub_diag. simpl. lra.
      * intros j Hj. rewrite app_nth1 by lia. now apply Hfirst.
Qed.

Lemma argmax_row_spec (l : list R) :
  l <> [] ->
  exists c : nat,
    argmax_row l = Z.of_nat c /\ (c < length l)%nat /\
    (forall j, (j < length l)%nat -> nth j l 0 <= nth c l 0) /\
    (forall j, (j < c)%nat -> nth j l 0 < nth c l 0).
Proof.
  destruct l as [|x l]; [congruence|]. intros _. unfold argmax_row.
  apply (@argmax_from_spec l [x] x 0%nat).
  - simpl. lia.
  - reflexivity.
  - intros j Hj. simpl in Hj. replace j with 0%nat by lia. simpl. lra.
  - intros j Hj. lia.
Qed.

Lemma rows_row_length (n B : nat) (l : list R) :
  length l = (B * n)%nat -> Forall (fun r => length r = n) (rows n B l).
Proof.
  revert l. induction B as [|B IH]; intros l Hl; cbn [rows]; constructor.
  - rewrite length_firstn. lia.
  - apply IH. rewrite length_skipn. lia.
Qed.

End Argmax.

(** X12.  [test_pred.argmax(dim=1)] on logits of shape [[B, C]] returns
    one class per sample: an index below [C] whose logit is the largest
    of the sample's row, and the first such index when several logits
    are equal. *)
Theorem argmax_dim1_largest (t : tensor) (B C : nat)
    (Ht : shape t = [B; C]) (HC : C <> 0%nat) (Hw : wf t) :
  exists pred, argmax_dim1 t = Ok pred /\ length pred = B /\
    forall k, (k < B)%nat ->
      exists c : nat,
        nth k pred 0%Z = Z.of_nat c /\ (c < C)%nat /\
        (forall j, (j < C)%nat ->
           (nth j (nth k (rows C B (data t)) []) 0
            <= nth c (nth k (rows C B (data t)) []) 0)%R) /\
        (forall j, (j < c)%nat ->
           (nth j (nth k (rows C B (data t)) []) 0
            < nth c (nth k (rows C B (data t)) []) 0)%R).
Proof.
  unfold argmax_dim1. rewrite Ht.
  destruct (Nat.eqb_spec C 0) as [E|_]; [contradiction|].
  eexists. split; [reflexivity|]. split; [now rewrite length_map, rows_length|].
  intros k Hk.
  change 0%Z with (argmax_row []). rewrite map_nth.
  assert (Hrow : length (nth k (rows C B (data t)) []) = C).
  { assert (Hall : Forall (fun r => length r = C) (rows C B (data t))).
    { apply rows_row_length. unfold wf in Hw. rewrite Hw, Ht.
      cbn [numel fold_right]. lia. }
    rewrite Forall_forall in Hall. apply Hall. apply nth_In.
    now rewrite rows_length. }
  destruct (@argmax_row_spec (nth k (rows C B (data t)) [])) as (c & Hc & Hlt & Hmax & Hfst).
  { intros E. rewrite E in Hrow. simpl in Hrow. congruence. }
  exists c. rewrite Hrow in Hlt, Hmax. auto.
Qed.

Lemma argmax_dim1_largest_witness :
  exists pred, argmax_dim1 (mk_tensor [2; 3]%nat [1; 5; 5; 0; -1; -2]%R) = Ok pred /\
    length pred = 2%nat /\
    forall k, (k < 2)%nat ->
      exists c : nat,
        nth k pred 0%Z = Z.of_nat c /\ (c < 3)%nat /\
        (forall j, (j < 3)%nat ->
           (nth j (nth k (rows 3 2 [1; 5; 5; 0; -1; -2]%R) []) 0
            <= nth c (nth k (rows 3 2 [1; 5; 5; 0; -1; -2]%R) []) 0)%R) /\
        (forall j, (j < c)%nat ->
           (nth j (nth k (rows 3 2 [1; 5; 5; 0; -1; -2]%R) []) 0
            < nth c (nth k (rows 3 2 [1; 5; 5; 0; -1; -2]%R) []) 0)%R).
Proof.
  apply (@argmax_dim1_largest (mk_tensor [2; 3]%nat [1; 5; 5; 0; -1; -2]%R) 2 3).
  - reflexivity.
  - discriminate.
  - reflexivity.
Defined.

Section MakePredictions.

(** What [make_predictions] returns for a model with [C] output
    classes. *)
Lemma make_predictions_value (model : tensor -> result tensor)
    (img logits : tensor) (C : nat) :
  model (unsqueeze0 img) = Ok logits -> shape logits = [1; C]%nat -> wf logits ->
  make_predictions model img
  = Ok (if Nat.eqb C 1 then mk_tensor [1]%nat [1%R]
        else mk_tensor [1; C]%nat (softmax (data logits))).
Proof.
  intros Hl Hs Hw. unfold make_predictions. rewrite Hl. cbn [bind].
  assert (Hlen : length (data logits) = C).
  { unfold wf in Hw. rewrite Hs in Hw. unfold numel in Hw.
    cbn [fold_right] in Hw. lia. }
  destruct (Nat.eqb_spec C 1) as [->|NE].
  - unfold squeeze, softmax_dim0. rewrite Hs. cbn [filter Nat.eqb negb shape data].
    destruct (data logits) as [|x [|x' l]]; try discriminate. reflexivity.
  - assert (Hsq : softmax_dim0 (squeeze logits) = mk_tensor [C] (softmax (data logits))).
    { apply (@softmax_dim0_vector (squeeze logits) C).
      - unfold squeeze. cbn [shape]. rewrite Hs. cbn [filter Nat.eqb negb].
        destruct (Nat.eqb_spec C 1) as [E|_]; [contradiction|]. reflexivity.
      - unfold wf, squeeze. cbn [shape data]. rewrite Hs. cbn [filter Nat.eqb negb].
        destruct (Nat.eqb_spec C 1) as [E|_]; [contradiction|].
        cbn [negb]. unfold numel. cbn [fold_right]. lia. }
    rewrite Hsq. unfold stack. cbn. rewrite app_nil_r. reflexivity.
Qed.

End MakePredictions.

(** X13.  The prediction cell succeeds for every draw of the random
    index other than [len(data)]: it takes the sample at that index, and
    prints as predicted class the first index of the largest of the ten
    probabilities [make_predictions] returns for that sample, which is a
    valid index of [class_names]; the ground-truth label it keeps is the
    target stored at the index, and names a class as well. *)
Theorem prediction_cell_succeeds
    (model : tensor -> result tensor) (ds : FashionMNIST) (r : Z)
    (Hmodel : ten_class_model model) (Hdata : notebook_dataset ds)
    (Hdraw : random_garment_idx ds r <> FashionMNIST_len ds) :
  exists img label probs (c : nat) name actual,
    FashionMNIST_getitem ds (random_garment_idx ds r) = Ok (img, label) /\
    make_predictions model img = Ok probs /\ shape probs = [1; 10]%nat /\
    prediction_cell model ds r = Ok (Z.of_nat c, name, label) /\
    (c < 10)%nat /\
    (forall j, (j < 10)%nat -> (nth j (data probs) 0 <= nth c (data probs) 0)%R) /\
    (forall j, (j < c)%nat -> (nth j (data probs) 0 < nth c (data probs) 0)%R) /\
    getitem class_names (Z.of_nat c) = Ok name /\
    label = nth (Z.to_nat (random_garment_idx ds r)) (targets ds) 0%Z /\
    getitem class_names label = Ok actual.
Proof.
  pose proof (FashionMNIST_len_nonneg ds) as Hn.
  pose proof (@randint_bounds 0 (FashionMNIST_len ds) r Hn) as Hb.
  fold (random_garment_idx ds r) in Hb.
  set (idx := random_garment_idx ds r) in *.
  destruct (@FashionMNIST_getitem_ok ds idx Hdata) as ([img label] & Hget & Hok);
    [lia|].
  destruct Hok as (Hs & Hw & Hl). cbn [fst snd] in Hs, Hw, Hl.
  destruct (Hmodel (unsqueeze0 img) 1%nat) as (logits & Hlg & Hsl & Hwl).
  { unfold unsqueeze0. cbn [shape]. now rewrite Hs. }
  { unfold wf, unsqueeze0 in *. cbn [shape data].
    change (numel (1%nat :: shape img)) with (1 * numel (shape img))%nat. lia. }
  assert (Hlen : length (data logits) = 10%nat).
  { unfold wf in Hwl. rewrite Hsl in Hwl. exact Hwl. }
  pose proof (make_predictions_value model img Hlg Hsl Hwl) as Hmp.
  cbn [Nat.eqb] in Hmp.
  set (probs := softmax (data logits)) in *.
  assert (Hplen : length probs = 10%nat) by (unfold probs; now rewrite softmax_length).
  destruct (@argmax_row_spec probs) as (c & Hc & Hlt & Hmax & Hfst).
  { intros E. rewrite E in Hplen. discriminate. }
  rewrite Hplen in Hlt, Hmax.
  destruct (@getitem_in_range _ class_names (Z.of_nat c)) as (name & Hname & _).
  { unfold len. simpl. lia. }
  destruct (@getitem_in_range _ class_names label) as (actual & Hactual & _).
  { unfold len. simpl. lia. }
  exists img, label, (mk_tensor [1; 10]%nat probs), c, name, actual. cbn [shape data].
  split; [exact Hget|]. split; [exact Hmp|]. split; [reflexivity|]. split.
  { unfold prediction_cell. fold idx. rewrite Hget. cbn [bind].
    rewrite Hmp. cbn [bind].
    unfold argmax_dim1. cbn [shape data Nat.eqb rows map].
    rewrite firstn_all2 by lia.
    rewrite Hc. cbn [bind item]. rewrite Hname. reflexivity. }
  split; [exact Hlt|]. split; [exact Hmax|]. split; [exact Hfst|].
  split; [exact Hname|]. split; [|exact Hactual].
  apply (@FashionMNIST_getitem_label ds idx (img, label)); [lia|exact Hget].
Qed.

Lemma prediction_cell_succeeds_witness :
  exists img label probs (c : nat) name actual,
    FashionMNIST_getitem two_samples (random_garment_idx two_samples 1)
    = Ok (img, label) /\
    make_predictions (forward (model_0 class0_parameters)) img = Ok probs /\
    shape probs = [1; 10]%nat /\
    prediction_cell (forward (model_0 class0_parameters)) two_samples 1
    = Ok (Z.of_nat c, name, label) /\
    (c < 10)%nat /\
    (forall j, (j < 10)%nat -> (nth j (data probs) 0 <= nth c (data probs) 0)%R) /\
    (forall j, (j < c)%nat -> (nth j (data probs) 0 < nth c (data probs) 0)%R) /\
    getitem class_names (Z.of_nat c) = Ok name /\
    label = nth (Z.to_nat (random_garment_idx two_samples 1)) (targets two_samples) 0%Z /\
    getitem class_names label = Ok actual.
Proof.
  apply (@prediction_cell_succeeds (forward (model_0 class0_parameters)) two_samples 1).
  - apply model_0_ten_classes.
  - apply blank_dataset_ok. repeat constructor; lia.
  - vm_compute. discriminate.
Defined.

(** X14.  [make_predictions] squeezes every dimension of size 1 out of
    the logits, not only the batch dimension.  For a model with [C]
    output classes, [C] other than 1, it returns the softmax of the
    logits with shape [[1, C]]; for a model with a single output it
    returns the constant 1 with shape [[1]], a tensor without a class
    dimension, on which the [argmax(dim=1)] of the prediction cell raises
    [IndexError]. *)
Theorem make_predictions_squeeze
    (model : tensor -> result tensor) (img logits : tensor) (C : nat)
    (Hlogits : model (unsqueeze0 img) = Ok logits)
    (Hshape : shape logits = [1; C]%nat) (Hwf : wf logits) :
  exists probs, make_predictions model img = Ok probs /\
    (C <> 1%nat -> shape probs = [1; C]%nat /\ data probs = softmax (data logits)) /\
    (C = 1%nat -> shape probs = [1]%nat /\ data probs = [1%R] /\
                  argmax_dim1 probs = Raise IndexError).
Proof.
  eexists. split; [apply (make_predictions_value model img Hlogits Hshape Hwf)|].
  destruct (Nat.eqb_spec C 1) as [E|NE]; split; intros H; try contradiction.
  - repeat split; reflexivity.
  - split; reflexivity.
Qed.

Lemma make_predictions_squeeze_witness :
  exists probs,
    make_predictions (fun _ => Ok (mk_tensor [1; 1]%nat [2%R])) (ToTensor blank_image)
    = Ok probs /\
    (1%nat <> 1%nat ->
     shape probs = [1; 1]%nat /\ data probs = softmax (data (mk_tensor [1; 1]%nat [2%R]))) /\
    (1%nat = 1%nat -> shape probs = [1]%nat /\ data probs = [1%R] /\
                      argmax_dim1 probs = Raise IndexError).
Proof.
  apply (@make_predictions_squeeze (fun _ => Ok (mk_tensor [1; 1]%nat [2%R]))
           (ToTensor blank_image) (mk_tensor [1; 1]%nat [2%R]) 1).
  - reflexivity.
  - reflexivity.
  - reflexivity.
Defined.

(* ------------------------------------------------------------------ *)
(** ** Showing a sample *)

Section Indexing.

Local Open Scope Z_scope.

(** Python's indexing: the indices [-n .. n-1] address the elements,
    [i] and [i - n] the same one; every other index raises. *)
Lemma getitem_valid {A} (l : list A) (i : Z) (d : A) :
  - len l <= i < len l ->
  getitem l i = Ok (nth (Z.to_nat (i mod len l)) l d).
Proof.
  intros H. unfold getitem.
  assert (Hj : (if i <? 0 then len l + i else i) = i mod len l).
  { destruct (Z.ltb_spec i 0).
    - apply (Z.mod_unique_pos _ _ (-1)); lia.
    - symmetry. apply Z.mod_small. lia. }
  rewrite Hj.
  assert (Hr : 0 <= i mod len l < len l) by (apply Z.mod_pos_bound; lia).
  destruct (Z.leb_spec 0 (i mod len l)); [|lia].
  destruct (Z.ltb_spec (i mod len l) (len l)); [|lia]. cbn [andb].
  destruct (nth_error l (Z.to_nat (i mod len l))) as [x|] eqn:E.
  - f_equal. symmetry. now apply nth_error_nth.
  - apply nth_error_None in E. unfold len in *. lia.
Qed.

Lemma getitem_invalid {A} (l : list A) (i : Z) :
  ~ (- len l <= i < len l) -> getitem l i = Raise IndexError.
Proof.
  intros H. unfold getitem.
  destruct (Z.ltb_spec i 0).
  - destruct (Z.leb_spec 0 (len l + i)); [lia|]. reflexivity.
  - destruct (Z.leb_spec 0 i); [|lia].
    destruct (Z.ltb_spec i (len l)); [lia|]. reflexivity.
Qed.

End Indexing.

(** X15.  The cells that show a sample, [train_data[3]] and
    [test_data[random_garment_idx]]: for a dataset of [n] samples the
    cell succeeds exactly for the indices [-n .. n-1], a negative index
    counting from the end, and raises [IndexError] for every other one;
    when it succeeds the image handed to [imshow] is the stored image as a
    28x28 matrix and the title is the class name of the stored label. *)
Theorem visualise_sample_outcome (ds : FashionMNIST) (index : Z)
    (Hdata : notebook_dataset ds) :
  let n := FashionMNIST_len ds in
  let k := Z.to_nat (index mod n) in
  ((- n <= index < n)%Z ->
   exists image name,
     visualise_sample ds index = Ok (image, name) /\
     shape image = [28; 28]%nat /\ wf image /\
     data image = data (ToTensor (nth k (images ds) [])) /\
     nth_error class_names (Z.to_nat (nth k (targets ds) 0%Z)) = Some name) /\
  (~ (- n <= index < n)%Z -> visualise_sample ds index = Raise IndexError).
Proof.
  intros n k. destruct Hdata as [Ht (Hlen & Himg & Htg)].
  assert (Hn : n = len (targets ds)).
  { unfold n, FashionMNIST_len, len. now rewrite Hlen. }
  unfold visualise_sample, FashionMNIST_getitem. split.
  - intros Hi.
    rewrite (@getitem_valid _ (images ds) index []) by exact Hi.
    cbn [bind]. rewrite (@getitem_valid _ (targets ds) index 0%Z) by (rewrite <- Hn; exact Hi).
    cbn [bind]. rewrite <- Hn. fold (FashionMNIST_len ds). fold n. fold k.
    assert (Hk : (k < length (images ds))%nat).
    { assert (0 <= index mod n < n)%Z by (apply Z.mod_pos_bound; lia).
      unfold k. unfold n, FashionMNIST_len, len in *. lia. }
    assert (Hin : In (nth k (images ds) []) (images ds)) by now apply nth_In.
    assert (Hint : In (nth k (targets ds) 0%Z) (targets ds)).
    { apply nth_In. now rewrite <- Hlen. }
    rewrite Forall_forall in Himg, Htg.
    destruct (ToTensor_28x28 (Himg _ Hin)) as [Hs Hw].
    specialize (Htg _ Hint). cbv beta in Htg.
    destruct (@getitem_in_range _ class_names (nth k (targets ds) 0%Z))
      as (name & Hname & Hnth).
    { unfold len. simpl. lia. }
    rewrite Hname. cbn [bind]. rewrite Ht.
    exists (squeeze (ToTensor (nth k (images ds) []))), name.
    split; [reflexivity|]. unfold squeeze. cbn [shape data]. rewrite Hs.
    split; [reflexivity|]. split; [|split; [reflexivity|exact Hnth]].
    unfold wf in *. cbn [shape data]. rewrite Hw, Hs. reflexivity.
  - intros Hi. rewrite (@getitem_invalid _ (images ds) index) by exact Hi.
    reflexivity.
Qed.

Lemma visualise_sample_outcome_witness :
  let n := FashionMNIST_len two_samples in
  let k := Z.to_nat ((-1) mod n) in
  ((- n <= -1 < n)%Z ->
   exists image name,
     visualise_sample two_samples (-1) = Ok (image, name) /\
     shape image = [28; 28]%nat /\ wf image /\
     data image = data (ToTensor (nth k (images two_samples) [])) /\
     nth_error class_names (Z.to_nat (nth k (targets two_samples) 0%Z)) = Some name) /\
  (~ (- n <= -1 < n)%Z -> visualise_sample two_samples (-1) = Raise IndexError).
Proof.
  apply (@visualise_sample_outcome two_samples (-1)).
  apply blank_dataset_ok. repeat constructor; lia.
Defined.

(* ------------------------------------------------------------------ *)
(** ** The loss *)

Section Loss.

Local Open Scope R_scope.

Lemma sum_exp_nonneg (l : list R) : 0 <= sum (map exp l).
Proof.
  induction l as [|x l IH]; cbn [map sum]; [lra|].
  pose proof (exp_pos x). lra.
Qed.

Lemma exp_le_sum_exp (l : list R) (j : nat) :
  (j < length l)%nat -> exp (nth j l 0) <= sum (map exp l).
Proof.
  revert j. induction l as [|x l IH]; intros j Hj; simpl in Hj; [lia|].
  cbn [map sum]. destruct j as [|j]; cbn [nth].
  - pose proof (sum_exp_nonneg l). lra.
  - pose proof (exp_pos x). specialize (IH j). assert (j < length l)%nat by lia.
    specialize (IH H0). lra.
Qed.

Lemma ln_monotone (x y : R) : 0 < x -> x <= y -> ln x <= ln y.
Proof.
  intros Hx [Hlt | ->]; [|lra]. apply Rlt_le. now apply ln_increasing.
Qed.

Lemma sum_nonneg (l : list R) : Forall (fun v => 0 <= v) l -> 0 <= sum l.
Proof. induction 1; cbn [sum]; lra. Qed.

(** The negative log-likelihood of a row of [C] logits is not
    negative. *)
Lemma nll_rows_sign (C : nat) (rws : list (list R)) (y : list Z) (ls : list R) :
  Forall (fun r => length r = C) rws ->
  nll_rows C rws y = Ok ls ->
  length ls = Nat.min (length rws) (length y) /\
  Forall (fun v => 0 <= v) ls.
Proof.
  intros Hr. revert y ls. induction Hr as [|row rws Hrow _ IH]; intros y ls;
    cbn [nll_rows].
  - intros H; inversion H; subst ls. repeat split; constructor.
  - destruct y as [|t y].
    + intros H; inversion H; subst ls. repeat split; constructor.
    + destruct (Z.leb_spec 0 t) as [H0|]; [|discriminate].
      destruct (Z.ltb_spec t (Z.of_nat C)) as [HC|]; [|discriminate]. cbn [andb].
      destruct (nll_rows C rws y) as [ls'|] eqn:E; [|discriminate]. cbn [bind].
      intros H; inversion H; subst ls. clear H.
      destruct (IH y ls' E) as (Hlen & Hnn).
      assert (Ht : (Z.to_nat t < length row)%nat) by lia.
      assert (Hne : row <> []) by (intros ->; simpl in Ht; lia).
      pose proof (sum_exp_pos Hne) as HS.
      pose proof (exp_pos (nth (Z.to_nat t) row 0)) as He.
      split; [simpl; now rewrite Hlen|].
      constructor; [|exact Hnn].
      pose proof (@exp_le_sum_exp row _ Ht) as Hle.
      pose proof (ln_monotone He Hle) as Hln. rewrite ln_exp in Hln. lra.
Qed.

Lemma CrossEntropyLoss_sign (logits : tensor) (y : list Z) (C : nat) (l : R) :
  shape logits = [length y; C] -> wf logits -> y <> [] ->
  CrossEntropyLoss logits y = Ok l ->
  0 <= l.
Proof.
  intros Hs Hw Hne. unfold CrossEntropyLoss. rewrite Hs, Nat.eqb_refl.
  destruct (nll_rows C (rows C (length y) (data logits)) y) as [ls|] eqn:E;
    [|discriminate].
  cbn [bind]. intros H; inversion H; subst l. clear H.
  assert (Hrows : Forall (fun r => length r = C) (rows C (length y) (data logits))).
  { apply rows_row_length. unfold wf in Hw. rewrite Hw, Hs. unfold numel.
    cbn [fold_right]. lia. }
  destruct (@nll_rows_sign C _ y ls Hrows E) as (Hlen & Hnn).
  assert (HB : 0 < INR (length y)).
  { apply lt_0_INR. destruct y; [congruence|simpl; lia]. }
  pose proof (sum_nonneg Hnn). unfold Rdiv.
  apply Rmult_le_pos; [assumption|]. apply Rlt_le. now apply Rinv_0_lt_compat.
Qed.

Lemma rows_repeat (c : R) (C B : nat) :
  rows C B (repeat c (B * C)) = repeat (repeat c C) B.
Proof.
  induction B as [|B IH]; [reflexivity|].
  cbn [rows repeat]. change (S B * C)%nat with (C + B * C)%nat.
  rewrite repeat_app.
  rewrite firstn_app, skipn_app, repeat_length, Nat.sub_diag. cbn [firstn skipn].
  rewrite app_nil_r, firstn_all2 by (rewrite repeat_length; lia).
  rewrite skipn_all2 by (rewrite repeat_length; lia). cbn [app].
  now rewrite IH.
Qed.

Lemma sum_repeat (v : R) (n : nat) : sum (repeat v n) = INR n * v.
Proof.
  induction n as [|n IH]; [simpl; lra|].
  cbn [repeat sum]. rewrite IH, S_INR. lra.
Qed.

Lemma nll_rows_equal_logits (c : R) (C : nat) (y : list Z) :
  Forall (fun t => (0 <= t < Z.of_nat C)%Z) y ->
  nll_rows C (repeat (repeat c C) (length y)) y
  = Ok (repeat (ln (INR C)) (length y)).
Proof.
  induction 1 as [|t y Ht _ IH]; [reflexivity|].
  cbn [length repeat nll_rows].
  destruct (Z.leb_spec 0 t); [|lia].
  destruct (Z.ltb_spec t (Z.of_nat C)); [|lia]. cbn [andb].
  rewrite IH. cbn [bind]. do 2 f_equal.
  rewrite nth_repeat_lt by lia. rewrite map_repeat, sum_repeat.
  assert (HC : 0 < INR C) by (apply lt_0_INR; lia).
  rewrite ln_mult by (try exact HC; apply exp_pos). rewrite ln_exp. lra.
Qed.

Lemma ln_10_gt_2 : 2 < ln (INR 10).
Proof.
  assert (H2 : exp 2 < INR 10).
  { replace 2 with (1 + 1) by lra. rewrite exp_plus.
    pose proof exp_le_3. pose proof (exp_pos 1).
    replace (INR 10) with 10 by (simpl; lra). nra. }
  pose proof (ln_increasing _ _ (exp_pos 2) H2) as H. now rewrite ln_exp in H.
Qed.

End Loss.

(** X16.  The cross-entropy loss of a batch is defined and never
    negative: the logits of a batch of [B] samples with [C] classes and
    labels in [[0, C)] always have a loss, the mean over the samples of
    [-log softmax(row)[label]], each of which is at least 0. *)
Theorem loss_fn_sign (logits : tensor) (y : list Z) (C : nat)
    (Hs : shape logits = [length y; C]) (Hw : wf logits) (Hne : y <> [])
    (Hy : Forall (fun t => (0 <= t < Z.of_nat C)%Z) y) :
  exists (l : R) (ls : list R),
    loss_fn logits y = Ok l /\
    nll_rows C (rows C (length y) (data logits)) y = Ok ls /\
    length ls = length y /\ Forall (fun v => (0 <= v)%R) ls /\
    l = (Torch.sum ls / INR (length y))%R /\ (0 <= l)%R.
Proof.
  destruct (@nll_rows_ok C (rows C (length y) (data logits)) y Hy) as (ls & Hls).
  assert (Hl : CrossEntropyLoss logits y = Ok (Torch.sum ls / INR (length y))%R).
  { unfold CrossEntropyLoss. rewrite Hs, Nat.eqb_refl, Hls. reflexivity. }
  assert (Hrows : Forall (fun r => length r = C) (rows C (length y) (data logits))).
  { apply rows_row_length. unfold wf in Hw. rewrite Hw, Hs. unfold numel.
    cbn [fold_right]. lia. }
  destruct (@nll_rows_sign C _ y ls Hrows Hls) as (Hlen & Hnn).
  rewrite rows_length, Nat.min_id in Hlen.
  exists (Torch.sum ls / INR (length y))%R, ls.
  split; [exact Hl|]. split; [exact Hls|]. split; [exact Hlen|].
  split; [exact Hnn|]. split; [reflexivity|].
  apply (@CrossEntropyLoss_sign logits y C _ Hs Hw Hne Hl).
Qed.

Lemma loss_fn_sign_witness :
  exists (l : R) (ls : list R),
    loss_fn (mk_tensor [2; 3]%nat [0; 1; 0; 2; 0; 0]%R) [1%Z; 0%Z] = Ok l /\
    nll_rows 3 (rows 3 (length [1%Z; 0%Z]) [0; 1; 0; 2; 0; 0]%R) [1%Z; 0%Z] = Ok ls /\
    length ls = length [1%Z; 0%Z] /\ Forall (fun v => (0 <= v)%R) ls /\
    l = (Torch.sum ls / INR (length [1%Z; 0%Z]))%R /\ (0 <= l)%R.
Proof.
  apply (@loss_fn_sign (mk_tensor [2; 3]%nat [0; 1; 0; 2; 0; 0]%R) [1%Z; 0%Z] 3).
  - reflexivity.
  - reflexivity.
  - discriminate.
  - repeat constructor; lia.
Defined.

(** X17.  When a model gives all the classes the same logit on every
    sample of a batch (as a model whose parameters are all zero does), the
    loss is [ln C] whatever the labels are; for the ten classes of the
    notebook this is [ln 10], more than 2: the loss is not a number
    between 0 and 1. *)
Theorem loss_fn_equal_logits (c : R) (y : list Z) (C : nat)
    (Hne : y <> [])
    (Hy : Forall (fun t => (0 <= t < Z.of_nat C)%Z) y) :
  loss_fn (mk_tensor [length y; C] (repeat c (length y * C))) y = Ok (ln (INR C)) /\
  (C = 10%nat -> (2 < ln (INR C))%R).
Proof.
  split.
  - unfold loss_fn, CrossEntropyLoss. cbn [shape data]. rewrite Nat.eqb_refl.
    rewrite rows_repeat, (@nll_rows_equal_logits c C y Hy). cbn [bind]. f_equal.
    rewrite sum_repeat.
    assert (HB : (0 < INR (length y))%R).
    { apply lt_0_INR. destruct y; [congruence|simpl; lia]. }
    field. lra.
  - intros ->. apply ln_10_gt_2.
Qed.

Lemma loss_fn_equal_logits_witness :
  loss_fn (mk_tensor [length [3%Z]; 10%nat] (repeat 0%R (length [3%Z] * 10))) [3%Z]
  = Ok (ln (INR 10)) /\
  (10%nat = 10%nat -> (2 < ln (INR 10))%R).
Proof.
  apply (@loss_fn_equal_logits 0%R [3%Z] 10).
  - discriminate.
  - repeat constructor; lia.
Defined.

(* ------------------------------------------------------------------ *)
(** ** The metrics the testing loop reports *)

(** X18.  On a test set without samples the testing loop runs no
    iteration, and the division of the accumulated loss by
    [len(test_dataloader) = 0] raises [ZeroDivisionError]. *)
Theorem testing_loop_empty
    (model : tensor -> result tensor) (test_data : FashionMNIST) (bs : nat)
    (Hempty : images test_data = []) (Hbs : (0 < bs)%nat) :
  let dl := mk_DataLoader test_data bs false in
  index_batches dl [] = [] /\ DataLoader_len dl = 0%Z /\
  testing_loop model dl [] = Raise ZeroDivisionError.
Proof.
  intros dl.
  assert (Hib : index_batches dl [] = []).
  { unfold index_batches, sampler, dl. cbn [shuffle dataset batch_size].
    rewrite Hempty. reflexivity. }
  assert (Hlen : DataLoader_len dl = 0%Z).
  { unfold DataLoader_len, FashionMNIST_len, len, dl. cbn [dataset batch_size].
    rewrite Hempty. cbn [length]. apply Z.div_small. lia. }
  split; [exact Hib|]. split; [exact Hlen|].
  unfold testing_loop. rewrite Hib. cbn [test_batches bind]. now rewrite Hlen.
Qed.

Lemma testing_loop_empty_witness :
  let dl := mk_DataLoader (blank_dataset []) BATCH_SIZE false in
  index_batches dl [] = [] /\ DataLoader_len dl = 0%Z /\
  testing_loop (forward (model_0 class0_parameters)) dl [] = Raise ZeroDivisionError.
Proof.
  apply (@testing_loop_empty (forward (model_0 class0_parameters))
           (blank_dataset []) BATCH_SIZE).
  - reflexivity.
  - unfold BATCH_SIZE. lia.
Defined.

Section ReportedMetrics.

Lemma batch_percentage_range (yp : list Z * list Z) :
  batch_recorded yp -> (0 <= batch_percentage yp /\ batch_percentage yp <= 100)%Q.
Proof.
  intros [Hlen Hne]. unfold batch_percentage.
  rewrite <- (sum_item_matching _ _ Hlen).
  pose proof (sum_item_bounds (zip_eq (fst yp) (snd yp))) as [Hlo Hhi].
  unfold len in Hhi. rewrite (zip_eq_length _ _ Hlen) in Hhi. fold (len (snd yp)) in Hhi.
  pose proof (len_pos_of_nonempty Hne) as Hpos.
  set (c := sum_item (zip_eq (fst yp) (snd yp))) in *.
  assert (Hq : (0 < inject_Z (len (snd yp)))%Q).
  { change 0%Q with (inject_Z 0). rewrite <- Zlt_Qlt. exact Hpos. }
  assert (Hc0 : (0 <= inject_Z c)%Q).
  { change 0%Q with (inject_Z 0). rewrite <- Zle_Qle. exact Hlo. }
  assert (Hcn : (inject_Z c <= inject_Z (len (snd yp)))%Q).
  { rewrite <- Zle_Qle. exact Hhi. }
  split.
  - apply Qle_shift_div_l; [exact Hq|]. Lqa.lra.
  - apply Qle_shift_div_r; [exact Hq|]. Lqa.lra.
Qed.

Lemma Qsum_range (l : list Q) :
  Forall (fun q => 0 <= q /\ q <= 100)%Q l ->
  (0 <= Qsum l /\ Qsum l <= 100 * inject_Z (len l))%Q.
Proof.
  induction 1 as [|q l [H0 H1] _ [IH0 IH1]].
  - cbn [Qsum]. change (inject_Z (len (@nil Q))) with 0%Q. split; Lqa.lra.
  - cbn [Qsum]. unfold len in *. cbn [length].
    rewrite Nat2Z.inj_succ, <- Z.add_1_r, inject_Z_plus.
    change (inject_Z 1) with 1%Q. split; Lqa.lra.
Qed.

Lemma mean_batch_accuracy_range (lp : list (list Z * list Z)) :
  lp <> [] -> Forall batch_recorded lp ->
  (0 <= mean_batch_accuracy lp /\ mean_batch_accuracy lp <= 100)%Q.
Proof.
  intros Hne Hrec. unfold mean_batch_accuracy.
  destruct (@Qsum_range (map batch_percentage lp)) as [H0 H1].
  { apply Forall_map. eapply Forall_impl; [|exact Hrec].
    intros yp. apply batch_percentage_range. }
  unfold len in H1. rewrite length_map in H1. fold (len lp) in H1.
  assert (Hq : (0 < inject_Z (len lp))%Q).
  { change 0%Q with (inject_Z 0). rewrite <- Zlt_Qlt. now apply len_pos_of_nonempty. }
  split.
  - apply Qle_shift_div_l; [exact Hq|]. Lqa.lra.
  - apply Qle_shift_div_r; [exact Hq|]. exact H1.
Qed.

Variable model : tensor -> result tensor.
Hypothesis model_ok : ten_class_model model.
Variable dl : DataLoader.
Hypothesis data_ok : notebook_dataset (dataset dl).

(** The loss accumulated by the testing loop never decreases. *)
Lemma test_batches_loss (ibs : list (list Z)) (st st' : R * Q) :
  Forall (index_batch_ok dl) ibs ->
  test_batches model dl st ibs = Ok st' ->
  (fst st <= fst st')%R.
Proof.
  intros H. revert st. induction H as [|ib ibs [Hne Hin] _ IH]; intros st;
    cbn [test_batches].
  - intros E; inversion E; subst st'. lra.
  - destruct (fetch_ok dl data_ok Hne Hin) as (X & y & -> & HX & Hw & Hy & _).
    cbn [bind]. destruct st as [l0 a0]. unfold test_step.
    rewrite <- Hy in HX.
    destruct (model_ok HX Hw) as (logits & -> & Hs & Hwl). cbn [bind].
    unfold loss_fn.
    destruct (CrossEntropyLoss logits y) as [l|] eqn:El; [|discriminate]. cbn [bind].
    destruct (argmax_dim1 logits) as [pred|]; [|discriminate]. cbn [bind].
    destruct (accuracy_fn y pred) as [a|]; [|discriminate]. cbn [bind].
    intros Hrest. pose proof (IH _ Hrest) as Hle. cbn [fst] in *.
    assert (Hy_ne : y <> []).
    { intros ->. destruct ib; [congruence|discriminate]. }
    pose proof (@CrossEntropyLoss_sign logits y 10 l Hs Hwl Hy_ne El) as Hpos.
    lra.
Qed.

End ReportedMetrics.

(** X19.  The two numbers the testing loop reports for an epoch over a
    test set that is not empty: the test loss is not negative, and the
    test accuracy lies between 0 and 100. *)
Theorem testing_loop_ranges
    (model : tensor -> result tensor) (test_data : FashionMNIST) (bs : nat)
    (Hmodel : ten_class_model model)
    (Hdata : notebook_dataset test_data)
    (Hne : images test_data <> [])
    (Hbs : (0 < bs)%nat) :
  exists (loss : R) (acc : Q),
    testing_loop model (mk_DataLoader test_data bs false) [] = Ok (loss, acc) /\
    (0 <= loss)%R /\ (0 <= acc /\ acc <= 100)%Q.
Proof.
  destruct (@testing_loop_mean model test_data bs Hmodel Hdata Hne Hbs)
    as (loss & acc & lp & Hrun & _ & Hrec & Hsz & Hlen & Hlpne & Hmean).
  set (dl := mk_DataLoader test_data bs false) in *.
  exists loss, acc. split; [exact Hrun|]. split.
  - assert (Hperm : shuffle dl = true ->
                    Permutation [] (range (length (images (dataset dl))))) by discriminate.
    destruct (@index_batches_ok dl [] Hbs Hperm) as (Hok & _ & _).
    unfold testing_loop in Hrun.
    destruct (test_batches model dl (0%R, 0%Q) (index_batches dl [])) as [[l1 a1]|] eqn:Et;
      [|discriminate].
    cbn [bind] in Hrun.
    destruct (Z.eqb_spec (DataLoader_len dl) 0) as [E|NE]; [discriminate|].
    inversion Hrun; subst loss acc.
    pose proof (@test_batches_loss model Hmodel dl Hdata _ _ _ Hok Et) as Hle.
    cbn [fst] in Hle.
    pose proof (len_pos_of_nonempty Hlpne) as Hpos. rewrite Hlen in Hpos.
    unfold Rdiv. apply Rmult_le_pos; [exact Hle|].
    apply Rlt_le, Rinv_0_lt_compat. now apply IZR_lt.
  - rewrite Hmean. now apply mean_batch_accuracy_range.
Qed.

Lemma testing_loop_ranges_witness :
  exists (loss : R) (acc : Q),
    testing_loop (forward (model_0 ramp_parameters))
                 (mk_DataLoader grey_samples 2 false) [] = Ok (loss, acc) /\
    (0 <= loss)%R /\ (0 <= acc /\ acc <= 100)%Q.
Proof.
  apply (@testing_loop_ranges (forward (model_0 ramp_parameters)) grey_samples 2).
  - apply model_0_ten_classes.
  - exact grey_samples_ok.
  - discriminate.
  - lia.
Defined.

(* ------------------------------------------------------------------ *)
(** ** The operations of an epoch, and of the other cells *)

Section EpochOrder.

Lemma performs_bind (f1 f2 : list op) (p : py) (k : value -> py) :
  performs f1 p -> (forall v, performs f2 (k v)) ->
  performs (f1 ++ f2) (py_bind p k).
Proof.
  intros Hp Hk lib h. rewrite run_bind.
  destruct (Hp lib h) as (evs1 & Hs1 & (rest1 & Hr1) & Hok1).
  destruct (run lib h p) as [[v|e] h1]; cbn [fst snd is_ok] in *; subst h1.
  - destruct (Hk v lib (h ++ evs1)) as (evs2 & Hs2 & (rest2 & Hr2) & Hok2).
    exists (evs1 ++ evs2). rewrite Hs2, <- app_assoc. split; [reflexivity|].
    rewrite training_ops_app, (Hok1 eq_refl). split.
    + exists rest2. now rewrite <- app_assoc, <- Hr2.
    + intros Hok. now rewrite (Hok2 Hok).
  - exists evs1. split; [reflexivity|]. split.
    + exists (rest1 ++ f2). now rewrite app_assoc, <- Hr1.
    + discriminate.
Qed.

(** A [with] block performs the operations of its body, then those of
    the statements after it; entering and leaving the context is none of
    the five operations. *)
Lemma performs_with (f1 f2 : list op) (cm : value) (body : py) (k : value -> py) :
  performs f1 body -> (forall v, performs f2 (k v)) ->
  performs (f1 ++ f2) (With cm body k).
Proof.
  intros Hb Hk lib h. cbn [run].
  destruct (lib h CtxEnter [cm]) as [v0|e].
  2:{ exists [(CtxEnter, [cm], Raise e)]. cbn [fst snd is_ok].
      split; [reflexivity|]. split; [now exists (f1 ++ f2)|discriminate]. }
  set (h0 := h ++ [(CtxEnter, [cm], Ok v0)]).
  destruct (Hb lib h0) as (evb & Hsb & (restb & Hrb) & Hokb).
  destruct (run lib h0 body) as [rb h1]. cbn [fst snd] in Hsb, Hokb. subst h1.
  assert (Hpre : forall rx, exists evs,
             (h0 ++ evb) ++ [(CtxExit, [cm], rx)] = h ++ evs /\
             training_ops evs = training_ops evb).
  { intros rx. exists ((CtxEnter, [cm], Ok v0) :: evb ++ [(CtxExit, [cm], rx)]).
    unfold h0. split; [now rewrite <- !app_assoc|].
    rewrite training_ops_cons. cbn [training_op].
    rewrite training_ops_app, training_ops_cons. cbn [training_op training_ops map filter].
    apply app_nil_r. }
  destruct (lib (h0 ++ evb) CtxExit [cm]) as [vx|ex].
  - destruct rb as [v|e].
    + destruct (Hpre (Ok vx)) as (evs & Hevs & Hops).
      destruct (Hk v lib ((h0 ++ evb) ++ [(CtxExit, [cm], Ok vx)]))
        as (evk & Hsk & (restk & Hrk) & Hokk).
      exists (evs ++ evk). rewrite Hsk, Hevs, <- app_assoc. split; [reflexivity|].
      rewrite training_ops_app, Hops, (Hokb eq_refl). split.
      * exists restk. now rewrite <- app_assoc, <- Hrk.
      * intros Hok. rewrite <- Hevs in Hok. now rewrite (Hokk Hok).
    + destruct (Hpre (Ok vx)) as (evs & Hevs & Hops).
      exists evs. cbn [fst snd is_ok]. split; [exact Hevs|]. rewrite Hops. split.
      * exists (restb ++ f2). now rewrite app_assoc, <- Hrb.
      * discriminate.
  - destruct (Hpre (Raise ex)) as (evs & Hevs & Hops).
    exists evs. cbn [fst snd is_ok]. split; [exact Hevs|]. rewrite Hops. split.
    + exists (restb ++ f2). now rewrite app_assoc, <- Hrb.
    + discriminate.
Qed.

(** A last call that is none of the five operations. *)
Lemma performs_call_last (o : op) (args : list value) :
  training_op o = false -> performs [] (call o args).
Proof.
  intros Ho. change (call o args) with (py_bind (call o args) Ret).
  apply performs_call_other; [exact Ho|]. intros v. apply performs_ret.
Qed.

Lemma loader_batches_length (n : nat) :
  length (loader_batches n) = ((n + 31) / 32)%nat.
Proof.
  unfold loader_batches.
  assert (Hpos : (0 < BATCH_SIZE)%nat) by (unfold BATCH_SIZE; lia).
  destruct (batch_sampler_shape Hpos (range n)) as (_ & _ & _ & Hl & _).
  rewrite Hl, range_length. unfold BATCH_SIZE. f_equal. lia.
Qed.

End EpochOrder.

Ltac performs_step :=
  lazymatch goal with
  | |- performs _ (Ret _) => apply performs_ret
  | |- performs _ (call _ _) => apply performs_call_last; reflexivity
  | |- performs _ (py_bind (to_device _ _ _) _) => apply performs_to_device; intro
  | |- performs _ (py_bind (call _ _) _) =>
      first [ apply performs_call_other; [reflexivity|intro]
            | apply performs_call_op; [reflexivity|intro] ]
  end.

Ltac performs_tac := repeat performs_step.

Section CellOperations.

Lemma py_accuracy_fn_performs (y_true y_pred : value) :
  performs [] (py_accuracy_fn y_true y_pred).
Proof. unfold py_accuracy_fn. performs_tac. Qed.

Lemma testing_step_performs (published : bool) (g : globals)
    (ib : list Z) (st : value) :
  performs evaluation_order (testing_step published g ib st).
Proof.
  unfold testing_step, evaluation_order. performs_tac.
  apply (@performs_bind [] []); [apply py_accuracy_fn_performs|]. intros a.
  performs_tac.
Qed.

Lemma epoch_body_performs (published : bool) (g : globals) (sz : sizes)
    (epoch : Z) (acc : value) :
  performs (epoch_order sz) (epoch_body published g sz epoch acc).
Proof.
  unfold epoch_body, epoch_order. performs_tac.
  apply performs_bind.
  { apply (@for_each_performs _ code_order (loader_batches (n_train sz))
             (training_step published g) (training_step_performs published g)). }
  intros train_loss. performs_tac.
  rewrite <- (app_nil_r (concat (repeat evaluation_order _))).
  apply performs_with.
  - rewrite <- (app_nil_r (concat (repeat evaluation_order _))).
    apply performs_bind.
    + apply (@for_each_performs _ evaluation_order (loader_batches (n_test sz))
               (testing_step published g) (testing_step_performs published g)).
    + intros st. performs_tac.
  - intros st. performs_tac.
Qed.

Lemma cell_train_test_performs (published : bool) (g : globals) (sz : sizes) :
  performs (concat (repeat (epoch_order sz) 3)) (cell_train_test published g sz).
Proof.
  unfold cell_train_test.
  assert (Hloop : forall bar acc,
            performs (concat (repeat (epoch_order sz) 3))
              (for_each (range 3) acc
                 (fun epoch acc => py_bind (call (Builtin "next") [bar])
                                     (fun _ => epoch_body published g sz epoch acc)))).
  { intros bar acc.
    apply (@for_each_performs _ (epoch_order sz) (range 3)).
    intros epoch a. performs_tac. apply epoch_body_performs. }
  destruct published.
  - performs_tac. apply Hloop.
  - cbn [py_bind]. performs_tac. apply Hloop.
Qed.

Lemma py_make_predictions_performs (published : bool) (g : globals) (model img : value) :
  performs [ForwardPass] (py_make_predictions published g model img).
Proof.
  unfold py_make_predictions. performs_tac.
  apply (@performs_with [ForwardPass] []); [|intros _]; performs_tac.
Qed.

Lemma cell_predict_performs (published : bool) (g : globals) :
  performs [ForwardPass] (cell_predict published g).
Proof.
  unfold cell_predict. performs_tac.
  apply (@performs_bind [ForwardPass] []); [apply py_make_predictions_performs|].
  intros pred_probs. performs_tac.
Qed.

End CellOperations.

(** X20.  The cell that trains and tests.  A testing step performs a
    forward pass and a loss computation, and none of zero-grad, backward
    pass and optimizer step: the model is not updated while it is
    evaluated.  An epoch performs the five operations of a training step
    once per training batch, then the two of a testing step once per test
    batch; the cell runs three epochs.  A loader over [n] samples has
    [ceil(n / 32)] batches.  On every run the operations performed are an
    initial part of this sequence, and all of it when the cell
    completes. *)
Theorem train_test_cell_operations (published : bool) (g : globals) (sz : sizes) :
  let training := [ForwardPass; LossComputation; ZeroGrad; BackwardPass;
                   OptimizerStep] in
  let testing := [ForwardPass; LossComputation] in
  let epoch :=
    (concat (repeat training ((n_train sz + 31) / 32))
     ++ concat (repeat testing ((n_test sz + 31) / 32)))%list in
  (forall ib st, performs testing (testing_step published g ib st)) /\
  (forall e acc, performs epoch (epoch_body published g sz e acc)) /\
  performs (epoch ++ epoch ++ epoch)%list (cell_train_test published g sz).
Proof.
  intros training testing epoch.
  assert (E : epoch = epoch_order sz).
  { unfold epoch, epoch_order. now rewrite !loader_batches_length. }
  split; [|split].
  - intros ib st. apply testing_step_performs.
  - intros e acc. rewrite E. apply epoch_body_performs.
  - rewrite E.
    replace (epoch_order sz ++ epoch_order sz ++ epoch_order sz)%list
      with (concat (repeat (epoch_order sz) 3))
      by (cbn [repeat concat]; now rewrite app_nil_r).
    apply cell_train_test_performs.
Qed.

(** X21.  Outside the cell that trains and tests, no cell of the two
    notebooks computes a loss, zeroes or computes a gradient or updates a
    parameter: the prediction cell and the flatten cell make one forward
    pass each, every other cell none. *)
Theorem other_cells_operations (published : bool) (g : globals) :
  performs [ForwardPass] (cell_predict published g) /\
  performs [ForwardPass] (cell_flatten g) /\
  Forall (performs [])
    [ cell_imports; cell_datasets; cell_lengths g; cell_types g;
      cell_class_names g; cell_sample g; cell_show_train g;
      cell_dataloaders g; cell_print_loaders g; cell_first_batch g;
      cell_device; cell_model_class; cell_model_0 g;
      cell_loss_optimizer g; cell_def; cell_actual g; cell_show_test g ].
Proof.
  split; [apply cell_predict_performs|]. split.
  - unfold cell_flatten. performs_tac.
  - repeat (apply Forall_cons;
            [unfold cell_imports, cell_datasets, cell_lengths, cell_types,
               cell_class_names, cell_sample, cell_show_train, cell_show_test,
               show_image, cell_dataloaders, cell_print_loaders, cell_first_batch,
               cell_device, cell_model_class, cell_model_0, model_init,
               cell_loss_optimizer, cell_def, cell_actual;
             performs_tac|]).
    apply Forall_nil.
Qed.

(* ------------------------------------------------------------------ *)
(** ** The recorded predictions and the batch size *)

Section PerSample.

Variable p : parameters.

Let L1 := nn_Linear 784 10 (w1 p) (b1 p).
Let L2 := nn_Linear 10 10 (w2 p) (b2 p).

Lemma logits_length (x : list R) :
  length (affine (weight L2) (bias L2) (affine (weight L1) (bias L1) x)) = 10%nat.
Proof.
  destruct (nn_Linear_rows 10 10 (w2 p) (b2 p)) as (_ & Hw & Hb).
  fold L2 in Hw, Hb. rewrite affine_length; lia.
Qed.

(** The classes recorded for a batch are those of its images, one by
    one. *)
Lemma batch_predictions (ts : list tensor) (X : tensor) :
  Forall (fun t => shape t = [1; 28; 28]%nat /\ wf t) ts -> stack ts = Ok X ->
  exists logits,
    forward (model_0 p) X = Ok logits /\
    argmax_dim1 logits
    = Ok (map (fun t => argmax_row (affine (weight L2) (bias L2)
                                      (affine (weight L1) (bias L1) (data t)))) ts).
Proof.
  intros Hts HX.
  destruct (stack_inv _ HX) as (t0 & rest & Hne & _ & ->).
  assert (Hs0 : shape t0 = [1; 28; 28]%nat).
  { rewrite Hne in Hts. apply (Forall_inv Hts). }
  rewrite Hs0.
  pose proof (@forward_batch_value p
                (mk_tensor [length ts; 1; 28; 28]%nat (concat (map data ts)))
                (length ts) eq_refl) as Hf.
  cbv zeta in Hf. fold L1 L2 in Hf. cbn [data] in Hf.
  assert (Hrows : rows 784 (length ts) (concat (map data ts)) = map data ts).
  { rewrite <- (length_map data ts). apply rows_concat.
    apply Forall_map. eapply Forall_impl; [|exact Hts].
    intros t [Hs Hw]. unfold wf in Hw. rewrite Hw, Hs. reflexivity. }
  rewrite Hrows in Hf.
  eexists. split; [exact Hf|].
  unfold argmax_dim1. cbn [shape data Nat.eqb]. f_equal.
  rewrite !map_map.
  rewrite <- (length_map (fun x => affine (weight L2) (bias L2)
                                    (affine (weight L1) (bias L1) (data x))) ts) at 1.
  rewrite rows_concat.
  - now rewrite map_map.
  - apply Forall_map, Forall_forall. intros t _. apply logits_length.
Qed.

Lemma mapM_app {A B} (f : A -> result B) (l1 l2 : list A) (ys1 ys2 : list B) :
  mapM f l1 = Ok ys1 -> mapM f l2 = Ok ys2 -> mapM f (l1 ++ l2) = Ok (ys1 ++ ys2).
Proof.
  revert ys1. induction l1 as [|x l1 IH]; intros ys1; cbn [mapM app].
  - intros H; inversion H; subst ys1. auto.
  - destruct (f x) as [y|]; [|discriminate]. cbn [bind].
    destruct (mapM f l1) as [ys|]; [|discriminate]. cbn [bind].
    intros H H2; inversion H; subst ys1. rewrite (IH ys eq_refl H2). reflexivity.
Qed.

Lemma mapM_pointwise {A B} (f : A -> result B) (g : A -> B) (l : list A) :
  Forall (fun x => f x = Ok (g x)) l -> mapM f l = Ok (map g l).
Proof.
  induction 1 as [|x l Hx _ IH]; [reflexivity|].
  cbn [mapM map]. rewrite Hx. cbn [bind]. rewrite IH. reflexivity.
Qed.

Lemma getitem_labels (ds : FashionMNIST) (idxs : list Z) (samples : list (tensor * Z)) :
  Forall (fun i => (0 <= i)%Z) idxs ->
  mapM (FashionMNIST_getitem ds) idxs = Ok samples ->
  map snd samples = labels_at (targets ds) idxs.
Proof.
  intros Hpos Hs. apply mapM_Forall2 in Hs. revert Hpos.
  induction Hs as [|i s idxs samples Hi _ IH]; intros Hpos; [reflexivity|].
  inversion Hpos; subst. cbn [map labels_at]. f_equal.
  - now apply FashionMNIST_getitem_label.
  - now apply IH.
Qed.

Lemma epoch_predictions_per_sample (dl : DataLoader) (ibs : list (list Z)) :
  notebook_dataset (dataset dl) -> Forall (index_batch_ok dl) ibs ->
  exists lp samples,
    epoch_predictions (forward (model_0 p)) dl ibs = Ok lp /\
    mapM (FashionMNIST_getitem (dataset dl)) (concat ibs) = Ok samples /\
    Forall sample_ok samples /\
    concat (map snd lp)
    = map (fun s => argmax_row (affine (weight L2) (bias L2)
                                  (affine (weight L1) (bias L1) (data (fst s)))))
          samples /\
    concat (map fst lp) = map snd samples /\
    map (fun yp => length (snd yp)) lp = map (@length Z) ibs.
Proof.
  intros Hds Hall. induction Hall as [|ib ibs [Hne Hin] _ IH].
  - exists [], []. cbn. repeat split; constructor.
  - destruct IH as (lp & samples & Hlp & Hsm & Hok & Hpred & Hlab & Hsz).
    destruct (fetch_ok dl Hds Hne Hin) as (X & y & Hf & _).
    destruct (fetch_inv dl ib Hf) as (ss & Hss & Hst & Hy). cbn [fst snd] in Hst, Hy.
    assert (Hssok : Forall sample_ok ss).
    { apply mapM_Forall2 in Hss. clear - Hss Hds.
      induction Hss as [|i s l l' Hi _ IH']; constructor; [|exact IH'].
      eapply FashionMNIST_getitem_sample; eassumption. }
    destruct (@batch_predictions (map fst ss) X) as (logits & Hfw & Ham);
      [|exact Hst|].
    { apply Forall_map. eapply Forall_impl; [|exact Hssok].
      intros s (Hs & Hw & _). auto. }
    exists ((y, map (fun t => argmax_row (affine (weight L2) (bias L2)
                                 (affine (weight L1) (bias L1) (data t))))
                    (map fst ss)) :: lp), (ss ++ samples).
    split.
    { cbn [epoch_predictions]. rewrite Hf. cbn [bind fst snd].
      rewrite Hfw. cbn [bind]. rewrite Ham. cbn [bind]. rewrite Hlp. reflexivity. }
    split; [cbn [concat]; now apply mapM_app|].
    split; [apply Forall_app; now split|].
    cbn [map concat fst snd]. rewrite Hpred, Hlab, Hy, !map_app, map_map.
    split; [reflexivity|]. split; [reflexivity|].
    rewrite Hsz, !length_map. f_equal. eapply mapM_length; eassumption.
Qed.

End PerSample.

(** X22.  The predictions recorded over the test set do not depend on
    the batch size.  For any two positive batch sizes, the testing loop
    over [model_0] records the same predicted classes, sample after
    sample in the order of the dataset, and the same labels, the targets
    of the dataset; the percentage of all the test samples predicted
    correctly is therefore the same, whereas the accuracy the loop
    reports, a mean over the batches, is not. *)
Theorem test_predictions_any_batch_size
    (p : parameters) (test_data : FashionMNIST) (bs bs' : nat)
    (Hdata : notebook_dataset test_data)
    (Hbs : (0 < bs)%nat) (Hbs' : (0 < bs')%nat) :
  let model := forward (model_0 p) in
  let dl := mk_DataLoader test_data bs false in
  let dl' := mk_DataLoader test_data bs' false in
  exists lp lp',
    epoch_predictions model dl (index_batches dl []) = Ok lp /\
    epoch_predictions model dl' (index_batches dl' []) = Ok lp' /\
    map (fun yp => length (snd yp)) lp = map (@length Z) (index_batches dl []) /\
    map (fun yp => length (snd yp)) lp' = map (@length Z) (index_batches dl' []) /\
    concat (map snd lp) = concat (map snd lp') /\
    concat (map fst lp) = targets test_data /\
    concat (map fst lp') = targets test_data /\
    overall_accuracy lp = overall_accuracy lp'.
Proof.
  intros model dl dl'.
  assert (Hall : forall b, (0 < b)%nat ->
            let d := mk_DataLoader test_data b false in
            exists lp samples,
              epoch_predictions model d (index_batches d []) = Ok lp /\
              mapM (FashionMNIST_getitem test_data) (range (length (images test_data)))
              = Ok samples /\
              map (fun yp => length (snd yp)) lp = map (@length Z) (index_batches d []) /\
              concat (map snd lp)
              = map (fun s => argmax_row
                                (affine (weight (nn_Linear 10 10 (w2 p) (b2 p)))
                                        (bias (nn_Linear 10 10 (w2 p) (b2 p)))
                                   (affine (weight (nn_Linear 784 10 (w1 p) (b1 p)))
                                           (bias (nn_Linear 784 10 (w1 p) (b1 p)))
                                           (data (fst s))))) samples /\
              concat (map fst lp) = targets test_data).
  { intros b Hb d.
    assert (Hperm : shuffle d = true ->
                    Permutation [] (range (length (images (dataset d))))) by discriminate.
    destruct (@index_batches_ok d [] Hb Hperm) as (Hok & _ & _).
    destruct (@epoch_predictions_per_sample p d (index_batches d []) Hdata Hok)
      as (lp & samples & Hlp & Hsm & Hsok & Hpred & Hlab & Hsz).
    assert (Hc : concat (index_batches d []) = range (length (images test_data))).
    { apply (batch_sampler_from_concat b (range (length (images test_data))) []). }
    rewrite Hc in Hsm. cbn [dataset d] in Hsm.
    exists lp, samples. split; [exact Hlp|]. split; [exact Hsm|].
    split; [exact Hsz|].
    split; [exact Hpred|].
    rewrite Hlab.
    rewrite (@getitem_labels test_data (range (length (images test_data))) samples).
    + assert (Hlen : length (images test_data) = length (targets test_data))
        by apply Hdata.
      rewrite Hlen. apply labels_at_range.
    + apply Forall_forall. intros i Hi. apply In_range in Hi. lia.
    + exact Hsm. }
  destruct (Hall bs Hbs) as (lp & samples & Hlp & Hsm & Hsz & Hpred & Hlab).
  destruct (Hall bs' Hbs') as (lp' & samples' & Hlp' & Hsm' & Hsz' & Hpred' & Hlab').
  assert (samples' = samples) by congruence. subst samples'.
  exists lp, lp'. split; [exact Hlp|]. split; [exact Hlp'|].
  split; [exact Hsz|]. split; [exact Hsz'|].
  split; [now rewrite Hpred, Hpred'|]. split; [exact Hlab|]. split; [exact Hlab'|].
  unfold overall_accuracy. now rewrite Hpred, Hpred', Hlab, Hlab'.
Qed.

Lemma test_predictions_any_batch_size_witness :
  let model := forward (model_0 ramp_parameters) in
  let dl := mk_DataLoader grey_samples 2 false in
  let dl' := mk_DataLoader grey_samples 3 false in
  exists lp lp',
    epoch_predictions model dl (index_batches dl []) = Ok lp /\
    epoch_predictions model dl' (index_batches dl' []) = Ok lp' /\
    map (fun yp => length (snd yp)) lp = map (@length Z) (index_batches dl []) /\
    map (fun yp => length (snd yp)) lp' = map (@length Z) (index_batches dl' []) /\
    concat (map snd lp) = concat (map snd lp') /\
    concat (map fst lp) = targets grey_samples /\
    concat (map fst lp') = targets grey_samples /\
    overall_accuracy lp = overall_accuracy lp'.
Proof.
  apply (@test_predictions_any_batch_size ramp_parameters grey_samples 2 3).
  - exact grey_samples_ok.
  - lia.
  - lia.
Defined.

(* ------------------------------------------------------------------ *)
(** ** How far the reported accuracy is from the overall accuracy *)

Section AccuracyGap.

Local Open Scope Q_scope.

(** With [M] full batches of [K] samples, [a] of them predicted
    correctly, and a last batch of [r] samples, [c] of them predicted
    correctly: the distance between the mean of the batch percentages and
    the percentage over all the samples. *)
Lemma gap_bound (K r M a c : Q) :
  0 < r -> r <= K -> 0 <= M -> 0 <= a -> a <= M * K -> 0 <= c -> c <= r ->
  Qabs ((100 * a / K + 100 * c / r) / (M + 1) - 100 * (a + c) / (M * K + r))
  <= 100 * M * (K - r) / ((M + 1) * (M * K + r)).
Proof.
  intros Hr HK HM Ha0 Ha1 Hc0 Hc1.
  assert (HK0 : 0 < K) by Lqa.lra.
  assert (HD1 : 0 < M + 1) by Lqa.lra.
  assert (HMK : 0 <= M * K) by (apply Qmult_le_0_compat; Lqa.lra).
  assert (HD2 : 0 < M * K + r) by Lqa.lra.
  assert (HD : 0 < (M + 1) * (M * K + r)) by (apply Qmult_lt_0_compat; assumption).
  set (u := a / K). set (v := c / r).
  assert (Hu0 : 0 <= u).
  { apply Qle_shift_div_l; [exact HK0|]. Lqa.lra. }
  assert (Hu1 : u <= M) by (apply Qle_shift_div_r; [exact HK0|exact Ha1]).
  assert (Hv0 : 0 <= v).
  { apply Qle_shift_div_l; [exact Hr|]. Lqa.lra. }
  assert (Hv1 : v <= 1).
  { apply Qle_shift_div_r; [exact Hr|]. Lqa.lra. }
  assert (E : (100 * a / K + 100 * c / r) / (M + 1) - 100 * (a + c) / (M * K + r)
              == 100 * ((K - r) * (M * v - u)) / ((M + 1) * (M * K + r))).
  { unfold u, v. field. repeat split; Lqa.lra. }
  rewrite E. clear E.
  assert (Hb1 : (K - r) * (M * v - u) <= M * (K - r)).
  { assert (H1 : 0 <= M * (1 - v)) by (apply Qmult_le_0_compat; Lqa.lra).
    assert (H2 : 0 <= (K - r) * (M * (1 - v) + u)) by (apply Qmult_le_0_compat; Lqa.lra).
    Lqa.lra. }
  assert (Hb2 : - (M * (K - r)) <= (K - r) * (M * v - u)).
  { assert (H1 : 0 <= M * v) by (apply Qmult_le_0_compat; Lqa.lra).
    assert (H2 : 0 <= (K - r) * (M * v + (M - u))) by (apply Qmult_le_0_compat; Lqa.lra).
    Lqa.lra. }
  apply Qabs_Qle_condition. split.
  - apply Qle_shift_div_l; [exact HD|].
    setoid_replace (- (100 * M * (K - r) / ((M + 1) * (M * K + r)))
                    * ((M + 1) * (M * K + r)))
      with (- (100 * M * (K - r))) by (field; split; Lqa.lra).
    Lqa.lra.
  - apply Qle_shift_div_r; [exact HD|].
    setoid_replace (100 * M * (K - r) / ((M + 1) * (M * K + r))
                    * ((M + 1) * (M * K + r)))
      with (100 * M * (K - r)) by (field; split; Lqa.lra).
    Lqa.lra.
Qed.

Lemma Qsum_app (l1 l2 : list Q) : Qsum (l1 ++ l2) == Qsum l1 + Qsum l2.
Proof.
  induction l1 as [|x l1 IH]; cbn [app Qsum]; [ring|]. rewrite IH. ring.
Qed.

Lemma total_matching_app (l1 l2 : list (list Z * list Z)) :
  total_matching (l1 ++ l2) = (total_matching l1 + total_matching l2)%Z.
Proof. induction l1 as [|x l1 IH]; cbn [app total_matching]; lia. Qed.

Lemma matching_indices_range (yp : list Z * list Z) :
  batch_recorded yp ->
  (0 <= matching_indices (fst yp) (snd yp) <= len (snd yp))%Z.
Proof.
  intros [Hlen _]. rewrite <- (sum_item_matching _ _ Hlen).
  pose proof (sum_item_bounds (zip_eq (fst yp) (snd yp))) as H.
  unfold len in *. now rewrite (zip_eq_length _ _ Hlen) in H.
Qed.

Lemma total_matching_range (k : nat) (lp : list (list Z * list Z)) :
  Forall (batch_of_size k) lp ->
  (0 <= total_matching lp <= Z.of_nat k * len lp)%Z.
Proof.
  induction 1 as [|yp lp [Hrec Hsz] _ IH]; cbn [total_matching].
  - unfold len. simpl. lia.
  - pose proof (matching_indices_range Hrec) as Hm.
    unfold len in *. rewrite Hsz in Hm. cbn [length]. lia.
Qed.

Lemma Forall_map_inv {A B} (f : A -> B) (P : B -> Prop) (l : list A) :
  Forall P (map f l) -> Forall (fun x => P (f x)) l.
Proof. intros H. apply (proj1 (Forall_map f P l)). exact H. Qed.

End AccuracyGap.



(* ------------------------------------------------------------------ *)
(** ** Probabilities, loss and correct predictions *)

Section Confidence.

Local Open Scope R_scope.

Lemma sum_le_max (l : list R) (m : R) :
  Forall (fun q => q <= m) l -> sum l <= INR (length l) * m.
Proof.
  induction 1 as [|q l Hq _ IH]; [simpl; lra|].
  cbn [sum length]. rewrite S_INR. lra.
Qed.

Lemma softmax_nth (l : list R) (j : nat) :
  (j < length l)%nat ->
  nth j (softmax l) 0 = exp (nth j l 0) / sum (map exp l).
Proof.
  intros Hj. unfold softmax.
  rewrite (nth_indep _ 0 (exp 0 / sum (map exp l))) by (now rewrite length_map).
  now rewrite (map_nth (fun x => exp x / sum (map exp l)) l 0 j).
Qed.

Lemma softmax_unit_interval (l : list R) :
  l <> [] -> Forall (fun q => 0 <= q <= 1) (softmax l).
Proof.
  intros Hne. apply Forall_forall. intros q Hq.
  destruct (In_nth _ _ 0 Hq) as (j & Hj & <-). rewrite softmax_length in Hj.
  rewrite (softmax_nth l Hj).
  pose proof (exp_pos (nth j l 0)) as He.
  pose proof (exp_le_sum_exp l Hj) as Hle.
  assert (HS : 0 < sum (map exp l)) by lra.
  split.
  - apply Rlt_le. now apply Rdiv_lt_0_compat.
  - apply Rmult_le_reg_r with (sum (map exp l)); [exact HS|].
    unfold Rdiv. rewrite Rmult_assoc, Rinv_l by lra. lra.
Qed.

(** A label with a negative log-likelihood below [ln 2] has a
    probability above one half, so its logit is the largest of the row
    and [argmax] returns it. *)
Lemma nll_below_ln2 (row : list R) (t : nat) :
  (t < length row)%nat ->
  ln (sum (map exp row)) - nth t row 0 < ln 2 ->
  argmax_row row = Z.of_nat t.
Proof.
  intros Ht Hlow.
  assert (Hne : row <> []) by (intros ->; simpl in Ht; lia).
  pose proof (sum_exp_pos Hne) as HS.
  assert (Hhalf : sum (map exp row) < 2 * exp (nth t row 0)).
  { apply ln_lt_inv; [exact HS| |].
    - pose proof (exp_pos (nth t row 0)). lra.
    - rewrite ln_mult by (try lra; apply exp_pos). rewrite ln_exp. lra. }
  assert (Hothers : forall j, (j < length row)%nat -> j <> t ->
                              nth j row 0 < nth t row 0).
  { intros j Hj Hjt. apply exp_lt_inv.
    assert (Hpair : exp (nth j row 0) + exp (nth t row 0) <= sum (map exp row)).
    { clear - Hj Ht Hjt. revert j t Hj Ht Hjt.
      induction row as [|x row IH]; intros j t Hj Ht Hjt; simpl in Hj, Ht; [lia|].
      cbn [map sum]. destruct j as [|j]; destruct t as [|t]; cbn [nth]; try lia.
      - pose proof (@exp_le_sum_exp row t). assert (t < length row)%nat by lia.
        specialize (H H0). lra.
      - pose proof (@exp_le_sum_exp row j). assert (j < length row)%nat by lia.
        specialize (H H0). lra.
      - pose proof (exp_pos x).
        assert (exp (nth j row 0) + exp (nth t row 0) <= sum (map exp row)).
        { apply IH; lia. }
        lra. }
    lra. }
  destruct (argmax_row_spec Hne) as (c & Hc & Hlt & Hmax & _).
  rewrite Hc. f_equal.
  destruct (Nat.eq_dec c t) as [E|NE]; [exact E|].
  pose proof (Hmax t Ht). pose proof (Hothers c Hlt NE). lra.
Qed.

(** The negative log-likelihood of the label [argmax] returns is at most
    [ln C]. *)
Lemma nll_of_argmax (row : list R) (c : nat) :
  row <> [] -> argmax_row row = Z.of_nat c ->
  ln (sum (map exp row)) - nth c row 0 <= ln (INR (length row)).
Proof.
  intros Hne Hc.
  destruct (argmax_row_spec Hne) as (c' & Hc' & Hlt & Hmax & _).
  assert (c' = c) by lia. subst c'.
  pose proof (sum_exp_pos Hne) as HS.
  assert (Hle : sum (map exp row) <= INR (length row) * exp (nth c row 0)).
  { rewrite <- (length_map exp row). apply sum_le_max.
    apply Forall_map, Forall_forall. intros x Hx.
    destruct (In_nth _ _ 0 Hx) as (j & Hj & <-).
    destruct (Hmax j Hj) as [Hl| ->]; [|lra].
    apply Rlt_le. now apply exp_increasing. }
  assert (Hn : 0 < INR (length row)).
  { apply lt_0_INR. destruct row; [congruence|simpl; lia]. }
  pose proof (ln_monotone HS Hle) as Hln.
  rewrite ln_mult in Hln by (try exact Hn; apply exp_pos).
  rewrite ln_exp in Hln. lra.
Qed.

Lemma nll_rows_values (C : nat) (rws : list (list R)) (y : list Z) (ls : list R) :
  length rws = length y ->
  nll_rows C rws y = Ok ls ->
  length ls = length y /\
  Forall (fun t => (0 <= t < Z.of_nat C)%Z) y /\
  forall k, (k < length y)%nat ->
    nth k ls 0
    = ln (sum (map exp (nth k rws []))) - nth (Z.to_nat (nth k y 0%Z)) (nth k rws []) 0.
Proof.
  revert y ls. induction rws as [|row rws IH]; intros [|t y] ls Hlen;
    simpl in Hlen; try discriminate; cbn [nll_rows].
  - intros H; inversion H; subst ls. repeat split; [constructor|]. intros k Hk.
    simpl in Hk. lia.
  - destruct (Z.leb_spec 0 t) as [H0|]; [|discriminate].
    destruct (Z.ltb_spec t (Z.of_nat C)) as [HC|]; [|discriminate]. cbn [andb].
    destruct (nll_rows C rws y) as [ls'|] eqn:E; [|discriminate]. cbn [bind].
    intros H; inversion H; subst ls. clear H.
    destruct (IH y ls' ltac:(lia) E) as (Hl & Hy & Hv).
    split; [simpl; now rewrite Hl|]. split; [constructor; [lia|exact Hy]|].
    intros [|k] Hk; cbn [nth]; [reflexivity|]. apply Hv. simpl in Hk. lia.
Qed.

Lemma exp_half_sq (x : R) : exp x = exp (x / 2) * exp (x / 2).
Proof. rewrite <- exp_plus. f_equal. lra. Qed.

Lemma sq_lower (a b c : R) : 0 <= b -> b <= a -> c <= b * b -> c <= a * a.
Proof. intros. nra. Qed.

(** [ln 2 = 0.6931...] is above 0.69: [exp(-0.69)] is the 128th power of
    [exp(-0.69/128) >= 1 - 0.69/128], bounded below by seven squarings. *)
Lemma ln_2_lower : 69 / 100 < ln 2.
Proof.
  assert (H128 : 9946093 / 10000000 <= exp (- (69 / 100) / 128)).
  { pose proof (exp_ineq1_le (- (69 / 100) / 128)). lra. }
  assert (H64 : 2473119 / 2500000 <= exp (- (69 / 100) / 64)).
  { rewrite (exp_half_sq (- (69 / 100) / 64)).
    replace (- (69 / 100) / 64 / 2) with (- (69 / 100) / 128) by lra.
    apply (@sq_lower _ (9946093 / 10000000) _); [lra|exact H128|lra]. }
  assert (H32 : 2446527 / 2500000 <= exp (- (69 / 100) / 32)).
  { rewrite (exp_half_sq (- (69 / 100) / 32)).
    replace (- (69 / 100) / 32 / 2) with (- (69 / 100) / 64) by lra.
    apply (@sq_lower _ (2473119 / 2500000) _); [lra|exact H64|lra]. }
  assert (H16 : 957679 / 1000000 <= exp (- (69 / 100) / 16)).
  { rewrite (exp_half_sq (- (69 / 100) / 16)).
    replace (- (69 / 100) / 16 / 2) with (- (69 / 100) / 32) by lra.
    apply (@sq_lower _ (2446527 / 2500000) _); [lra|exact H32|lra]. }
  assert (H8 : 917149 / 1000000 <= exp (- (69 / 100) / 8)).
  { rewrite (exp_half_sq (- (69 / 100) / 8)).
    replace (- (69 / 100) / 8 / 2) with (- (69 / 100) / 16) by lra.
    apply (@sq_lower _ (957679 / 1000000) _); [lra|exact H16|lra]. }
  assert (H4 : 4205811 / 5000000 <= exp (- (69 / 100) / 4)).
  { rewrite (exp_half_sq (- (69 / 100) / 4)).
    replace (- (69 / 100) / 4 / 2) with (- (69 / 100) / 8) by lra.
    apply (@sq_lower _ (917149 / 1000000) _); [lra|exact H8|lra]. }
  assert (H2 : 3537769 / 5000000 <= exp (- (69 / 100) / 2)).
  { rewrite (exp_half_sq (- (69 / 100) / 2)).
    replace (- (69 / 100) / 2 / 2) with (- (69 / 100) / 4) by lra.
    apply (@sq_lower _ (4205811 / 5000000) _); [lra|exact H4|lra]. }
  assert (H1 : 5006323 / 10000000 <= exp (- (69 / 100) / 1)).
  { rewrite (exp_half_sq (- (69 / 100) / 1)).
    replace (- (69 / 100) / 1 / 2) with (- (69 / 100) / 2) by lra.
    apply (@sq_lower _ (3537769 / 5000000) _); [lra|exact H2|lra]. }
  assert (Hinv : exp (69 / 100) * exp (- (69 / 100) / 1) = 1).
  { rewrite <- exp_plus. replace (69 / 100 + - (69 / 100) / 1) with 0 by lra. apply exp_0. }
  assert (Hlt : exp (69 / 100) < 2).
  { pose proof (exp_pos (69 / 100)). nra. }
  rewrite <- (ln_exp (69 / 100)). apply ln_increasing; [apply exp_pos|exact Hlt].
Qed.

Lemma sum_below (l : list R) (b : R) :
  Forall (fun v => 0 <= v) l -> sum l < b -> Forall (fun v => v < b) l.
Proof.
  induction 1 as [|v l Hv Hl IH]; intros Hs; constructor; cbn [sum] in Hs.
  - pose proof (sum_nonneg Hl). lra.
  - apply IH. lra.
Qed.

End Confidence.

(** X24.  The probabilities [make_predictions] returns for a model with
    ten classes lie between 0 and 1, and the class the prediction cell
    prints is one of the largest probability, which is at least one
    tenth. *)
Theorem predicted_class_probability
    (model : tensor -> result tensor) (img : tensor)
    (Hmodel : ten_class_model model)
    (Himg : shape img = [1; 28; 28]%nat) (Hwf : wf img) :
  exists probs c,
    make_predictions model img = Ok probs /\
    predicted_class model img = Ok (Z.of_nat c) /\ (c < 10)%nat /\
    Forall (fun q => (0 <= q <= 1)%R) (data probs) /\
    (forall j, (j < 10)%nat -> (nth j (data probs) 0 <= nth c (data probs) 0)%R) /\
    (1 / 10 <= nth c (data probs) 0)%R.
Proof.
  destruct (Hmodel (unsqueeze0 img) 1%nat) as (logits & Hl & Hs & Hw).
  { unfold unsqueeze0. cbn [shape]. now rewrite Himg. }
  { unfold wf, unsqueeze0 in *. cbn [shape data].
    change (numel (1%nat :: shape img)) with (1 * numel (shape img))%nat. lia. }
  assert (Hlen : length (data logits) = 10%nat).
  { unfold wf in Hw. rewrite Hs in Hw. exact Hw. }
  pose proof (make_predictions_value model img Hl Hs Hw) as Hmp.
  cbn [Nat.eqb] in Hmp.
  set (probs := softmax (data logits)) in *.
  assert (Hplen : length probs = 10%nat) by (unfold probs; now rewrite softmax_length).
  destruct (@argmax_row_spec probs) as (c & Hc & Hlt & Hmax & _).
  { intros E. rewrite E in Hplen. discriminate. }
  rewrite Hplen in Hlt, Hmax.
  exists (mk_tensor [1; 10]%nat probs), c. cbn [data].
  split; [exact Hmp|]. split.
  { unfold predicted_class. rewrite Hmp. cbn [bind]. unfold argmax_dim1.
    cbn [shape data Nat.eqb rows map]. rewrite firstn_all2 by lia.
    cbn [bind item]. now rewrite Hc. }
  split; [exact Hlt|]. split.
  { apply softmax_unit_interval. intros E. rewrite E in Hlen. discriminate. }
  split; [exact Hmax|].
  assert (Hsum : Torch.sum probs = 1%R).
  { apply softmax_sum. intros E. rewrite E in Hlen. discriminate. }
  assert (Hle : (Torch.sum probs <= INR (length probs) * nth c probs 0)%R).
  { apply sum_le_max. apply Forall_forall. intros x Hx.
    destruct (In_nth _ _ 0%R Hx) as (j & Hj & <-). apply Hmax. lia. }
  rewrite Hsum, Hplen in Hle.
  replace (INR 10) with 10%R in Hle by (simpl; lra). lra.
Qed.

Lemma predicted_class_probability_witness :
  exists probs c,
    make_predictions (forward (model_0 class0_parameters)) (ToTensor blank_image)
    = Ok probs /\
    predicted_class (forward (model_0 class0_parameters)) (ToTensor blank_image)
    = Ok (Z.of_nat c) /\ (c < 10)%nat /\
    Forall (fun q => (0 <= q <= 1)%R) (data probs) /\
    (forall j, (j < 10)%nat -> (nth j (data probs) 0 <= nth c (data probs) 0)%R) /\
    (1 / 10 <= nth c (data probs) 0)%R.
Proof.
  pose proof (ToTensor_28x28 blank_image_28x28) as [Hs Hw].
  apply (@predicted_class_probability
           (forward (model_0 class0_parameters)) (ToTensor blank_image)).
  - apply model_0_ten_classes.
  - exact Hs.
  - exact Hw.
Defined.

(** X25.  Loss and accuracy of one batch.  When the loss of a batch of
    [B] samples is at most [0.69 / B] (0.69 is just below [ln 2]), every
    label has a probability above one half, so every prediction is right
    and the accuracy of the batch is 100.  Conversely, when every
    prediction is right the loss is at most [ln C]. *)
Theorem low_loss_all_correct (logits : tensor) (y : list Z) (C : nat)
    (Hs : shape logits = [length y; C]) (Hw : wf logits) (Hne : y <> [])
    (Hy : Forall (fun t => (0 <= t < Z.of_nat C)%Z) y) :
  exists (l : R) (pred : list Z) (acc : Q),
    loss_fn logits y = Ok l /\
    argmax_dim1 logits = Ok pred /\
    accuracy_fn y pred = Ok acc /\
    ((l * INR (length y) <= 69 / 100)%R -> pred = y /\ (acc == 100)%Q) /\
    (pred = y -> (l <= ln (INR C))%R).
Proof.
  set (B := length y) in *.
  assert (HB : (0 < B)%nat) by (unfold B; destruct y; [congruence|simpl; lia]).
  assert (HC : C <> 0%nat).
  { intros ->. destruct y as [|t y]; [congruence|]. inversion Hy; subst. lia. }
  set (rws := rows C B (data logits)).
  assert (Hrows : Forall (fun r => length r = C) rws).
  { apply rows_row_length. unfold wf in Hw. rewrite Hw, Hs. unfold numel.
    cbn [fold_right]. lia. }
  assert (Hrlen : length rws = B) by apply rows_length.
  destruct (@nll_rows_ok C rws y Hy) as (ls & Hls).
  destruct (@nll_rows_values C rws y ls Hrlen Hls) as (Hlslen & _ & Hval).
  destruct (@nll_rows_sign C rws y ls Hrows Hls) as (_ & Hnn).
  assert (Hloss : loss_fn logits y = Ok (Torch.sum ls / INR B)%R).
  { unfold loss_fn, CrossEntropyLoss. rewrite Hs, Nat.eqb_refl. fold rws.
    rewrite Hls. reflexivity. }
  assert (Hpred : argmax_dim1 logits = Ok (map argmax_row rws)).
  { unfold argmax_dim1. rewrite Hs. destruct (Nat.eqb_spec C 0); [contradiction|].
    reflexivity. }
  assert (Hplen : length y = length (map argmax_row rws)).
  { rewrite length_map. now rewrite Hrlen. }
  assert (Hpne : map argmax_row rws <> []).
  { intros E. rewrite E in Hplen. simpl in Hplen. fold B in Hplen. lia. }
  pose proof (@accuracy_fn_value y (map argmax_row rws) Hplen Hpne) as Hacc.
  set (acc := (inject_Z (sum_item (zip_eq y (map argmax_row rws)))
               / inject_Z (len (map argmax_row rws)) * 100)%Q) in *.
  assert (Hfull : map argmax_row rws = y -> (acc == 100)%Q).
  { intros E. unfold acc. rewrite E, sum_item_refl. field.
    apply inject_Z_len_nonzero. exact Hne. }
  assert (HBR : (0 < INR B)%R) by now apply lt_0_INR.
  assert (Hrow : forall k, (k < B)%nat ->
            length (nth k rws []) = C /\ (Z.to_nat (nth k y 0%Z) < C)%nat).
  { intros k Hk. split.
    - rewrite Forall_forall in Hrows. apply Hrows. apply nth_In. lia.
    - rewrite Forall_forall in Hy. specialize (Hy (nth k y 0%Z)).
      assert (In (nth k y 0%Z) y) by (apply nth_In; exact Hk).
      specialize (Hy H). cbv beta in Hy. lia. }
  exists (Torch.sum ls / INR B)%R, (map argmax_row rws), acc.
  split; [exact Hloss|]. split; [exact Hpred|]. split; [exact Hacc|]. split.
  - intros Hlow.
    assert (Hsum : (Torch.sum ls < ln 2)%R).
    { unfold Rdiv in Hlow. rewrite Rmult_assoc, Rinv_l in Hlow by lra.
      pose proof ln_2_lower. lra. }
    pose proof (sum_below Hnn Hsum) as Hall.
    assert (Heq : map argmax_row rws = y).
    { apply (nth_ext _ _ 0%Z 0%Z); [now rewrite <- Hplen|].
      intros k Hk. rewrite <- Hplen in Hk. fold B in Hk.
      change 0%Z with (argmax_row []) at 1. rewrite map_nth.
      destruct (Hrow k Hk) as [Hrl Ht].
      rewrite (@nll_below_ln2 (nth k rws []) (Z.to_nat (nth k y 0%Z))).
      - rewrite Forall_forall in Hy.
        assert (In (nth k y 0%Z) y) by (apply nth_In; exact Hk).
        specialize (Hy _ H). cbv beta in Hy. lia.
      - now rewrite Hrl.
      - rewrite <- (Hval k Hk). rewrite Forall_forall in Hall. apply Hall.
        apply nth_In. rewrite Hlslen. exact Hk. }
    split; [exact Heq|]. apply Hfull. exact Heq.
  - intros Heq.
    assert (Hall : Forall (fun v => (v <= ln (INR C))%R) ls).
    { apply Forall_forall. intros v Hv.
      destruct (In_nth _ _ 0%R Hv) as (k & Hk & <-). rewrite Hlslen in Hk.
      fold B in Hk. rewrite (Hval k Hk).
      destruct (Hrow k Hk) as [Hrl Ht].
      rewrite <- Hrl.
      apply nll_of_argmax.
      - intros E. rewrite E in Hrl. simpl in Hrl. lia.
      - rewrite <- Heq at 1. change 0%Z with (argmax_row []) at 1.
        rewrite map_nth. rewrite Z2Nat.id; [reflexivity|].
        rewrite Forall_forall in Hy.
        assert (In (argmax_row (nth k rws [])) y).
        { rewrite <- (map_nth argmax_row rws [] k).
          change (argmax_row []) with 0%Z. rewrite Heq. apply nth_In. exact Hk. }
        specialize (Hy _ H). cbv beta in Hy. lia. }
    pose proof (sum_le_max Hall) as Hle. rewrite Hlslen in Hle. fold B in Hle.
    apply Rmult_le_reg_r with (INR B); [exact HBR|].
    unfold Rdiv. rewrite Rmult_assoc, Rinv_l by lra. lra.
Qed.

Lemma low_loss_all_correct_witness :
  exists (l : R) (pred : list Z) (acc : Q),
    loss_fn (mk_tensor [length [1%Z; 0%Z]; 2%nat] [0; 3; 3; 0]%R) [1%Z; 0%Z] = Ok l /\
    argmax_dim1 (mk_tensor [length [1%Z; 0%Z]; 2%nat] [0; 3; 3; 0]%R) = Ok pred /\
    accuracy_fn [1%Z; 0%Z] pred = Ok acc /\
    ((l * INR (length [1%Z; 0%Z]) <= 69 / 100)%R ->
     pred = [1%Z; 0%Z] /\ (acc == 100)%Q) /\
    (pred = [1%Z; 0%Z] -> (l <= ln (INR 2))%R).
Proof.
  apply (@low_loss_all_correct
           (mk_tensor [length [1%Z; 0%Z]; 2%nat] [0; 3; 3; 0]%R) [1%Z; 0%Z] 2).
  - reflexivity.
  - reflexivity.
  - discriminate.
  - repeat constructor; lia.
Defined.
